(** * EthGuardian AML engine: detection pipeline, risk scorer, crawler,
      auto-expansion and automation controller

    A shallow embedding of the Python backend (backend/app/*.py).

    Conventions used throughout.
    - Python [float] values (scores, ETH amounts, structural features) are
      modelled by exact rationals [Q]; equality of scores is [Qeq] ([==]).
    - Python [int] values (timestamps, counts, depths, bounds) are [Z].
    - The Neo4j store is an explicit value of type [Graph] threaded through
      every function that opens a session; a Cypher [MERGE]/[SET] is an
      update of that value, a Cypher [MATCH] is a function reading it.
    - [time.time()] is an explicit clock reading passed to the function
      that consults it. *)

From Stdlib Require Import QArith Qminmax Qround Qabs ZArith List String Ascii Lia Lqa.
From stdpp Require Import gmap strings list pretty.
Import ListNotations.

Local Open Scope Z_scope.
Local Open Scope Q_scope.

(** ** Rational helpers *)

Definition Qltb (x y : Q) : bool := negb (Qle_bool y x).
Definition Qgeb (x y : Q) : bool := Qle_bool y x.
Definition Qgtb (x y : Q) : bool := negb (Qle_bool x y).
Definition Qeqb (x y : Q) : bool := Qeq_bool x y.

Definition Qsum (l : list Q) : Q := fold_left Qplus l 0.

Definition zlen {A} (l : list A) : Z := Z.of_nat (length l).

Ltac qmm_one a b f spec :=
  let m := fresh "m" in
  let H := fresh "Hm" in
  pose proof (spec a b) as H; set (m := f a b) in *; clearbody m.

(** Replaces every [Qmin]/[Qmax] by a fresh variable constrained by its
    specification, so that [lra] can finish. *)
Ltac qminmax :=
  repeat match goal with
  | |- context [Qmin ?a ?b] => qmm_one a b Qmin Q.min_spec
  | |- context [Qmax ?a ?b] => qmm_one a b Qmax Q.max_spec
  | _ : context [Qmin ?a ?b] |- _ => qmm_one a b Qmin Q.min_spec
  | _ : context [Qmax ?a ?b] |- _ => qmm_one a b Qmax Q.max_spec
  end.

(** ** The graph store (core.py: the Neo4j schema written by ingestion) *)

Module GraphStore.

(** [(:Address)] node. Every property except the key is optional: a node
    created by a bare [MERGE (a:Address {address: ...})] has none of them. *)
Record AddressNode := mkAddress {
  first_seen : option Z;
  last_seen : option Z;
  total_in : option Q;
  total_out : option Q;
  pagerank : option Q;
  degree : option Q;
  inDegree : option Q;
  outDegree : option Q;
  triangles : option Q;
  risk_score : option Q;
  last_alert_ts : option Z;
  has_alert : option bool
}.

Definition bare_address : AddressNode :=
  mkAddress None None None None None None None None None None None None.

(** [(:Transaction)] node together with its [EMITTED] source and its
    [RECEIVED_BY] destination. *)
Record Transaction := mkTransaction {
  tx_hash : string;
  tx_from : string;
  tx_to : string;
  tx_value : Q;
  tx_time : Z;
  tx_block : Z;
  tx_nonce : Z
}.

(** Aggregated [[:TRANSFER]] relationship, one per ordered pair. *)
Record Transfer := mkTransfer {
  tr_src : string;
  tr_dst : string;
  tr_count : Z;
  tr_value_sum : Q;
  tr_last_ts : Z
}.

(** The [details] payload of an alert, one shape per detector, and the
    payload of an alert another component stored (the taint query reads
    alerts of type SANCTION, which no detector creates). *)
Inductive Details :=
| DStructuring (window_days : Z)
| DPeelChain (ratio : Q)
| DMixer (fanin fanout : Z)
| DTaint (max_hops : Z)
| DCircularity (cycles : Z)
| DVelocity (tx_count : Z) (txs_per_hour : Q) (window_hours : Z)
| DDormant (dormant_days recent_tx_count : Z) (recent_value_eth : Q)
| DRoundAmounts (round_tx_count : Z) (sample_amounts : list Q)
| DTiming (avg_interval_hours : Q) (tx_count : Z)
| DWashTrading (counterparties total_roundtrips : Z)
| DExternal (source : string).

(** [(:Alert)] node with its [FOR] relationship. Its key is the string
    [f"{alert_type}:{address}:{now}"], kept here as its three components
    [(al_type, al_address, al_now)]; [created_at] is that same [now]. *)
Record Alert := mkAlert {
  al_type : string;
  al_address : string;
  al_now : Z;
  al_score : Q;
  al_details : Details
}.

Record Graph := mkGraph {
  addresses : gmap string AddressNode;
  transactions : list Transaction;
  transfers : list Transfer;
  alerts : list Alert
}.

Definition empty_graph : Graph := mkGraph ∅ [] [] [].

Definition with_addresses (g : Graph) (m : gmap string AddressNode) : Graph :=
  mkGraph m (transactions g) (transfers g) (alerts g).

Definition set_risk_score (s : Q) (a : AddressNode) : AddressNode :=
  mkAddress (first_seen a) (last_seen a) (total_in a) (total_out a)
    (pagerank a) (degree a) (inDegree a) (outDegree a) (triangles a)
    (Some s) (last_alert_ts a) (has_alert a).

Definition set_alert_mark (now : Z) (a : AddressNode) : AddressNode :=
  mkAddress (first_seen a) (last_seen a) (total_in a) (total_out a)
    (pagerank a) (degree a) (inDegree a) (outDegree a) (triangles a)
    (risk_score a) (Some now) (Some true).

(** Alerts attached to [address]: [(a)<-[:FOR]-(al:Alert)]. *)
Definition alerts_for (g : Graph) (address : string) : list Alert :=
  filter (fun al => al_address al = address) (alerts g).

End GraphStore.
Export GraphStore.

(** ** ml_models.py: scoring from GDS features and alerts *)

Module MlModels.

Definition _normalize (x lo hi : Q) : Q :=
  if Qle_bool hi lo then 0
  else (Qmax lo (Qmin hi x) - lo) / (hi - lo).

Definition coalesce (o : option Q) (d : Q) : Q :=
  match o with Some v => v | None => d end.

(** The arithmetic of [get_address_risk_score] once the record is read. *)
Definition risk_score_of (pr degree indeg outdeg triangles : Q) (alerts : Z) : Q :=
  let pr_n := _normalize pr 0 (1#100) in
  let deg_n := _normalize degree 0 100 in
  let indeg_n := _normalize indeg 0 60 in
  let outdeg_n := _normalize outdeg 0 60 in
  let tri_n := _normalize triangles 0 50 in
  let base := 30 * pr_n + 15 * deg_n + 15 * tri_n + 10 * indeg_n + 10 * outdeg_n in
  let alerts_bonus := Qmin 40 (inject_Z alerts * 10) in
  let score := base + alerts_bonus in
  Qmax 0 (Qmin 100 score).

(** [get_address_risk_score(driver, address)]: returns the store after the
    write-back and the score. A missing [Address] node gives no record,
    [0.0] and no write. *)
Definition get_address_risk_score (g : Graph) (address : string) : Graph * Q :=
  match addresses g !! address with
  | None => (g, 0)
  | Some a =>
      let alerts := zlen (alerts_for g address) in
      let score :=
        risk_score_of (coalesce (pagerank a) 0) (coalesce (degree a) 0)
          (coalesce (inDegree a) 0) (coalesce (outDegree a) 0)
          (coalesce (triangles a) 0) alerts in
      (with_addresses g (<[address := set_risk_score score a]> (addresses g)), score)
  end.

(** The Risk Scorer as the specification words it: min-max normalisation
    of a feature against the fixed bounds [0] and [hi]. *)
Definition saturating_minmax (x hi : Q) : Q :=
  if Qle_bool x 0 then 0 else if Qle_bool hi x then 1 else x / hi.

Definition clamp_0_100 (v : Q) : Q :=
  if Qle_bool v 0 then 0 else if Qle_bool 100 v then 100 else v.

Definition spec_risk_score (pr degree indeg outdeg triangles : option Q)
    (alert_count : Z) : Q :=
  let feature o := match o with Some v => v | None => 0 end in
  let base :=
    30 * saturating_minmax (feature pr) (1#100)
    + 15 * saturating_minmax (feature degree) 100
    + 10 * saturating_minmax (feature indeg) 60
    + 10 * saturating_minmax (feature outdeg) 60
    + 15 * saturating_minmax (feature triangles) 50 in
  let bonus := if Qle_bool 40 (10 * inject_Z alert_count) then 40
               else 10 * inject_Z alert_count in
  clamp_0_100 (base + bonus).

End MlModels.
Export MlModels.

(** ** core.py: ingestion *)

Module Core.

(** One element of the list [EtherscanClient.get_txlist] returns. An empty
    [raw_to] is a contract creation. *)
Record RawTx := mkRawTx {
  raw_hash : string;
  raw_from : string;
  raw_to : string;
  raw_value : Z;          (* wei *)
  raw_timeStamp : Z;
  raw_blockNumber : Z;
  raw_nonce : Z
}.

(** The chain-data provider: the transaction list of an address, or
    [None] when the request raises. *)
Definition Chain : Type := string -> option (list RawTx).

(** The slice [l[:n]]. *)
Definition py_take {A} (n : Z) (l : list A) : list A :=
  if (n <? 0)%Z then take (length l - Z.to_nat (- n)) l
  else take (Z.to_nat n) l.

Definition _prepare_tx_rows (raw_txs : list RawTx) : list Transaction :=
  flat_map (fun t =>
    if String.eqb (raw_to t) "" then []
    else [mkTransaction (raw_hash t) (raw_from t) (raw_to t)
            (inject_Z (raw_value t) / inject_Z (10 ^ 18))
            (raw_timeStamp t) (raw_blockNumber t) (raw_nonce t)]) raw_txs.

(** [MERGE (a:Address {address: ...}) ON CREATE SET ... SET a.last_seen,
    a.total_out / a.total_in]. *)
Definition merge_address (address : string) (ts : Z) (value : Q) (outgoing : bool)
    (m : gmap string AddressNode) : gmap string AddressNode :=
  let a := match m !! address with
           | Some a => a
           | None => mkAddress (Some ts) None (Some 0) (Some 0)
                       None None None None None None None None
           end in
  let last := match last_seen a with
              | Some l => if (l <? ts)%Z then ts else l
              | None => ts
              end in
  let t_in := if outgoing then total_in a
              else Some (coalesce (total_in a) 0 + value) in
  let t_out := if outgoing then Some (coalesce (total_out a) 0 + value)
               else total_out a in
  <[address := mkAddress (first_seen a) (Some last) t_in t_out
                 (pagerank a) (degree a) (inDegree a) (outDegree a)
                 (triangles a) (risk_score a) (last_alert_ts a) (has_alert a)]> m.

(** [MERGE (t:Transaction {hash: ...}) ON CREATE SET ...]. *)
Definition merge_transaction (t : Transaction) (l : list Transaction)
    : list Transaction :=
  if existsb (fun u => String.eqb (tx_hash u) (tx_hash t)) l then l else l ++ [t].

(** [MERGE (a)-[r:TRANSFER]->(b) ON CREATE SET ... SET r.count = r.count + 1,
    r.value_sum = r.value_sum + tx.value, r.last_ts = tx.ts]. *)
Definition merge_transfer (t : Transaction) (l : list Transfer) : list Transfer :=
  let hit r := String.eqb (tr_src r) (tx_from t) && String.eqb (tr_dst r) (tx_to t) in
  if existsb hit l
  then map (fun r => if hit r
                     then mkTransfer (tr_src r) (tr_dst r) (tr_count r + 1)%Z
                            (tr_value_sum r + tx_value t) (tx_time t)
                     else r) l
  else l ++ [mkTransfer (tx_from t) (tx_to t) (0 + 1)%Z (0 + tx_value t) (tx_time t)].

Definition merge_row (g : Graph) (t : Transaction) : Graph :=
  mkGraph
    (merge_address (tx_to t) (tx_time t) (tx_value t) false
       (merge_address (tx_from t) (tx_time t) (tx_value t) true (addresses g)))
    (merge_transaction t (transactions g))
    (merge_transfer t (transfers g))
    (alerts g).

(** [ingest_address(address, limit)]: the store after the merge and the
    value of [result["ingested"]], or [None] when the provider raised. *)
Definition ingest_address (chain : Chain) (g : Graph) (address : string)
    (limit : Z) : Graph * option Z :=
  match chain address with
  | None => (g, None)
  | Some raw =>
      let raw := if (limit =? 0)%Z then raw else py_take limit raw in
      let rows := _prepare_tx_rows raw in
      match rows with
      | [] => (g, Some 0%Z)
      | _ :: _ => (fold_left merge_row rows g, Some (zlen rows))
      end
  end.

End Core.
Export Core.

(** ** aml_analytics.py: AML heuristics (Cypher queries) and Alert nodes *)

Module AmlAnalytics.

(** [int(x)] on a float: truncation towards zero. *)
Definition py_int (x : Q) : Z :=
  if Qle_bool 0 x then Qfloor x else Qceiling x.

Definition same_alert_id (alert_type address : string) (now : Z) (al : Alert) : bool :=
  String.eqb (al_type al) alert_type
  && String.eqb (al_address al) address
  && Z.eqb (al_now al) now.

(** [MERGE (al:Alert {id: $id}) ... SET al.type, al.score, al.details]:
    the node with that id is overwritten when it exists and appended when
    it does not. *)
Definition merge_alert (new : Alert) (l : list Alert) : list Alert :=
  let hit := same_alert_id (al_type new) (al_address new) (al_now new) in
  if existsb hit l
  then map (fun al => if hit al then new else al) l
  else l ++ [new].

(** [_create_alert(tx, address, alert_type, score, details)], where
    [clock] is the value [time.time()] returns. *)
Definition _create_alert (g : Graph) (clock : Q) (address alert_type : string)
    (score : Q) (details : Details) : Graph :=
  let now := py_int (clock * 1000) in
  let a := default bare_address (addresses g !! address) in
  mkGraph (<[address := set_alert_mark now a]> (addresses g))
    (transactions g) (transfers g)
    (merge_alert (mkAlert alert_type address now score details) (alerts g)).

(** The values the successive calls of [time.time()] return: [time k] is
    reading number [k]. Every function that reads the clock takes the
    number of the next reading and returns the number after its last. *)
Definition Clock : Type := nat -> Q.

(** One record returned by a detector's query. *)
Record Row := mkRow {
  row_address : string;
  row_score : Q;
  row_details : Details
}.

(** The loop [for r in rows: results.append(...); _create_alert(...)]:
    every [_create_alert] reads the clock itself. *)
Fixpoint emit (alert_type : string) (time : Clock) (k : nat) (rows : list Row)
    (g : Graph) : Graph * nat * list (string * Q) :=
  match rows with
  | [] => (g, k, [])
  | r :: rest =>
      let g1 := _create_alert g (time k) (row_address r) alert_type
                  (row_score r) (row_details r) in
      let '(g2, k', results) := emit alert_type time (S k) rest g1 in
      (g2, k', (row_address r, row_score r) :: results)
  end.

(** The guard [if score > 0:] of the detectors that have one. *)
Definition positive (rows : list Row) : list Row :=
  filter (fun r => Qgtb (row_score r) 0) rows.

Definition indexed {A} (l : list A) : list (nat * A) :=
  combine (seq 0 (length l)) l.

Definition distinct (l : list string) : list string := remove_dups l.

Definition Zmaximum (l : list Z) : Z :=
  match l with [] => 0%Z | x :: r => fold_left Z.max r x end.
Definition Zminimum (l : list Z) : Z :=
  match l with [] => 0%Z | x :: r => fold_left Z.min r x end.

(** *** Structuring *)

(** The transactions matched by [(a)<-[:RECEIVED_BY]-(t) WHERE t.value > 0
    AND t.value < $max_small AND t.time >= $since]. *)
Definition small_deposits (g : Graph) (address : string) (max_small : Q)
    (since : Z) : list Transaction :=
  filter (fun t => String.eqb (tx_to t) address
                   && Qgtb (tx_value t) 0
                   && Qltb (tx_value t) max_small
                   && (since <=? tx_time t)%Z)
    (transactions g).

Definition structuring_query (g : Graph) (address : string)
    (max_small : Q) (since min_count : Z) : list Row :=
  match addresses g !! address with
  | None => []
  | Some _ =>
      let ts := small_deposits g address max_small since in
      match ts with
      | [] => []
      | _ :: _ =>
          let cnt := zlen ts in
          let total := Qsum (map tx_value ts) in
          if (min_count <=? cnt)%Z
          then [mkRow address
                  ((inject_Z cnt / inject_Z min_count) * 20
                   + (if Qgtb total 1 then 10 else 0))
                  (DStructuring 3)]
          else []
      end
  end.

Definition detect_structuring (g : Graph) (time : Clock) (k : nat)
    (address : string) : Graph * nat * list (string * Q) :=
  let rows := structuring_query g address (1#2)
                (py_int (time k) - 3 * 24 * 3600)%Z 5%Z in
  emit "STRUCTURING" time (S k) rows g.

(** *** Peel chains *)

Definition peel_query (g : Graph) (address : string) (ratio : Q) : list Row :=
  let rs := indexed (transfers g) in
  let hops :=
    flat_map (fun '(i1, r1) =>
      if String.eqb (tr_src r1) address then
        map (fun '(_, r2) => (r1, r2))
          (filter (fun '(i2, r2) =>
                     String.eqb (tr_src r2) (tr_dst r1)
                     && negb (Nat.eqb i2 i1)
                     && Qle_bool (tr_value_sum r2) (tr_value_sum r1 * ratio)) rs)
      else []) rs in
  (* OPTIONAL MATCH (a2)-[r3]->(a3): one record per match, one when none *)
  let records :=
    map (fun '(_, r2) =>
      let n3 := zlen (filter (fun r3 =>
                    String.eqb (tr_src r3) (tr_dst r2)
                    && Qle_bool (tr_value_sum r3) (tr_value_sum r2 * ratio))
                  (transfers g)) in
      Z.max 1 n3) hops in
  match hops with
  | [] => []
  | _ :: _ =>
      let depth := fold_left Z.add records 0%Z in
      [mkRow address
         (inject_Z ((if (1 <=? depth)%Z then 40 else 0) + depth * 10))
         (DPeelChain (7#10))]
  end.

Definition detect_peel_chains (g : Graph) (time : Clock) (k : nat)
    (address : string) : Graph * nat * list (string * Q) :=
  emit "PEEL_CHAIN" time k (peel_query g address (7#10)) g.

(** *** Mixer / fan pattern *)

Definition mixer_query (g : Graph) (address : string) : list Row :=
  match addresses g !! address with
  | None => []
  | Some _ =>
      let fanin := zlen (distinct (map tr_src
                     (filter (fun r => String.eqb (tr_dst r) address) (transfers g)))) in
      let fanout := zlen (distinct (map tr_dst
                     (filter (fun r => String.eqb (tr_src r) address) (transfers g)))) in
      let score :=
        if (20 <=? fanin)%Z || (20 <=? fanout)%Z then 60
        else if (10 <=? fanin)%Z || (10 <=? fanout)%Z then 40
        else 0 in
      [mkRow address score (DMixer fanin fanout)]
  end.

Definition find_mixer_activity (g : Graph) (time : Clock) (k : nat)
    (address : string) : Graph * nat * list (string * Q) :=
  emit "MIXER_PATTERN" time k (positive (mixer_query g address)) g.

(** *** Taint *)

Definition neighbours (g : Graph) (x : string) : list string :=
  flat_map (fun r =>
    (if String.eqb (tr_src r) x then [tr_dst r] else [])
    ++ (if String.eqb (tr_dst r) x then [tr_src r] else [])) (transfers g).

Definition mem (x : string) (l : list string) : bool :=
  existsb (String.eqb x) l.

(** [shortestPath((a)-[:TRANSFER*..3]-(b))]. The outer [None] is the
    exception Neo4j raises, under its default setting
    [cypher.forbid_shortestpath_common_nodes], when the start node and the
    end node are the same; otherwise [Some None] when no path of at most
    three transfers joins the two nodes, and the length of a shortest one
    when one does. *)
Definition shortest_path_length (g : Graph) (a b : string) : option (option Z) :=
  if String.eqb a b then None
  else
    let n1 := neighbours g a in
    if mem b n1 then Some (Some 1%Z)
    else
      let n2 := flat_map (neighbours g) n1 in
      if mem b n2 then Some (Some 2%Z)
      else
        let n3 := flat_map (neighbours g) n2 in
        if mem b n3 then Some (Some 3%Z) else Some None.

(** The lengths of the shortest paths from [a] to the nodes of [bads]
    that have one; [None] when one of them raises. *)
Fixpoint shortest_paths (g : Graph) (a : string) (bads : list string)
    : option (list Z) :=
  match bads with
  | [] => Some []
  | b :: rest =>
      match shortest_path_length g a b, shortest_paths g a rest with
      | Some p, Some ps => Some (option_list p ++ ps)
      | _, _ => None
      end
  end.

(** The addresses that bear a heavy alert: [collect(DISTINCT bad)]. *)
Definition heavy_alert_addresses (g : Graph) : list string :=
  distinct (map al_address
    (filter (fun al =>
       mem (al_type al) ["SANCTION"; "MIXER_PATTERN"; "PEEL_CHAIN"]
       && Qgeb (al_score al) 50) (alerts g))).

(** The records of the taint query, or [None] when it raises. *)
Definition taint_query (g : Graph) (address : string) : option (list Row) :=
  let bads := heavy_alert_addresses g in
  match addresses g !! address with
  | None => Some []
  | Some _ =>
      match shortest_paths g address bads with
      | None => None
      | Some [] => Some [mkRow address 0 (DTaint 3)]
      | Some ps =>
          Some (map (fun len => mkRow address (inject_Z (50 - 10 * (len - 1)))
                                  (DTaint 3)) ps)
      end
  end.

(** [run_taint_analysis(tx, address)]; [None] when its query raises. *)
Definition run_taint_analysis (g : Graph) (time : Clock) (k : nat)
    (address : string) : option (Graph * nat * list (string * Q)) :=
  match taint_query g address with
  | None => None
  | Some records =>
      let rows := map (fun r => mkRow (row_address r) (Qmax 0 (row_score r))
                                   (row_details r)) records in
      Some (emit "TAINT" time k (positive rows) g)
  end.

(** *** Circularity *)

(** Number of directed paths of exactly [k] relationships from [cur] to
    [target] that use no relationship twice (Cypher matches a
    variable-length pattern without repeating a relationship). *)
Fixpoint count_paths (es : list (nat * Transfer)) (k : nat) (used : list nat)
    (cur target : string) : Z :=
  match k with
  | O => if String.eqb cur target then 1%Z else 0%Z
  | S k' =>
      fold_left Z.add
        (map (fun '(i, e) =>
           if String.eqb (tr_src e) cur && negb (existsb (Nat.eqb i) used)
           then count_paths es k' (i :: used) (tr_dst e) target
           else 0%Z) es) 0%Z
  end.

(** [count(p)] for [p = (a)-[:TRANSFER*2..4]->(a)]. *)
Definition count_cycles (g : Graph) (address : string) : Z :=
  let es := indexed (transfers g) in
  (count_paths es 2 [] address address
   + count_paths es 3 [] address address
   + count_paths es 4 [] address address)%Z.

(** The count the specification words: the directed cycles of [k]
    transfers through [target], which visit no address twice. [seen]
    holds the addresses the path has reached. *)
Fixpoint spec_cycles_of_length (ts : list Transfer) (k : nat)
    (seen : list string) (cur target : string) : Z :=
  match k with
  | O => if String.eqb cur target then 1%Z else 0%Z
  | S k' =>
      fold_left Z.add
        (map (fun e =>
           if String.eqb (tr_src e) cur && negb (mem (tr_dst e) seen)
           then spec_cycles_of_length ts k' (tr_dst e :: seen) (tr_dst e) target
           else 0%Z) ts) 0%Z
  end.

(** The directed cycles of 2 to 4 transfers that return to [address]. *)
Definition spec_directed_cycles (g : Graph) (address : string) : Z :=
  (spec_cycles_of_length (transfers g) 2 [] address address
   + spec_cycles_of_length (transfers g) 3 [] address address
   + spec_cycles_of_length (transfers g) 4 [] address address)%Z.

Definition circular_score (cycles : Z) : Q :=
  if (3 <=? cycles)%Z then 50
  else if (cycles =? 2)%Z then 35
  else if (cycles =? 1)%Z then 20
  else 0.

Definition circular_query (g : Graph) (address : string) : list Row :=
  match addresses g !! address with
  | None => []
  | Some _ =>
      let cycles := count_cycles g address in
      if (cycles =? 0)%Z then []   (* no path matched: no group, no record *)
      else [mkRow address (circular_score cycles) (DCircularity cycles)]
  end.

Definition find_circular_txns (g : Graph) (time : Clock) (k : nat)
    (address : string) : Graph * nat * list (string * Q) :=
  emit "CIRCULARITY" time k (positive (circular_query g address)) g.

(** *** Velocity burst *)

Definition velocity_score (txs_per_hour : Q) : Q :=
  if Qgeb txs_per_hour 50 then 70
  else if Qgeb txs_per_hour 30 then 55
  else if Qgeb txs_per_hour 10 then 40
  else 30.

Definition velocity_query (g : Graph) (address : string) (since min_count : Z)
    : list Row :=
  let ts := filter (fun t => String.eqb (tx_from t) address
                             && (since <=? tx_time t)%Z) (transactions g) in
  match ts with
  | [] => []
  | _ :: _ =>
      let tx_count := zlen ts in
      let times := map tx_time ts in
      let time_span_seconds := (Zmaximum times - Zminimum times)%Z in
      if (min_count <=? tx_count)%Z then
        let txs_per_hour :=
          if (0 <? time_span_seconds)%Z
          then inject_Z tx_count / (inject_Z time_span_seconds / 3600)
          else inject_Z tx_count in
        if Qgeb txs_per_hour 10
        then [mkRow address (velocity_score txs_per_hour)
                (DVelocity tx_count txs_per_hour 24)]
        else []
      else []
  end.

Definition detect_velocity_alert (g : Graph) (time : Clock) (k : nat)
    (address : string) : Graph * nat * list (string * Q) :=
  let rows := velocity_query g address (py_int (time k) - 24 * 3600)%Z 10%Z in
  emit "VELOCITY_ALERT" time (S k) rows g.

(** *** Dormant reactivation *)

Definition dormant_score (recent_value : Q) : Q :=
  if Qgeb recent_value 10 then 65
  else if Qgeb recent_value 5 then 50
  else 35.

Definition dormant_query (g : Graph) (address : string)
    (dormant_threshold recent_threshold : Z) (min_value : Q) : list Row :=
  match addresses g !! address with
  | Some a =>
      match first_seen a, last_seen a with
      | Some fs, Some ls =>
          let lifetime_seconds := (ls - fs)%Z in
          if (dormant_threshold <? lifetime_seconds)%Z then
            let ts := filter (fun t => String.eqb (tx_from t) address
                                       && (recent_threshold <=? tx_time t)%Z
                                       && Qgeb (tx_value t) min_value)
                        (transactions g) in
            match ts with
            | [] => []
            | _ :: _ =>
                let recent_tx_count := zlen ts in
                let recent_value := Qsum (map tx_value ts) in
                if (1 <=? recent_tx_count)%Z
                then [mkRow address (dormant_score recent_value)
                        (DDormant (Z.quot lifetime_seconds 86400)
                           recent_tx_count recent_value)]
                else []
            end
          else []
      | _, _ => []
      end
  | None => []
  end.

Definition detect_dormant_reactivation (g : Graph) (time : Clock) (k : nat)
    (address : string) : Graph * nat * list (string * Q) :=
  let rows := dormant_query g address (180 * 24 * 3600)%Z
                (py_int (time k) - 30 * 24 * 3600)%Z 1 in
  emit "DORMANT_REACTIVATION" time (S k) rows g.

(** *** Round amounts *)

Definition round_values : list Q :=
  [1#10; 1#2; 1; 2; 5; 10; 20; 50; 100].

Definition round_score (round_tx_count : Z) : Q :=
  if (20 <=? round_tx_count)%Z then 50
  else if (10 <=? round_tx_count)%Z then 35
  else 25.

Definition round_query (g : Graph) (address : string) (since min_count : Z)
    : list Row :=
  let ts := filter (fun t => String.eqb (tx_from t) address
                             && existsb (Qeqb (tx_value t)) round_values
                             && (since <=? tx_time t)%Z) (transactions g) in
  match ts with
  | [] => []
  | _ :: _ =>
      let round_tx_count := zlen ts in
      let amounts := map tx_value ts in
      if (min_count <=? round_tx_count)%Z
      then [mkRow address (round_score round_tx_count)
              (DRoundAmounts round_tx_count (take 5 amounts))]
      else []
  end.

Definition detect_round_amounts (g : Graph) (time : Clock) (k : nat)
    (address : string) : Graph * nat * list (string * Q) :=
  let rows := round_query g address (py_int (time k) - 90 * 24 * 3600)%Z 5%Z in
  emit "ROUND_AMOUNTS" time (S k) rows g.

(** *** Timing regularity *)

Fixpoint insert_sorted (x : Z) (l : list Z) : list Z :=
  match l with
  | [] => [x]
  | y :: r => if (x <=? y)%Z then x :: l else y :: insert_sorted x r
  end.

(** [ORDER BY timestamp]. *)
Definition order_by (l : list Z) : list Z := fold_right insert_sorted [] l.

(** [[timestamps[i+1] - timestamps[i] for i in range(0, n-2)]]. *)
Fixpoint intervals_of (l : list Z) : list Z :=
  match l with
  | x :: ((y :: _) as r) => (y - x)%Z :: intervals_of r
  | _ => []
  end.

Definition timing_score (avg_interval : Q) : Q :=
  if Qle_bool avg_interval 3600 then 55
  else if Qle_bool avg_interval 7200 then 45
  else 35.

Definition timing_query (g : Graph) (address : string) (since min_count : Z)
    (max_variance : Q) : list Row :=
  let ts := filter (fun t => String.eqb (tx_from t) address
                             && (since <=? tx_time t)%Z) (transactions g) in
  match ts with
  | [] => []
  | _ :: _ =>
      let timestamps := order_by (map tx_time ts) in
      if (min_count <=? zlen timestamps)%Z then
        let intervals := map inject_Z (intervals_of timestamps) in
        let n := inject_Z (zlen intervals) in
        let avg_interval := Qsum intervals / n in
        let variance :=
          Qsum (map (fun x => (x - Qsum intervals / n) ^ 2) intervals) / n in
        if Qltb variance max_variance && Qltb avg_interval (24 * 3600)
        then [mkRow address (timing_score avg_interval)
                (DTiming (avg_interval / 3600) (zlen timestamps))]
        else []
      else []
  end.

Definition detect_timing_patterns (g : Graph) (time : Clock) (k : nat)
    (address : string) : Graph * nat * list (string * Q) :=
  let rows := timing_query g address (py_int (time k) - 30 * 24 * 3600)%Z 10%Z
                (3600 * 3600) in
  emit "TIMING_PATTERN" time (S k) rows g.

(** *** Wash trading *)

Definition wash_score (total_roundtrips : Z) : Q :=
  if (20 <=? total_roundtrips)%Z then 70
  else if (10 <=? total_roundtrips)%Z then 55
  else 40.

Definition wash_query (g : Graph) (address : string) (since : Z) : list Row :=
  let pairs :=
    flat_map (fun r1 =>
      if String.eqb (tr_src r1) address then
        map (fun r2 => (r1, r2))
          (filter (fun r2 =>
             String.eqb (tr_src r2) (tr_dst r1)
             && String.eqb (tr_dst r2) address
             && (since <=? tr_last_ts r1)%Z && (since <=? tr_last_ts r2)%Z
             && (3 <=? tr_count r1)%Z && (3 <=? tr_count r2)%Z
             && Qltb (Qabs (tr_value_sum r1 - tr_value_sum r2))
                     (tr_value_sum r1 * (1#10)))
           (transfers g))
      else []) (transfers g) in
  match pairs with
  | [] => []
  | _ :: _ =>
      let counterparties := zlen (distinct (map (fun p => tr_dst (fst p)) pairs)) in
      let total_roundtrips :=
        fold_left Z.add (map (fun p => (tr_count (fst p) + tr_count (snd p))%Z) pairs) 0%Z in
      [mkRow address (wash_score total_roundtrips)
         (DWashTrading counterparties total_roundtrips)]
  end.

Definition detect_wash_trading (g : Graph) (time : Clock) (k : nat)
    (address : string) : Graph * nat * list (string * Q) :=
  let rows := wash_query g address (py_int (time k) - 90 * 24 * 3600)%Z in
  emit "WASH_TRADING" time (S k) rows g.

(** *** The pipeline *)

(** The dict [out], in insertion order. *)
Definition Analytics : Type := list (string * list (string * Q)).

(** [run_all_analytics(tx, address)] from reading number [k] of the clock
    on: the number of the next reading after the run and, when no query
    raised, the store and the dict [out]. The exception of a query is not
    caught here: it ends the run. *)
Definition run_all_analytics (g : Graph) (time : Clock) (k : nat)
    (address : string) : nat * option (Graph * Analytics) :=
  let '(g, k, structuring) := detect_structuring g time k address in
  let '(g, k, peel_chains) := detect_peel_chains g time k address in
  let '(g, k, mixer_activity) := find_mixer_activity g time k address in
  match run_taint_analysis g time k address with
  | None => (k, None)
  | Some (g, k, taint) =>
      let '(g, k, circularity) := find_circular_txns g time k address in
      let '(g, k, velocity_alert) := detect_velocity_alert g time k address in
      let '(g, k, dormant_reactivation) :=
        detect_dormant_reactivation g time k address in
      let '(g, k, round_amounts) := detect_round_amounts g time k address in
      let '(g, k, timing_patterns) := detect_timing_patterns g time k address in
      let '(g, k, wash_trading) := detect_wash_trading g time k address in
      (k, Some (g, [("structuring", structuring);
                    ("peel_chains", peel_chains);
                    ("mixer_activity", mixer_activity);
                    ("taint", taint);
                    ("circularity", circularity);
                    ("velocity_alert", velocity_alert);
                    ("dormant_reactivation", dormant_reactivation);
                    ("round_amounts", round_amounts);
                    ("timing_patterns", timing_patterns);
                    ("wash_trading", wash_trading)]))
  end.

(** *** Relating the store before and after a run *)

(** Every property of the node but the alert mark is the same. *)
Definition same_features (n n' : AddressNode) : Prop :=
  first_seen n' = first_seen n /\ last_seen n' = last_seen n
  /\ total_in n' = total_in n /\ total_out n' = total_out n
  /\ pagerank n' = pagerank n /\ degree n' = degree n
  /\ inDegree n' = inDegree n /\ outDegree n' = outDegree n
  /\ triangles n' = triangles n /\ risk_score n' = risk_score n.

(** The millisecond of reading number [i]: the [now] of an alert created
    at that reading. *)
Definition millisecond (time : Clock) (i : nat) : Z := py_int (time i * 1000).

(** No alert of [g] bears the millisecond of a reading from number [k]
    on. *)
Definition fresh_from (time : Clock) (k : nat) (g : Graph) : Prop :=
  forall al i, In al (alerts g) -> (k <= i)%nat -> al_now al <> millisecond time i.

(** The alert was created at one of the readings [k], ..., [k' - 1]. *)
Definition created_between (time : Clock) (k k' : nat) (al : Alert) : Prop :=
  exists i, (k <= i < k')%nat /\ al_now al = millisecond time i.

(** [g'] is [g] with alerts created at the readings [k], ..., [k' - 1]
    appended and nothing else changed but alert marks. *)
Definition appended_between (time : Clock) (k k' : nat) (g g' : Graph) : Prop :=
  transactions g' = transactions g
  /\ transfers g' = transfers g
  /\ (exists new, alerts g' = alerts g ++ new
                  /\ Forall (created_between time k k') new)
  /\ (forall x n, addresses g !! x = Some n ->
        exists n', addresses g' !! x = Some n' /\ same_features n n').

(** What holds of the store [g], at reading number [i], and of the
    result [(g2, i2, detections)] of a detector run from there. *)
Definition detector_effect (time : Clock) (g : Graph) (i : nat)
    (r : Graph * nat * list (string * Q)) : Prop :=
  let '(g2, i2, detections) := r in
  (i <= i2)%nat
  /\ (forall k g0,
        fresh_from time k g0 -> (k <= i)%nat ->
        appended_between time k i g0 g -> appended_between time k i2 g0 g2)
  /\ (forall x s, In (x, s) detections ->
        exists al, In al (alerts g2) /\ al_address al = x
                   /\ created_between time i i2 al)
  /\ (forall x now,
        (exists al, In al (alerts g) /\ al_address al = x /\ al_now al = now) ->
        exists al, In al (alerts g2) /\ al_address al = x /\ al_now al = now).

End AmlAnalytics.
Export AmlAnalytics.

(** ** [str.lower] on ASCII strings *)

Definition lower_ascii (c : ascii) : ascii :=
  let n := nat_of_ascii c in
  if Nat.leb 65 n && Nat.leb n 90 then ascii_of_nat (n + 32) else c.

Fixpoint lower (s : string) : string :=
  match s with
  | EmptyString => EmptyString
  | String c r => String (lower_ascii c) (lower r)
  end.

(** ** crawler.py: autonomous address discovery *)

Module Crawler.

Record Config := mkConfig {
  seed_addresses : list string;
  max_depth : Z;
  min_transaction_value_eth : Q;
  min_risk_score_to_expand : Q;
  max_addresses : Z;
  transaction_limit_per_address : Z
}.

(** The dict [_analyze_address] returns for a suspicious address
    (its wall-clock ["timestamp"] is left out). *)
Record Suspicious := mkSuspicious {
  s_address : string;
  s_depth : Z;
  s_risk_score : Q;
  s_alerts : Analytics
}.

Record Stats := mkStats {
  addresses_analyzed : Z;
  suspicious_count : Z;        (* stats["suspicious_found"] *)
  total_alerts : Z
}.

(** The mutable fields of a [BlockchainCrawler]. [analysis_log] is not a
    field of the class: it records, in order, the arguments of every call
    of [_analyze_address]. *)
Record State := mkState {
  visited : gset string;
  to_analyze : list (string * Z);
  suspicious_found : list Suspicious;
  stats : Stats;
  analysis_log : list (string * Z)
}.

Definition quick_contribution (alert_type : string) (n : Z) : Q :=
  if String.eqb alert_type "structuring" then inject_Z (Z.min 30 (n * 15))
  else if String.eqb alert_type "peel_chains" then inject_Z (Z.min 40 (n * 20))
  else if String.eqb alert_type "mixer_activity" then inject_Z (Z.min 50 (n * 25))
  else if String.eqb alert_type "taint" then inject_Z (Z.min 40 (n * 20))
  else if String.eqb alert_type "circularity" then inject_Z (Z.min 35 (n * 15))
  else 0.

Definition _calculate_quick_risk_score (address : string) (analytics : Analytics) : Q :=
  let score :=
    fold_left (fun score '(alert_type, alerts) =>
      match alerts with
      | [] => score
      | _ :: _ => score + quick_contribution alert_type (zlen alerts)
      end) analytics 0 in
  Qmin 100 score.

(** The keys of [analytics] that have a branch in
    [_calculate_quick_risk_score], and the other keys [run_all_analytics]
    produces. *)
Definition scored_types : list string :=
  ["structuring"; "peel_chains"; "mixer_activity"; "taint"; "circularity"].

Definition unscored_types : list string :=
  ["velocity_alert"; "dormant_reactivation"; "round_amounts";
   "timing_patterns"; "wash_trading"].

(** Every non-empty alert list of [analytics] is of an unscored type. *)
Definition only_unscored (analytics : Analytics) : Prop :=
  forall alert_type alerts,
    In (alert_type, alerts) analytics -> alerts <> [] ->
    In alert_type unscored_types.

(** Two results with the same keys in the same order and, under every
    scored key, the same number of alerts. *)
Definition same_scored_counts (an1 an2 : Analytics) : Prop :=
  Forall2 (fun kv1 kv2 =>
             fst kv1 = fst kv2
             /\ (In (fst kv1) scored_types ->
                 length (snd kv1) = length (snd kv2))) an1 an2.

Definition count_alerts (analytics : Analytics) : Z :=
  fold_left Z.add (map (fun kv => zlen (snd kv)) analytics) 0%Z.

Section WithCollaborators.

(** The state of everything outside the crawler object: the graph store,
    the chain-data provider, the clock. *)
Context {W : Type}.

(** [core.ingest_address(address, limit=...)]: [None] when it raises,
    otherwise [result.get("ingested", 0)]. *)
Variable ingest : W -> string -> Z -> W * option Z.

(** [session.execute_write(lambda tx: run_all_analytics(tx, address))]:
    [None] when it raises. *)
Variable analytics_tx : W -> string -> W * option Analytics.

(** The records of the Cypher query of [_get_connected_addresses]
    ([rec["address"]], [None] for a null); [None] when the session raises. *)
Variable connected_query : W -> string -> Q -> W * option (list (option string)).

(** [time.sleep(seconds)]. *)
Variable sleep : W -> Q -> W.

Definition _get_connected_addresses (cfg : Config) (w : W) (address : string)
    : W * option (list string) :=
  let '(w, records) := connected_query w address (min_transaction_value_eth cfg) in
  (w, option_map (fun records =>
        flat_map (fun r => match r with
                           | Some a => if String.eqb a "" then [] else [lower a]
                           | None => []
                           end) records) records).

Definition _analyze_address (cfg : Config) (w : W) (st : Stats)
    (address : string) (depth : Z) : W * Stats * option Suspicious :=
  match ingest w address (transaction_limit_per_address cfg) with
  | (w, None) => (w, st, None)
  | (w, Some ingested) =>
      if (ingested =? 0)%Z then (w, st, None)
      else
        let '(w, r) := analytics_tx w address in
        let '(analytics, st) :=
          match r with
          | Some analytics =>
              (analytics,
               mkStats (addresses_analyzed st) (suspicious_count st)
                 (total_alerts st + count_alerts analytics))
          | None => ([], st)
          end in
        let risk_score := _calculate_quick_risk_score address analytics in
        if Qgeb risk_score 40
        then (w, st, Some (mkSuspicious address depth risk_score analytics))
        else (w, st, None)
  end.

Definition bump_analyzed (st : Stats) : Stats :=
  mkStats (addresses_analyzed st + 1) (suspicious_count st) (total_alerts st).

Definition bump_suspicious (st : Stats) : Stats :=
  mkStats (addresses_analyzed st) (suspicious_count st + 1) (total_alerts st).

(** The children appended by
    [for conn in connected: if conn not in self.visited: ...]. *)
Definition children_of (vis : gset string) (connected : list string) (depth : Z)
    : list (string * Z) :=
  map (fun conn => (conn, (depth + 1)%Z))
    (filter (fun conn => negb (bool_decide (conn ∈ vis))) connected).

(** One iteration of the [while] loop of [crawl]; [None] when the loop
    condition is false. *)
Definition crawl_step (cfg : Config) (w : W) (s : State) : option (W * State) :=
  match to_analyze s with
  | [] => None
  | (address, depth) :: rest =>
      if negb (Z.of_nat (size (visited s)) <? max_addresses cfg)%Z then None
      else if bool_decide (address ∈ visited s) || (max_depth cfg <? depth)%Z
      then Some (w, mkState (visited s) rest (suspicious_found s) (stats s)
                      (analysis_log s))
      else
        let vis := {[address]} ∪ visited s in
        let log := analysis_log s ++ [(address, depth)] in
        let '(w, st, result) := _analyze_address cfg w (stats s) address depth in
        match result with
        | Some res =>
            let found := suspicious_found s ++ [res] in
            let st := bump_suspicious st in
            if Qgeb (s_risk_score res) (min_risk_score_to_expand cfg)
               && (depth <? max_depth cfg)%Z
            then
              match _get_connected_addresses cfg w address with
              | (w, Some connected) =>
                  Some (sleep w (1#5),
                        mkState vis (rest ++ children_of vis connected depth)
                          found (bump_analyzed st) log)
              | (w, None) =>   (* except Exception: continue *)
                  Some (w, mkState vis rest found st log)
              end
            else Some (sleep w (1#5), mkState vis rest found (bump_analyzed st) log)
        | None => Some (sleep w (1#5), mkState vis rest (suspicious_found s)
                                         (bump_analyzed st) log)
        end
  end.

(** The [while] loop, bounded by [fuel] iterations. *)
Fixpoint crawl_loop (fuel : nat) (cfg : Config) (w : W) (s : State)
    : option (W * State) :=
  match crawl_step cfg w s with
  | None => Some (w, s)
  | Some (w', s') =>
      match fuel with
      | O => None
      | S fuel' => crawl_loop fuel' cfg w' s'
      end
  end.

(** The state after [__init__] and the seeding loop of [crawl]. *)
Definition initial_state (cfg : Config) : State :=
  mkState ∅ (map (fun seed => (lower seed, 0%Z)) (seed_addresses cfg)) []
    (mkStats 0 0 0) [].

(** [crawl()]: the final world and crawler state; the returned dict is
    [{"status": "completed", "stats": stats, "suspicious_addresses":
    suspicious_found}]. *)
Definition crawl (fuel : nat) (cfg : Config) (w : W) : option (W * State) :=
  crawl_loop fuel cfg w (initial_state cfg).

(** States the loop passes through. *)
Inductive reaches (cfg : Config) : W * State -> W * State -> Prop :=
| reaches_refl x : reaches cfg x x
| reaches_step w s w' s' y :
    crawl_step cfg w s = Some (w', s') ->
    reaches cfg (w', s') y ->
    reaches cfg (w, s) y.

End WithCollaborators.

(** [run_crawler(seed_addresses, max_depth, min_value_eth, min_risk_score,
    max_addresses)]. *)
Definition run_crawler_config (seed_addresses : list string) (max_depth : Z)
    (min_value_eth min_risk_score : Q) (max_addresses : Z) : Config :=
  mkConfig seed_addresses max_depth min_value_eth min_risk_score max_addresses 1000.

End Crawler.

(** ** expansion.py: reactive auto-expansion *)

Module Expansion.

Import Crawler.

Record Config := mkConfig {
  trigger_risk_score : Q;
  expansion_depth : Z;
  min_connection_value_eth : Q;
  max_addresses_per_expansion : Z;
  analyze_connected : bool
}.

(** The dict [_full_analysis] returns. *)
Record Analysis := mkAnalysis {
  a_address : string;
  a_risk_score : Q;
  a_alert_count : Z;
  a_alerts : Analytics;
  a_transactions_ingested : Z
}.

(** One [expansion_result]; [e_sub_expansions] is [None] when the key
    ["sub_expansions"] was never set. *)
#[warnings="-register-all"]
Inductive ExpansionResult := mkExpansionResult {
  e_address : string;
  e_parent_address : string;
  e_depth : Z;
  e_analysis : Analysis;
  e_sub_expansions : option (list ExpansionResult)
}.

Record Stats := mkStats {
  initial_addresses : Z;
  expansions_triggered : Z;
  total_addresses_analyzed : Z;
  high_risk_found : Z
}.

Record State := mkState {
  expanded_addresses : gset string;
  expansion_map : gmap string (list string);
  stats : Stats
}.

(** The dict [analyze_with_expansion] returns (its ["timestamp"] is left
    out). *)
Record Results := mkResults {
  r_initial_address : string;
  r_initial_analysis : option Analysis;
  r_expansions : list ExpansionResult;
  r_stats : Stats
}.

Definition weights : list (string * Z) :=
  [("structuring", 15); ("peel_chains", 25); ("mixer_activity", 30);
   ("taint", 25); ("circularity", 20)]%Z.

Definition weight_of (alert_type : string) : option Z :=
  option_map snd (find (fun kv => String.eqb (fst kv) alert_type) weights).

Definition _calculate_risk_score (analytics : Analytics) : Q :=
  let score :=
    fold_left (fun score '(alert_type, alerts) =>
      match alerts, weight_of alert_type with
      | _ :: _, Some w => score + inject_Z (Z.min (w * 2) (zlen alerts * w))
      | _, _ => score
      end) analytics 0 in
  Qmin 100 score.

Section WithCollaborators.

Context {W : Type}.

(** [core.ingest_address(address, limit=...)]: [None] when it raises. *)
Variable ingest : W -> string -> Z -> W * option Z.

(** [session.execute_write(lambda tx: run_all_analytics(tx, address))]:
    [None] when it raises. *)
Variable analytics_tx : W -> string -> W * option Analytics.

(** The records of the Cypher query of [_get_connected_addresses], given
    [$address], [$min_value] and [$limit]; [None] when the session raises. *)
Variable connected_query :
  W -> string -> Q -> Z -> W * option (list (option string)).

Definition _get_connected_addresses (cfg : Config) (w : W) (address : string)
    : W * option (list string) :=
  let '(w, records) :=
    connected_query w address (min_connection_value_eth cfg)
      (max_addresses_per_expansion cfg) in
  (w, option_map (fun records =>
        flat_map (fun r => match r with
                           | Some a => if String.eqb a "" then [] else [lower a]
                           | None => []
                           end) records) records).

(** [_full_analysis(address)]: every exception is caught and gives [None]. *)
Definition _full_analysis (w : W) (address : string) : W * option Analysis :=
  match ingest w address 500%Z with
  | (w, None) => (w, None)
  | (w, Some ingested) =>
      if (ingested =? 0)%Z then (w, None)
      else
        match analytics_tx w address with
        | (w, None) => (w, None)
        | (w, Some analytics) =>
            let alert_count := count_alerts analytics in
            let risk_score := _calculate_risk_score analytics in
            (w, Some (mkAnalysis address risk_score alert_count analytics ingested))
        end
  end.

Definition note_expansion (address : string) (connected : list string)
    (s : State) : State :=
  mkState (expanded_addresses s) (<[address := connected]> (expansion_map s))
    (mkStats (initial_addresses (stats s)) (expansions_triggered (stats s) + 1)
       (total_addresses_analyzed (stats s)) (high_risk_found (stats s))).

Definition note_analyzed (conn_addr : string) (s : State) : State :=
  mkState ({[conn_addr]} ∪ expanded_addresses s) (expansion_map s)
    (mkStats (initial_addresses (stats s)) (expansions_triggered (stats s))
       (total_addresses_analyzed (stats s) + 1) (high_risk_found (stats s))).

Definition note_high_risk (s : State) : State :=
  mkState (expanded_addresses s) (expansion_map s)
    (mkStats (initial_addresses (stats s)) (expansions_triggered (stats s))
       (total_addresses_analyzed (stats s)) (high_risk_found (stats s) + 1)).

(** The loop [for conn_addr in connected:] of [_expand_from_address];
    [recurse] is the recursive call [self._expand_from_address(conn_addr,
    depth + 1)]. *)
Fixpoint each_connected
    (recurse : W -> State -> string
               -> option (W * State * option (list ExpansionResult)))
    (cfg : Config) (address : string) (depth : Z)
    (connected : list string) (w : W) (s : State)
    (expansion_results : list ExpansionResult)
    : option (W * State * option (list ExpansionResult)) :=
  match connected with
  | [] => Some (w, s, Some expansion_results)
  | conn_addr :: rest =>
      if bool_decide (conn_addr ∈ expanded_addresses s)
      then each_connected recurse cfg address depth rest w s expansion_results
      else
        let '(w, analysis) := _full_analysis w conn_addr in
        let s := note_analyzed conn_addr s in
        match analysis with
        | None =>
            each_connected recurse cfg address depth rest w s expansion_results
        | Some analysis =>
            if Qgeb (a_risk_score analysis) (trigger_risk_score cfg)
            then
              match recurse w (note_high_risk s) conn_addr with
              | None => None
              | Some (w, s, None) => Some (w, s, None)
              | Some (w, s, Some sub_expansions) =>
                  each_connected recurse cfg address depth rest w s
                    (expansion_results ++
                     [mkExpansionResult conn_addr address (depth + 1)%Z
                        analysis (Some sub_expansions)])
              end
            else
              each_connected recurse cfg address depth rest w s
                (expansion_results ++
                 [mkExpansionResult conn_addr address (depth + 1)%Z
                    analysis None])
        end
  end.

(** [_expand_from_address(address, depth)]. The outer [None] is an
    exhausted [fuel]; the inner [None] is an exception of
    [_get_connected_addresses], which nothing in the recursion catches. *)
Fixpoint _expand_from_address (fuel : nat) (cfg : Config) (w : W) (s : State)
    (address : string) (depth : Z)
    : option (W * State * option (list ExpansionResult)) :=
  if (expansion_depth cfg <=? depth)%Z then Some (w, s, Some [])
  else
    match fuel with
    | O => None
    | S fuel' =>
        match _get_connected_addresses cfg w address with
        | (w, None) => Some (w, s, None)
        | (w, Some connected) =>
            each_connected
              (fun w s conn_addr =>
                 _expand_from_address fuel' cfg w s conn_addr (depth + 1)%Z)
              cfg address depth connected w
              (note_expansion address connected s) []
        end
    end.

Definition initial_state : State := mkState ∅ ∅ (mkStats 0 0 0 0).

(** [analyze_with_expansion(initial_address)]; the inner [None] is an
    exception that reaches the caller. *)
Definition analyze_with_expansion (fuel : nat) (cfg : Config) (w : W)
    (initial_address : string) : option (W * State * option Results) :=
  let s := initial_state in
  let s := mkState (expanded_addresses s) (expansion_map s)
             (mkStats 1 (expansions_triggered (stats s))
                (total_addresses_analyzed (stats s)) (high_risk_found (stats s))) in
  let '(w, initial_analysis) := _full_analysis w initial_address in
  let s := mkState ({[lower initial_address]} ∪ expanded_addresses s)
             (expansion_map s) (stats s) in
  match initial_analysis with
  | None => Some (w, s, Some (mkResults initial_address None [] (stats s)))
  | Some analysis =>
      if Qgeb (a_risk_score analysis) (trigger_risk_score cfg)
      then
        match _expand_from_address fuel cfg w s initial_address 0%Z with
        | None => None
        | Some (w, s, None) => Some (w, s, None)
        | Some (w, s, Some expansion_results) =>
            Some (w, s, Some (mkResults initial_address (Some analysis)
                                expansion_results (stats s)))
        end
      else Some (w, s, Some (mkResults initial_address (Some analysis) [] (stats s)))
  end.

End WithCollaborators.

(** [analyze_with_auto_expansion(address, trigger_score, expansion_depth,
    min_value_eth)] builds this configuration. *)
Definition auto_expansion_config (trigger_score : Q) (expansion_depth : Z)
    (min_value_eth : Q) : Config :=
  mkConfig trigger_score expansion_depth min_value_eth 50 true.

(** What holds of one [expansion_result] and, recursively, of its
    ["sub_expansions"], for a parent at depth [parent_depth]. *)
Fixpoint expansion_ok (cfg : Config) (parent : string) (parent_depth : Z)
    (r : ExpansionResult) : Prop :=
  e_parent_address r = parent
  /\ e_depth r = (parent_depth + 1)%Z
  /\ (e_depth r <= expansion_depth cfg)%Z
  /\ a_address (e_analysis r) = e_address r
  /\ a_risk_score (e_analysis r) = _calculate_risk_score (a_alerts (e_analysis r))
  /\ match e_sub_expansions r with
     | None => a_risk_score (e_analysis r) < trigger_risk_score cfg
     | Some sub_expansions =>
         trigger_risk_score cfg <= a_risk_score (e_analysis r)
         /\ (fix all (l : list ExpansionResult) : Prop :=
               match l with
               | [] => True
               | x :: l' => expansion_ok cfg (e_address r) (e_depth r) x /\ all l'
               end) sub_expansions
     end.

End Expansion.

(** ** automation.py: the job registry *)

Module Automation.

Inductive JobStatus := started | completed | failed | cancelled.

(** The ["params"] dict of a job, one shape per [start_*_job]. *)
Inductive Params :=
| CrawlerParams (seed_addresses : list string) (max_depth : Z)
    (min_value_eth min_risk_score : Q) (max_addresses : Z)
| MonitorParams (min_value_usd : Q) (check_interval_minutes : Z)
    (duration_hours : option Z)
| ExpansionParams (address : string) (trigger_score : Q) (expansion_depth : Z)
    (min_value_eth : Q).

Section WithCollaborators.

Context {W : Type}.

(** The collaborators of the crawler and of the auto-expansion. *)
Variable ingest : W -> string -> Z -> W * option Z.
Variable analytics_tx : W -> string -> W * option Analytics.
Variable crawler_connected : W -> string -> Q -> W * option (list (option string)).
Variable expansion_connected :
  W -> string -> Q -> Z -> W * option (list (option string)).
Variable sleep : W -> Q -> W.

(** [monitor.start_monitor(min_value_usd, check_interval_minutes,
    duration_hours)]: its polling loop runs against wall-clock time and is
    kept abstract; [inr e] is an exception with text [e]. *)
Context {MonitorStats : Type}.
Variable start_monitor : W -> Q -> Z -> option Z -> W * (MonitorStats + string).

(** [datetime.utcnow().isoformat()] and
    [datetime.utcnow().strftime("%Y%m%d_%H%M%S")]. *)
Variable utcnow_isoformat : W -> string.
Variable utcnow_stamp : W -> string.

(** [str(e)] for the exception a failed store session raises. *)
Variable session_error : string.

(** What a job's target returns. *)
Inductive RunOutput :=
| CrawlerOutput (stats : Crawler.Stats) (suspicious_addresses : list Crawler.Suspicious)
| MonitorOutput (stats : MonitorStats)
| ExpansionOutput (results : Expansion.Results).

(** The value under ["result"]. *)
Inductive JobResult :=
| RunResult (output : RunOutput)
| Message (message : string).

(** A [job_info] dict; the keys ["completed_at"] and ["error"] are absent
    until they are written. *)
Record Job := mkJob {
  job_id : string;
  job_type : string;
  status : JobStatus;
  params : Params;
  started_at : string;
  result : option JobResult;
  completed_at : option string;
  error : option string
}.

(** The fields of [AutomationController]; [threads] keeps, for every
    background thread that was started, the arguments of its target. *)
Record Controller := mkController {
  active_jobs : gmap string Job;
  job_counter : Z;
  threads : gmap string Params
}.

Definition new_controller : Controller := mkController ∅ 0 ∅.

Definition decimal (n : Z) : string := pretty.pretty n.

Definition _generate_job_id (c : Controller) (w : W) (job_type : string)
    : Controller * string :=
  let counter := (job_counter c + 1)%Z in
  let timestamp := utcnow_stamp w in
  (mkController (active_jobs c) counter (threads c),
   job_type ++ "_" ++ timestamp ++ "_" ++ decimal counter)%string.

(** How a target ends: it returns or it raises. *)
Inductive Outcome :=
| Returned (output : RunOutput)
| Threw (e : string).

(** The call of [run_crawler], [start_monitor] or
    [analyze_with_auto_expansion] on the thread's arguments; [None] is an
    exhausted [fuel]. *)
Definition run_target (fuel : nat) (w : W) (p : Params) : option (W * Outcome) :=
  match p with
  | CrawlerParams seeds max_depth min_value_eth min_risk_score max_addresses =>
      match Crawler.crawl ingest analytics_tx crawler_connected sleep fuel
              (Crawler.run_crawler_config seeds max_depth min_value_eth
                 min_risk_score max_addresses) w with
      | None => None
      | Some (w, s) =>
          Some (w, Returned (CrawlerOutput (Crawler.stats s)
                               (Crawler.suspicious_found s)))
      end
  | MonitorParams min_value_usd check_interval_minutes duration_hours =>
      match start_monitor w min_value_usd check_interval_minutes duration_hours with
      | (w, inl stats) => Some (w, Returned (MonitorOutput stats))
      | (w, inr e) => Some (w, Threw e)
      end
  | ExpansionParams address trigger_score expansion_depth min_value_eth =>
      match Expansion.analyze_with_expansion ingest analytics_tx
              expansion_connected fuel
              (Expansion.auto_expansion_config trigger_score expansion_depth
                 min_value_eth) w address with
      | None => None
      | Some (w, _, Some results) => Some (w, Returned (ExpansionOutput results))
      | Some (w, _, None) => Some (w, Threw session_error)
      end
  end.

(** The writes that end a [_run_*_thread]: the [try] branch after the
    target returned, the [except] branch after it raised. A [job_id] that
    is not registered raises [KeyError] in both and writes nothing. *)
Definition finish_job (c : Controller) (w : W) (id : string) (o : Outcome)
    : Controller :=
  match active_jobs c !! id with
  | None => c
  | Some job =>
      let job' :=
        match o with
        | Returned output =>
            mkJob (job_id job) (job_type job) completed (params job)
              (started_at job) (Some (RunResult output))
              (Some (utcnow_isoformat w)) (error job)
        | Threw e =>
            mkJob (job_id job) (job_type job) failed (params job)
              (started_at job) (result job)
              (Some (utcnow_isoformat w)) (Some e)
        end in
      mkController (<[id := job']> (active_jobs c)) (job_counter c) (threads c)
  end.

(** The body shared by [_run_crawler_thread], [_run_monitor_thread] and
    [_run_expansion_thread]: run the target, then write its outcome. *)
Definition run_thread (fuel : nat) (c : Controller) (w : W) (id : string)
    (args : Params) : option (Controller * W) :=
  match run_target fuel w args with
  | None => None
  | Some (w, o) => Some (finish_job c w id o, w)
  end.

Definition _run_crawler_thread (fuel : nat) (c : Controller) (w : W) (id : string)
    (seeds : list string) (max_depth : Z) (min_value_eth min_risk_score : Q)
    (max_addresses : Z) : option (Controller * W) :=
  run_thread fuel c w id
    (CrawlerParams seeds max_depth min_value_eth min_risk_score max_addresses).

Definition _run_monitor_thread (fuel : nat) (c : Controller) (w : W) (id : string)
    (min_value_usd : Q) (check_interval_minutes : Z) (duration_hours : option Z)
    : option (Controller * W) :=
  run_thread fuel c w id
    (MonitorParams min_value_usd check_interval_minutes duration_hours).

Definition _run_expansion_thread (fuel : nat) (c : Controller) (w : W) (id : string)
    (address : string) (trigger_score : Q) (expansion_depth : Z) (min_value_eth : Q)
    : option (Controller * W) :=
  run_thread fuel c w id
    (ExpansionParams address trigger_score expansion_depth min_value_eth).

(** [start_crawler_job], [start_monitor_job] and [start_expansion_job]
    with [run_async=True]: register the job and start its thread. *)
Definition start_job_async (c : Controller) (w : W) (kind : string) (p : Params)
    : Controller * Job :=
  let '(c, id) := _generate_job_id c w kind in
  let job_info := mkJob id kind started p (utcnow_isoformat w) None None None in
  (mkController (<[id := job_info]> (active_jobs c)) (job_counter c)
     (<[id := p]> (threads c)),
   job_info).

(** The same with [run_async=False]: the target runs inline; an exception
    of the target reaches the caller and leaves the job registered as
    [started] (inner [None]). *)
Definition start_job_sync (fuel : nat) (c : Controller) (w : W) (kind : string)
    (p : Params) : option (Controller * W * option Job) :=
  let '(c, id) := _generate_job_id c w kind in
  let job_info := mkJob id kind started p (utcnow_isoformat w) None None None in
  let c := mkController (<[id := job_info]> (active_jobs c)) (job_counter c)
             (threads c) in
  match run_target fuel w p with
  | None => None
  | Some (w, Threw _) => Some (c, w, None)
  | Some (w, Returned output) =>
      let job_info := mkJob id kind completed p (started_at job_info)
                        (Some (RunResult output)) (Some (utcnow_isoformat w)) None in
      Some (mkController (<[id := job_info]> (active_jobs c)) (job_counter c)
              (threads c), w, Some job_info)
  end.

Definition start_crawler_job (c : Controller) (w : W) (seeds : list string)
    (max_depth : Z) (min_value_eth min_risk_score : Q) (max_addresses : Z)
    : Controller * Job :=
  start_job_async c w "crawler"
    (CrawlerParams seeds max_depth min_value_eth min_risk_score max_addresses).

Definition start_monitor_job (c : Controller) (w : W) (min_value_usd : Q)
    (check_interval_minutes : Z) (duration_hours : option Z) : Controller * Job :=
  start_job_async c w "monitor"
    (MonitorParams min_value_usd check_interval_minutes duration_hours).

Definition start_expansion_job (c : Controller) (w : W) (address : string)
    (trigger_score : Q) (expansion_depth : Z) (min_value_eth : Q)
    : Controller * Job :=
  start_job_async c w "expansion"
    (ExpansionParams address trigger_score expansion_depth min_value_eth).

Definition get_job_status (c : Controller) (id : string) : option Job :=
  active_jobs c !! id.

(** [job["status"] = "cancelled"; job["result"] = {"message": ...}]. *)
Definition cancelled_job (job : Job) : Job :=
  mkJob (job_id job) (job_type job) cancelled (params job) (started_at job)
    (Some (Message "Job cancelled by user")) (completed_at job) (error job).

Definition cancel_job (c : Controller) (id : string) : Controller * bool :=
  match active_jobs c !! id with
  | None => (c, false)
  | Some job =>
      match status job with
      | started =>
          (mkController (<[id := cancelled_job job]> (active_jobs c))
             (job_counter c) (threads c),
           true)
      | _ => (c, false)
      end
  end.

End WithCollaborators.

End Automation.

(** ** The collaborators over a concrete store

    The world the controllers run in: the graph store and the clock; the
    chain-data provider is a parameter. A provider request can raise, and
    so can the taint query of the pipeline; the other sessions on the
    store succeed. *)

Module Deployment.

Record World := mkWorld {
  graph : Graph;
  clock : Q            (* the value of [time.time()] *)
}.

Section WithChain.

Variable chain : Chain.

Definition ingest (w : World) (address : string) (limit : Z) : World * option Z :=
  let '(g, r) := ingest_address chain (graph w) address limit in
  (mkWorld g (clock w), r).

(** Every reading of the clock is one millisecond after the previous
    one. *)
Definition read_latency : Q := 1#1000.

(** The readings of the clock from the time [t] on. *)
Definition readings_from (t : Q) : Clock :=
  fun k => t + inject_Z (Z.of_nat k) * read_latency.

(** [session.execute_write(lambda tx: run_all_analytics(tx, address))]: a
    run that raises is rolled back and leaves the store as it was. *)
Definition analytics_tx (w : World) (address : string) : World * option Analytics :=
  let time := readings_from (clock w) in
  match run_all_analytics (graph w) time 0 address with
  | (k, Some (g, out)) => (mkWorld g (time k), Some out)
  | (k, None) => (mkWorld (graph w) (time k), None)
  end.

(** The other end of every [TRANSFER] touching [address], in either
    direction, whose [value_sum] is at least [min_value]. *)
Definition counterparties (g : Graph) (address : string) (min_value : Q)
    : list (string * Q) :=
  flat_map (fun r =>
    if Qgeb (tr_value_sum r) min_value then
      (if String.eqb (tr_src r) address then [(tr_dst r, tr_value_sum r)] else [])
      ++ (if String.eqb (tr_dst r) address then [(tr_src r, tr_value_sum r)] else [])
    else []) (transfers g).

(** crawler.py: [RETURN DISTINCT other.address AS address LIMIT 50]. *)
Definition crawler_connected (w : World) (address : string) (min_value : Q)
    : World * option (list (option string)) :=
  (w, Some (map Some (take 50 (distinct (map fst
              (counterparties (graph w) address min_value)))))).

Fixpoint insert_desc (x : string * Q) (l : list (string * Q)) : list (string * Q) :=
  match l with
  | [] => [x]
  | y :: r => if Qltb (snd y) (snd x) then x :: l else y :: insert_desc x r
  end.

(** expansion.py: [WITH other, sum(r.value_sum) AS total_value ORDER BY
    total_value DESC RETURN other.address AS address LIMIT $limit]. *)
Definition expansion_connected (w : World) (address : string) (min_value : Q)
    (limit : Z) : World * option (list (option string)) :=
  let cs := counterparties (graph w) address min_value in
  let groups :=
    map (fun other =>
           (other,
            Qsum (map snd (filter (fun c => String.eqb (fst c) other) cs))))
      (distinct (map fst cs)) in
  let ordered := fold_right insert_desc [] groups in
  (w, Some (map (fun kv => Some (fst kv)) (take (Z.to_nat limit) ordered))).

Definition sleep (w : World) (seconds : Q) : World :=
  mkWorld (graph w) (clock w + seconds).

Definition crawl (fuel : nat) (cfg : Crawler.Config) (w : World)
    : option (World * Crawler.State) :=
  Crawler.crawl ingest analytics_tx crawler_connected sleep fuel cfg w.

Definition analyze_with_expansion (fuel : nat) (cfg : Expansion.Config)
    (w : World) (initial_address : string)
    : option (World * Expansion.State * option Expansion.Results) :=
  Expansion.analyze_with_expansion ingest analytics_tx expansion_connected
    fuel cfg w initial_address.

End WithChain.

End Deployment.

(** ** Concrete stores and runs *)

Module Examples.

Import Deployment.

Definition eth : Z := (10 ^ 18)%Z.

(** A reading of [time.time()] and a reading a tenth of a second later
    (within the same second). *)
Definition t0 : Q := 1700000000.
Definition t1 : Q := 1700000000 + (1#10).

(** The store a run of the pipeline leaves: the store it started from
    when it raised (the transaction is rolled back). *)
Definition store_after (g : Graph) (run : nat * option (Graph * Analytics))
    : Graph :=
  match snd run with
  | Some (g', _) => g'
  | None => g
  end.

Definition raw (hash from to : string) (wei ts : Z) : RawTx :=
  mkRawTx hash from to wei ts 1 0.

Definition store_of (chain : Chain) (address : string) : Graph :=
  fst (ingest_address chain empty_graph address 0).

(** *** Three transfers A -> B -> C -> A of one ether each *)

Definition triangle_chain : Chain := fun address =>
  if String.eqb address "0xa" then
    Some [raw "h1" "0xa" "0xb" eth 1699990000;
          raw "h2" "0xb" "0xc" eth 1699990100;
          raw "h3" "0xc" "0xa" eth 1699990200]
  else Some [].

Definition triangle : Graph := store_of triangle_chain "0xa".

(** *** One ether to 0xb and back, one ether to 0xc and back *)

Definition two_loops_chain : Chain := fun address =>
  if String.eqb address "0xa" then
    Some [raw "l1" "0xa" "0xb" eth 1699990000;
          raw "l2" "0xb" "0xa" eth 1699990100;
          raw "l3" "0xa" "0xc" eth 1699990200;
          raw "l4" "0xc" "0xa" eth 1699990300]
  else Some [].

Definition two_loops : Graph := store_of two_loops_chain "0xa".

(** *** Twenty-six deposits of 0.01 ether within the last three days *)

Definition deposits_chain : Chain := fun address =>
  if String.eqb address "0xa" then
    Some (map (fun i => raw ("d" ++ pretty.pretty i) "0xs" "0xa"
                          (10 ^ 16) (1699990000 + Z.of_nat i))
            (seq 0 26))
  else Some [].

Definition deposits : Graph := store_of deposits_chain "0xa".

(** *** Ten senders of one ether each *)

Definition fan_in_chain : Chain := fun address =>
  if String.eqb address "0xa" then
    Some (map (fun i => raw ("f" ++ pretty.pretty i) ("0xs" ++ pretty.pretty i)
                          "0xa" eth (1699990000 + Z.of_nat i))
            (seq 0 10))
  else Some [].

Definition fan_in : Graph := store_of fan_in_chain "0xa".

(** The store after one run of the pipeline on 0xa that starts at [t0],
    and after a second run that starts at [t1]. *)
Definition fan_in_once : Graph :=
  store_after fan_in (run_all_analytics fan_in (readings_from t0) 0 "0xa").
Definition fan_in_twice : Graph :=
  store_after fan_in_once
    (run_all_analytics fan_in_once (readings_from t1) 0 "0xa").

(** *** Ten senders, and ten ether sent to 0xb of which one comes back *)

Definition drain_chain : Chain := fun address =>
  if String.eqb address "0xa" then
    Some (map (fun i => raw ("f" ++ pretty.pretty i) ("0xs" ++ pretty.pretty i)
                          "0xa" eth (1699990000 + Z.of_nat i))
            (seq 0 10)
          ++ [raw "g1" "0xa" "0xb" (10 * eth) 1699991000;
              raw "g2" "0xb" "0xa" eth 1699992000])
  else Some [].

Definition drain : Graph := store_of drain_chain "0xa".

(** *** Ten senders, and one ether sent to the sanctioned 0xb that comes
    back *)

Definition hub_chain : Chain := fun address =>
  if String.eqb address "0xa" then
    Some (map (fun i => raw ("f" ++ pretty.pretty i) ("0xs" ++ pretty.pretty i)
                          "0xa" eth (1699990000 + Z.of_nat i))
            (seq 0 10)
          ++ [raw "g1" "0xa" "0xb" eth 1699991000;
              raw "g2" "0xb" "0xa" eth 1699992000])
  else Some [].

(** A store in which another component has recorded that 0xb is on a
    sanctions list. *)
Definition sanctioned : Graph :=
  mkGraph {[ "0xb" := set_alert_mark 1690000000000 bare_address ]} [] []
    [mkAlert "SANCTION" "0xb" 1690000000000 100 (DExternal "sanctions list")].

Definition hub_world : World := mkWorld sanctioned t0.

(** The configuration [analyze_with_auto_expansion] builds from its
    default arguments. *)
Definition default_expansion : Expansion.Config :=
  Expansion.auto_expansion_config 70 2 (1#2).

(** The same with [trigger_score = 50], and a store that holds nothing
    yet. *)
Definition trigger_50 : Expansion.Config :=
  Expansion.auto_expansion_config 50 2 (1#2).

Definition empty_world : World := mkWorld empty_graph t0.

(** *** A crawl and a crawler job *)

Definition crawl_config : Crawler.Config :=
  Crawler.run_crawler_config ["0xA"] 3 1 60 5000.

(** Stand-ins for the formatted UTC date: the clock in whole seconds. *)
Definition stamp (w : World) : string := pretty.pretty (Qfloor (clock w)).

(** A monitor whose single check finds nothing. *)
Definition idle_monitor (w : World) (min_value_usd : Q)
    (check_interval_minutes : Z) (duration_hours : option Z)
    : World * (unit + string) := (w, inl tt).

Definition demo_thread :=
  Automation.run_thread (ingest hub_chain) analytics_tx crawler_connected
    expansion_connected sleep idle_monitor stamp "session failed".

Definition demo_params : Automation.Params :=
  Automation.CrawlerParams ["0xA"] 3 1 60 5000.

(** The controller after [start_crawler_job(["0xA"])]. *)
Definition demo_started : @Automation.Controller unit :=
  fst (Automation.start_crawler_job stamp stamp Automation.new_controller
         hub_world ["0xA"] 3 1 60 5000).

Definition demo_id : string := "crawler_1700000000_1".

End Examples.

(** ** Tables read off the detectors *)

(** The scores the [CASE] expression of each tiered detector can return
    for a record that passes its [WHERE] clauses and its [score > 0]
    guard, by key of the pipeline result. *)
Definition detection_tiers : list (string * list Q) :=
  [("mixer_activity", [40; 60]);
   ("taint", [30; 40; 50]);
   ("circularity", [20; 35; 50]);
   ("velocity_alert", [40; 55; 70]);
   ("dormant_reactivation", [35; 50; 65]);
   ("round_amounts", [25; 35; 50]);
   ("timing_patterns", [35; 45; 55]);
   ("wash_trading", [40; 55; 70])].

Definition tiers_of (key : string) : option (list Q) :=
  option_map snd (find (fun kv => String.eqb (fst kv) key) detection_tiers).

(** ** Agreement of the aggregated transfers with the transactions *)

(** The stored transactions sent from [a] to [b]. *)
Definition pair_transactions (g : Graph) (a b : string) : list Transaction :=
  List.filter (fun t => String.eqb (tx_from t) a && String.eqb (tx_to t) b)
    (transactions g).

(** One [TRANSFER] per ordered pair; its [count] and [value_sum] are the
    number and the total value of the stored transactions of the pair;
    and every stored transaction has its [TRANSFER]. *)
Definition aggregates_agree (g : Graph) : Prop :=
  NoDup (map (fun r => (tr_src r, tr_dst r)) (transfers g))
  /\ (forall r, In r (transfers g) ->
        tr_count r = zlen (pair_transactions g (tr_src r) (tr_dst r))
        /\ tr_value_sum r
           == Qsum (map tx_value (pair_transactions g (tr_src r) (tr_dst r))))
  /\ (forall t, In t (transactions g) ->
        exists r, In r (transfers g)
                  /\ tr_src r = tx_from t /\ tr_dst r = tx_to t).

(** The transaction's hash is already in the store. *)
Definition stored_hash (g : Graph) (t : Transaction) : bool :=
  existsb (fun u => String.eqb (tx_hash u) (tx_hash t)) (transactions g).

Module ExpansionDefs.
Import Expansion.

(** The addresses of an expansion result and of its sub-expansions, in
    the order they were analysed. *)
Fixpoint tree_addresses (r : ExpansionResult) : list string :=
  e_address r ::
  match e_sub_expansions r with
  | None => []
  | Some sub_expansions =>
      (fix all (l : list ExpansionResult) : list string :=
         match l with
         | [] => []
         | x :: l' => tree_addresses x ++ all l'
         end) sub_expansions
  end.

(** What the bookkeeping of an expansion from state [s0] to state [s]
    that produced the results with addresses [l] satisfies; [k] is 1 for
    a call of [_expand_from_address] and 0 inside its loop. *)
Definition expansion_ledger (k : Z) (s0 s : State) (l : list string) : Prop :=
  expanded_addresses s0 ⊆ expanded_addresses s
  /\ NoDup l
  /\ (forall a, In a l ->
        (a ∉ expanded_addresses s0) /\ (a ∈ expanded_addresses s) /\ lower a = a)
  /\ (Z.of_nat (size (expanded_addresses s))
      - Z.of_nat (size (expanded_addresses s0))
      = total_addresses_analyzed (stats s) - total_addresses_analyzed (stats s0))%Z
  /\ (zlen l
      <= total_addresses_analyzed (stats s) - total_addresses_analyzed (stats s0))%Z
  /\ (0 <= high_risk_found (stats s) - high_risk_found (stats s0) <= zlen l)%Z
  /\ (0 <= expansions_triggered (stats s) - expansions_triggered (stats s0)
      <= k + (high_risk_found (stats s) - high_risk_found (stats s0)))%Z
  /\ initial_addresses (stats s) = initial_addresses (stats s0).
End ExpansionDefs.

Module AutomationDefs.
Import Automation.
Section Ids.
Context {MonitorStats : Type}.

(** Every registered id ends in an underscore and the decimal numeral of
    a count that [job_counter] has already passed. *)
Definition ids_issued (c : @Controller MonitorStats) : Prop :=
  forall id, is_Some (active_jobs c !! id) ->
    exists front n, id = (front +:+ "_" +:+ decimal n)%string
                    /\ (n <= job_counter c)%Z.
End Ids.
End AutomationDefs.

(** * Facts *)

(** ** Rational comparisons *)

Lemma Qltb_lt x y : Qltb x y = true <-> x < y.
Proof.
  unfold Qltb. rewrite negb_true_iff. split; intros H.
  - apply Qnot_le_lt. intros Hle. apply Qle_bool_iff in Hle. congruence.
  - destruct (Qle_bool y x) eqn:E; [|reflexivity].
    apply Qle_bool_iff in E. lra.
Qed.

Lemma Qgeb_ge x y : Qgeb x y = true <-> y <= x.
Proof. unfold Qgeb. apply Qle_bool_iff. Qed.

Lemma Qle_bool_false x y : Qle_bool x y = false <-> y < x.
Proof.
  split; intros H.
  - apply Qnot_le_lt. intros Hle. apply Qle_bool_iff in Hle. congruence.
  - destruct (Qle_bool x y) eqn:E; [|reflexivity].
    apply Qle_bool_iff in E. lra.
Qed.

(** ** Risk scorer *)

Lemma normalize_saturating x hi :
  0 < hi -> _normalize x 0 hi == saturating_minmax x hi.
Proof.
  intros Hhi. unfold _normalize, saturating_minmax.
  assert (Qle_bool hi 0 = false) as -> by (apply Qle_bool_false; lra).
  assert (E : forall y, (y - 0) / (hi - 0) == y / hi)
    by (intros y; field; lra).
  rewrite E.
  destruct (Qle_bool x 0) eqn:E0.
  - apply Qle_bool_iff in E0.
    assert (Qmax 0 (Qmin hi x) == 0) as -> by (qminmax; lra).
    field; lra.
  - apply Qle_bool_false in E0.
    destruct (Qle_bool hi x) eqn:E1.
    + apply Qle_bool_iff in E1.
      assert (Qmax 0 (Qmin hi x) == hi) as -> by (qminmax; lra).
      field; lra.
    + apply Qle_bool_false in E1.
      assert (Qmax 0 (Qmin hi x) == x) as -> by (qminmax; lra).
      reflexivity.
Qed.

Lemma clamp_spec v : Qmax 0 (Qmin 100 v) == clamp_0_100 v.
Proof.
  unfold clamp_0_100.
  destruct (Qle_bool v 0) eqn:E0.
  - apply Qle_bool_iff in E0. qminmax; lra.
  - apply Qle_bool_false in E0.
    destruct (Qle_bool 100 v) eqn:E1.
    + apply Qle_bool_iff in E1. qminmax; lra.
    + apply Qle_bool_false in E1. qminmax; lra.
Qed.

Lemma bonus_spec (n : Z) :
  Qmin 40 (inject_Z n * 10)
  == (if Qle_bool 40 (10 * inject_Z n) then 40 else 10 * inject_Z n).
Proof.
  destruct (Qle_bool 40 (10 * inject_Z n)) eqn:E.
  - apply Qle_bool_iff in E. qminmax; lra.
  - apply Qle_bool_false in E. qminmax; lra.
Qed.

Lemma risk_score_of_spec pr dg ind outd tri (n : Z) :
  risk_score_of (coalesce pr 0) (coalesce dg 0) (coalesce ind 0)
    (coalesce outd 0) (coalesce tri 0) n
  == spec_risk_score pr dg ind outd tri n.
Proof.
  unfold risk_score_of, spec_risk_score. cbv zeta.
  rewrite bonus_spec.
  rewrite !normalize_saturating by lra.
  rewrite clamp_spec.
  assert (E : forall x y, x == y -> clamp_0_100 x == clamp_0_100 y).
  { intros x y Hxy. rewrite <- !clamp_spec. rewrite Hxy. reflexivity. }
  apply E.
  destruct pr, dg, ind, outd, tri; simpl; ring.
Qed.

Lemma risk_score_of_range pr dg ind outd tri n :
  0 <= risk_score_of pr dg ind outd tri n <= 100.
Proof. unfold risk_score_of. cbv zeta. qminmax; lra. Qed.

Lemma risk_score_of_monotone pr dg ind outd tri (n m : Z) :
  (n <= m)%Z ->
  risk_score_of pr dg ind outd tri n <= risk_score_of pr dg ind outd tri m.
Proof.
  intros H. unfold risk_score_of. cbv zeta.
  assert (inject_Z n <= inject_Z m) by (rewrite <- Zle_Qle; lia).
  set (base := 30 * _ + _ + _ + _ + _). clearbody base.
  qminmax; lra.
Qed.

(** C4. For an address of the store the Risk Scorer returns the clamped
    sum of the weighted (30/15/10/10/15) saturating min-max normalised
    features (each absent feature counting as 0) and the alert bonus
    [min(40, 10 * alert_count)], a value of [0, 100], and writes it onto
    the Address: afterwards the node's [risk_score] is that score and its
    other properties are what they were, and every other node and every
    alert is as it was; for an address that is not in the store it returns 0 and writes
    nothing. *)
Theorem risk_scorer_formula (g : Graph) (address : string) :
  match addresses g !! address with
  | Some a =>
      let g' := fst (get_address_risk_score g address) in
      let score := snd (get_address_risk_score g address) in
      score == spec_risk_score (pagerank a) (degree a) (inDegree a)
                 (outDegree a) (triangles a) (zlen (alerts_for g address))
      /\ 0 <= score <= 100
      /\ (exists a',
            addresses g' !! address = Some a'
            /\ risk_score a' = Some score
            /\ first_seen a' = first_seen a /\ last_seen a' = last_seen a
            /\ total_in a' = total_in a /\ total_out a' = total_out a
            /\ pagerank a' = pagerank a /\ degree a' = degree a
            /\ inDegree a' = inDegree a /\ outDegree a' = outDegree a
            /\ triangles a' = triangles a
            /\ last_alert_ts a' = last_alert_ts a
            /\ has_alert a' = has_alert a)
      /\ (forall other, other <> address ->
            addresses g' !! other = addresses g !! other)
      /\ alerts g' = alerts g
      /\ transfers g' = transfers g
      /\ transactions g' = transactions g
  | None => get_address_risk_score g address = (g, 0)
  end.
Proof.
  unfold get_address_risk_score.
  destruct (addresses g !! address) as [a|] eqn:Ha; [|reflexivity].
  cbn [fst snd].
  split; [apply risk_score_of_spec|].
  split; [apply risk_score_of_range|].
  split.
  { eexists. split; [simpl; apply lookup_insert_eq|].
    cbn. repeat split; reflexivity. }
  split.
  { intros other Hne. simpl. apply lookup_insert_ne. congruence. }
  repeat split; reflexivity.
Qed.

(** ** Alert creation *)

Lemma same_alert_id_true t a n al :
  same_alert_id t a n al = true ->
  al_type al = t /\ al_address al = a /\ al_now al = n.
Proof.
  unfold same_alert_id. rewrite !andb_true_iff.
  intros [[Ht Ha] Hn].
  apply String.eqb_eq in Ht, Ha. apply Z.eqb_eq in Hn. auto.
Qed.

Lemma count_for_replace (address : string) (new : Alert) (hit : Alert -> bool)
    (l : list Alert) :
  (forall al, hit al = true -> al_address al = al_address new) ->
  length (filter (fun al => al_address al = address)
            (map (fun al => if hit al then new else al) l))
  = length (filter (fun al => al_address al = address) l).
Proof.
  intros Hhit. induction l as [|al l IH]; [reflexivity|].
  cbn [map]. rewrite !filter_cons.
  destruct (hit al) eqn:E.
  - apply Hhit in E.
    destruct (decide (al_address new = address)), (decide (al_address al = address));
      simpl; congruence.
  - destruct (decide (al_address al = address)); simpl; congruence.
Qed.

Lemma merge_alert_count (address : string) (new : Alert) (l : list Alert) :
  length (filter (fun al => al_address al = address) (merge_alert new l))
  = (length (filter (fun al => al_address al = address) l)
     + (if existsb (same_alert_id (al_type new) (al_address new) (al_now new)) l
        then 0
        else if decide (al_address new = address) then 1 else 0))%nat.
Proof.
  unfold merge_alert.
  destruct (existsb _ l) eqn:E.
  - rewrite count_for_replace; [lia|].
    intros al H. apply same_alert_id_true in H. tauto.
  - rewrite filter_app, length_app, filter_cons, filter_nil.
    destruct (decide (al_address new = address)); reflexivity.
Qed.

Lemma create_alert_node g clock address alert_type score details :
  addresses (_create_alert g clock address alert_type score details) !! address
  = Some (set_alert_mark (py_int (clock * 1000))
            (default bare_address (addresses g !! address))).
Proof. unfold _create_alert. simpl. apply lookup_insert_eq. Qed.

Lemma create_alert_count g clock address alert_type score details x :
  (zlen (alerts_for g x)
   <= zlen (alerts_for (_create_alert g clock address alert_type score details) x))%Z.
Proof.
  unfold zlen, alerts_for, _create_alert. simpl.
  rewrite merge_alert_count. lia.
Qed.

(** C7. Adding an alert for an address, whatever its type, score and
    details and with every structural feature left as it was, never
    decreases the score the Risk Scorer computes afterwards; an alert with
    a new id raises the alert count by exactly one, and the score is
    non-decreasing in the alert count. *)
Theorem risk_score_monotone_in_alerts (g : Graph) (clock : Q)
    (address alert_type : string) (score : Q) (details : Details) :
  let g' := _create_alert g clock address alert_type score details in
  snd (get_address_risk_score g address)
    <= snd (get_address_risk_score g' address)
  /\ (existsb (same_alert_id alert_type address (py_int (clock * 1000)))
        (alerts g) = false ->
      zlen (alerts_for g' address) = (zlen (alerts_for g address) + 1)%Z)
  /\ (forall pr dg ind outd tri (n : Z),
        risk_score_of pr dg ind outd tri n
        <= risk_score_of pr dg ind outd tri (n + 1)).
Proof.
  cbv zeta. split; [|split].
  - unfold get_address_risk_score at 2.
    rewrite create_alert_node.
    unfold get_address_risk_score.
    destruct (addresses g !! address) as [a|]; cbn [snd default].
    + apply risk_score_of_monotone, create_alert_count.
    + apply risk_score_of_range.
  - intros Hfresh. unfold zlen, alerts_for, _create_alert. simpl.
    rewrite merge_alert_count. simpl. rewrite Hfresh.
    destruct (decide (address = address)); [lia|congruence].
  - intros. apply risk_score_of_monotone. lia.
Qed.

Lemma risk_score_monotone_in_alerts_witness :
  existsb (same_alert_id "MIXER_PATTERN" "0xa" (py_int (10 * 1000)))
    (alerts empty_graph) = false
  /\ zlen (alerts_for (_create_alert empty_graph 10 "0xa" "MIXER_PATTERN" 60
                         (DMixer 20 0)) "0xa") = 1%Z.
Proof.
  split; [reflexivity|].
  apply (proj1 (proj2 (risk_score_monotone_in_alerts empty_graph 10 "0xa"
                         "MIXER_PATTERN" 60 (DMixer 20 0)))).
  reflexivity.
Defined.

(** ** Automation controller *)

Module AutomationFacts.

Import Automation.

Section Registry.

Context {MonitorStats : Type}.

Abbreviation Controller := (@Controller MonitorStats).
Abbreviation Job := (@Job MonitorStats).

Lemma cancel_job_started (c : Controller) (id : string) (job : Job) :
  get_job_status c id = Some job ->
  status job = started ->
  cancel_job c id
  = (mkController (<[id := cancelled_job job]> (active_jobs c))
       (job_counter c) (threads c), true).
Proof.
  unfold get_job_status, cancel_job. intros -> Hs. rewrite Hs. reflexivity.
Qed.

Lemma cancel_job_not_started (c : Controller) (id : string) (job : Job) :
  get_job_status c id = Some job ->
  status job <> started ->
  cancel_job c id = (c, false).
Proof.
  unfold get_job_status, cancel_job. intros -> Hs.
  destruct (status job); congruence.
Qed.

Lemma cancel_job_missing (c : Controller) (id : string) :
  get_job_status c id = None -> cancel_job c id = (c, false).
Proof. unfold get_job_status, cancel_job. intros ->. reflexivity. Qed.

Lemma cancel_job_true_inv (c c' : Controller) (id : string) :
  cancel_job c id = (c', true) ->
  exists job, get_job_status c id = Some job /\ status job = started
    /\ c' = mkController (<[id := cancelled_job job]> (active_jobs c))
              (job_counter c) (threads c).
Proof.
  unfold get_job_status, cancel_job.
  destruct (active_jobs c !! id) as [job|]; [|congruence].
  destruct (status job) eqn:Hs; try congruence.
  intros H. injection H as <-. exists job. auto.
Qed.

(** C6. [cancel_job] returns true exactly when the job is registered with
    status [started], and then the job is [cancelled] in the registry
    (every other job untouched), [get_job_status] reports [cancelled] and
    a second [cancel_job] returns false and changes nothing; on an
    unknown id, and on a job whose status is [completed], [failed] or
    [cancelled], it returns false and leaves the registry as it was. *)
Theorem cancel_job_spec (c : Controller) (id : string) :
  let c' := fst (cancel_job c id) in
  let ok := snd (cancel_job c id) in
  (ok = true <->
     exists job, get_job_status c id = Some job /\ status job = started)
  /\ (get_job_status c id = None -> ok = false /\ c' = c)
  /\ (forall job, get_job_status c id = Some job ->
        status job = completed \/ status job = failed \/ status job = cancelled ->
        ok = false /\ c' = c /\ get_job_status c' id = Some job)
  /\ (forall job, get_job_status c id = Some job -> status job = started ->
        ok = true
        /\ get_job_status c' id = Some (cancelled_job job)
        /\ status (cancelled_job job) = cancelled
        /\ (forall other, other <> id ->
              get_job_status c' other = get_job_status c other)
        /\ cancel_job c' id = (c', false)).
Proof.
  cbv zeta. repeat split.
  - intros H. destruct (cancel_job c id) as [c' ok] eqn:E. simpl in H. subst ok.
    apply cancel_job_true_inv in E as (job & H1 & H2 & _). eauto.
  - intros (job & H1 & H2). rewrite (cancel_job_started _ _ _ H1 H2). reflexivity.
  - rewrite (cancel_job_missing _ _ H). reflexivity.
  - rewrite (cancel_job_missing _ _ H). reflexivity.
  - rewrite (cancel_job_not_started _ _ _ H); [reflexivity|].
    destruct H0 as [H0|[H0|H0]]; rewrite H0; discriminate.
  - rewrite (cancel_job_not_started _ _ _ H); [reflexivity|].
    destruct H0 as [H0|[H0|H0]]; rewrite H0; discriminate.
  - rewrite (cancel_job_not_started _ _ _ H); [exact H|].
    destruct H0 as [H0|[H0|H0]]; rewrite H0; discriminate.
  - rewrite (cancel_job_started _ _ _ H H0). reflexivity.
  - rewrite (cancel_job_started _ _ _ H H0). unfold get_job_status. simpl.
    apply lookup_insert_eq.
  - intros other Hne. rewrite (cancel_job_started _ _ _ H H0).
    unfold get_job_status. simpl. apply lookup_insert_ne. congruence.
  - rewrite (cancel_job_started _ _ _ H H0). cbn [fst].
    apply cancel_job_not_started with (job := cancelled_job job).
    + unfold get_job_status. simpl. apply lookup_insert_eq.
    + discriminate.
Qed.

End Registry.

Section Workers.

Context {W MonitorStats : Type}.
Variable ingest : W -> string -> Z -> W * option Z.
Variable analytics_tx : W -> string -> W * option Analytics.
Variable crawler_connected : W -> string -> Q -> W * option (list (option string)).
Variable expansion_connected :
  W -> string -> Q -> Z -> W * option (list (option string)).
Variable sleep : W -> Q -> W.
Variable start_monitor : W -> Q -> Z -> option Z -> W * (MonitorStats + string).
Variable utcnow_isoformat : W -> string.
Variable session_error : string.

Abbreviation Controller := (@Controller MonitorStats).
Abbreviation Job := (@Job MonitorStats).
Abbreviation Outcome := (@Outcome MonitorStats).

Abbreviation thread :=
  (run_thread ingest analytics_tx crawler_connected expansion_connected sleep
     start_monitor utcnow_isoformat session_error).
Abbreviation target :=
  (run_target ingest analytics_tx crawler_connected expansion_connected sleep
     start_monitor session_error).

(** The status a finished thread writes. *)
Lemma finish_job_status (c : Controller) (w : W) (id : string) (o : Outcome)
    (job : Job) :
  get_job_status c id = Some job ->
  exists job',
    get_job_status (finish_job utcnow_isoformat c w id o) id = Some job'
    /\ status job' = match o with Returned _ => completed | Threw _ => failed end.
Proof.
  unfold get_job_status, finish_job. intros ->.
  destruct o; eexists; (split; [simpl; apply lookup_insert_eq|reflexivity]).
Qed.

Lemma finish_job_status_independent (c c' : Controller) (w : W) (id : string)
    (o : Outcome) (job job' : Job) :
  get_job_status c id = Some job ->
  get_job_status c' id = Some job' ->
  status <$> get_job_status (finish_job utcnow_isoformat c w id o) id
  = status <$> get_job_status (finish_job utcnow_isoformat c' w id o) id.
Proof.
  intros H H'.
  destruct (finish_job_status c w id o job H) as (j & Hj & Hs).
  destruct (finish_job_status c' w id o job' H') as (j' & Hj' & Hs').
  rewrite Hj, Hj'. simpl. congruence.
Qed.

(** C9. A worker thread that finishes writes [completed] (or [failed]
    when its target raised) over whatever status the job has. So when
    [cancel_job] has succeeded and the thread then runs to completion, the
    registry reports [completed] or [failed], not [cancelled]; and the
    thread does the same work on the world and ends with the same status
    as it would have without the cancel: its target never reads the
    registry. The status is [completed], with the target's output as the
    result, exactly when the target returned, and [failed], with the text
    of the exception as the error, exactly when it raised; the completion
    time is written in both cases. *)
Theorem worker_overwrites_cancelled (fuel : nat) (c c1 c2 : Controller)
    (w w2 : W) (id : string) (args : Params) :
  cancel_job c id = (c1, true) ->
  thread fuel c1 w id args = Some (c2, w2) ->
  (exists job,
     get_job_status c1 id = Some job /\ status job = cancelled)
  /\ (exists job,
        get_job_status c2 id = Some job
        /\ (status job = completed \/ status job = failed))
  /\ (exists c2',
        thread fuel c w id args = Some (c2', w2)
        /\ status <$> get_job_status c2' id = status <$> get_job_status c2 id)
  /\ (exists o job,
        target fuel w args = Some (w2, o)
        /\ get_job_status c2 id = Some job
        /\ completed_at job = Some (utcnow_isoformat w2)
        /\ match o with
           | Returned output =>
               status job = completed
               /\ result job = Some (RunResult output)
           | Threw e =>
               status job = failed
               /\ error job = Some e
               /\ result job = Some (Message "Job cancelled by user")
           end).
Proof.
  intros Hc Ht.
  apply cancel_job_true_inv in Hc as (job & Hjob & Hstarted & ->).
  assert (Hjob1 : get_job_status
            (mkController (<[id := cancelled_job job]> (active_jobs c))
               (job_counter c) (threads c)) id = Some (cancelled_job job)).
  { unfold get_job_status. simpl. apply lookup_insert_eq. }
  split; [eauto|].
  unfold run_thread in *.
  destruct (run_target _ _ _ _ _ _ _ fuel w args) as [[w' o]|] eqn:E;
    [|discriminate].
  injection Ht as <- <-.
  split.
  { destruct (finish_job_status _ w' id o _ Hjob1) as (j & Hj & Hs).
    exists j. split; [exact Hj|]. destruct o; auto. }
  split.
  { eexists. split; [reflexivity|].
    eapply finish_job_status_independent; eauto. }
  exists o. unfold get_job_status, finish_job in *. cbn [active_jobs] in *.
  rewrite Hjob1.
  destruct o as [output|e]; eexists;
    (split; [reflexivity|]);
    (split; [cbn [active_jobs]; apply lookup_insert_eq|]);
    cbn; auto.
Qed.

End Workers.

End AutomationFacts.

(** ** Lower-casing *)

Lemma lower_ascii_idempotent c : lower_ascii (lower_ascii c) = lower_ascii c.
Proof.
  destruct c as [[] [] [] [] [] [] [] []]; vm_compute; reflexivity.
Qed.

Lemma lower_idempotent s : lower (lower s) = lower s.
Proof.
  induction s as [|c s IH]; [reflexivity|].
  simpl. rewrite lower_ascii_idempotent, IH. reflexivity.
Qed.

(** ** Crawler *)

Module CrawlerFacts.

Import Crawler.

(** *** The quick risk score *)

Lemma quick_contribution_unscored (alert_type : string) (n : Z) :
  ~ In alert_type scored_types -> quick_contribution alert_type n = 0.
Proof.
  intros Hno. unfold quick_contribution.
  repeat match goal with
  | |- context [String.eqb alert_type ?k] =>
      let E := fresh "E" in
      destruct (String.eqb alert_type k) eqn:E;
        [apply String.eqb_eq in E; exfalso; apply Hno; subst; simpl; tauto|]
  end.
  reflexivity.
Qed.

Lemma unscored_not_scored (alert_type : string) :
  In alert_type unscored_types -> ~ In alert_type scored_types.
Proof.
  unfold unscored_types, scored_types. simpl.
  intros H Hs.
  repeat (destruct H as [H|H]; [subst; intuition discriminate|]).
  exact H.
Qed.

Lemma quick_fold_same (an1 an2 : Analytics) :
  same_scored_counts an1 an2 ->
  forall acc1 acc2 : Q, acc1 == acc2 ->
  fold_left (fun score '(alert_type, alerts) =>
      match alerts with
      | [] => score
      | _ :: _ => score + quick_contribution alert_type (zlen alerts)
      end) an1 acc1
  == fold_left (fun score '(alert_type, alerts) =>
      match alerts with
      | [] => score
      | _ :: _ => score + quick_contribution alert_type (zlen alerts)
      end) an2 acc2.
Proof.
  induction 1 as [|[k1 l1] [k2 l2] an1 an2 [Hk Hlen] _ IH];
    intros acc1 acc2 Hacc; [exact Hacc|].
  simpl in Hk, Hlen. subst k2. cbn [fold_left]. apply IH.
  destruct (in_dec String.string_dec k1 scored_types) as [Hin|Hno].
  - specialize (Hlen Hin).
    destruct l1, l2; try discriminate Hlen; [exact Hacc|].
    unfold zlen. rewrite Hlen, Hacc. reflexivity.
  - destruct l1, l2; rewrite ?quick_contribution_unscored by exact Hno;
      rewrite Hacc; ring.
Qed.

Lemma quick_fold_unscored (an : Analytics) :
  only_unscored an ->
  forall acc : Q,
  fold_left (fun score '(alert_type, alerts) =>
      match alerts with
      | [] => score
      | _ :: _ => score + quick_contribution alert_type (zlen alerts)
      end) an acc == acc.
Proof.
  induction an as [|[k l] an IH]; intros Hun acc; [reflexivity|].
  cbn [fold_left].
  rewrite IH.
  - destruct l as [|x l]; [reflexivity|].
    rewrite quick_contribution_unscored; [ring|].
    apply unscored_not_scored. apply (Hun k (x :: l)); [left; reflexivity|discriminate].
  - intros k' l' Hin Hne. apply (Hun k' l'); [right; exact Hin|exact Hne].
Qed.

Lemma quick_score_same (a1 a2 : string) (an1 an2 : Analytics) :
  same_scored_counts an1 an2 ->
  _calculate_quick_risk_score a1 an1 == _calculate_quick_risk_score a2 an2.
Proof.
  intros H. unfold _calculate_quick_risk_score.
  rewrite (quick_fold_same an1 an2 H 0 0) by reflexivity. reflexivity.
Qed.

Lemma quick_score_unscored (address : string) (an : Analytics) :
  only_unscored an -> _calculate_quick_risk_score address an == 0.
Proof.
  intros H. unfold _calculate_quick_risk_score.
  rewrite (quick_fold_unscored an H 0). reflexivity.
Qed.

Lemma run_all_analytics_keys (g : Graph) (time : Clock) (k : nat)
    (address : string) (k' : nat) (g' : Graph) (out : Analytics) :
  run_all_analytics g time k address = (k', Some (g', out)) ->
  map fst out = scored_types ++ unscored_types.
Proof.
  unfold run_all_analytics.
  repeat match goal with
  | |- context [let '(_, _) := ?e in _] => destruct e as [[? ?] ?]
  end.
  destruct (run_taint_analysis _ _ _ _) as [[[? ?] ?]|]; [|discriminate].
  repeat match goal with
  | |- context [let '(_, _) := ?e in _] => destruct e as [[? ?] ?]
  end.
  intros H. injection H as _ _ <-. reflexivity.
Qed.

Section Crawl.

Context {W : Type}.
Variable ingest : W -> string -> Z -> W * option Z.
Variable analytics_tx : W -> string -> W * option Analytics.
Variable connected_query : W -> string -> Q -> W * option (list (option string)).
Variable sleep : W -> Q -> W.

Abbreviation step := (crawl_step ingest analytics_tx connected_query sleep).
Abbreviation loop := (crawl_loop ingest analytics_tx connected_query sleep).
Abbreviation analyze := (_analyze_address ingest analytics_tx).
Abbreviation connected := (_get_connected_addresses connected_query).
Abbreviation reach := (reaches ingest analytics_tx connected_query sleep).

Lemma connected_lowercase cfg w address w' l :
  connected cfg w address = (w', Some l) ->
  Forall (fun c => lower c = c) l.
Proof.
  unfold _get_connected_addresses.
  destruct (connected_query w address _) as [w1 [records|]]; simpl;
    [|discriminate].
  intros H. injection H as _ <-.
  apply List.Forall_forall. intros c Hc.
  apply in_flat_map in Hc as ([a|] & _ & Ha); [|destruct Ha].
  destruct (String.eqb a ""); [destruct Ha|].
  destruct Ha as [<-|[]]. apply lower_idempotent.
Qed.

Lemma children_of_spec vis l depth c :
  In c (children_of vis l depth) ->
  snd c = (depth + 1)%Z /\ In (fst c) l /\ fst c ∉ vis.
Proof.
  unfold children_of. intros H.
  apply in_map_iff in H as (x & <- & Hx).
  apply list_elem_of_In, list_elem_of_filter in Hx as [Hv Hx]. simpl.
  apply Is_true_true, negb_true_iff, bool_decide_eq_false in Hv.
  apply list_elem_of_In in Hx. auto.
Qed.

(** What one iteration of the loop does to the crawler state. *)
Lemma crawl_step_cases cfg w s w' s' :
  step cfg w s = Some (w', s') ->
  exists address depth rest,
    to_analyze s = (address, depth) :: rest
    /\ (Z.of_nat (size (visited s)) < max_addresses cfg)%Z
    /\ ((((address ∈ visited s) \/ (max_depth cfg < depth)%Z)
         /\ visited s' = visited s
         /\ to_analyze s' = rest
         /\ analysis_log s' = analysis_log s
         /\ suspicious_found s' = suspicious_found s)
        \/
        ((address ∉ visited s)
         /\ (depth <= max_depth cfg)%Z
         /\ visited s' = {[address]} ∪ visited s
         /\ analysis_log s' = analysis_log s ++ [(address, depth)]
         /\ suspicious_found s'
            = suspicious_found s
              ++ match snd (analyze cfg w (stats s) address depth) with
                 | Some res => [res]
                 | None => []
                 end
         /\ exists children,
              to_analyze s' = rest ++ children
              /\ (children = []
                  \/ exists res l,
                       snd (analyze cfg w (stats s) address depth) = Some res
                       /\ min_risk_score_to_expand cfg <= s_risk_score res
                       /\ (depth < max_depth cfg)%Z
                       /\ Forall (fun c => lower c = c) l
                       /\ children
                          = children_of ({[address]} ∪ visited s) l depth))).
Proof.
  unfold crawl_step.
  destruct (to_analyze s) as [|[address depth] rest] eqn:Hq; [discriminate|].
  destruct (Z.of_nat (size (visited s)) <? max_addresses cfg)%Z eqn:Hsz;
    [|discriminate].
  apply Z.ltb_lt in Hsz. cbn [negb].
  intros H. exists address, depth, rest.
  split; [reflexivity|]. split; [exact Hsz|].
  destruct (bool_decide (address ∈ visited s)) eqn:Hv.
  { apply bool_decide_eq_true in Hv. injection H as <- <-. left. simpl. auto. }
  apply bool_decide_eq_false in Hv.
  destruct (max_depth cfg <? depth)%Z eqn:Hd.
  { apply Z.ltb_lt in Hd. injection H as <- <-. left. simpl. auto. }
  apply Z.ltb_ge in Hd. cbn [orb] in H. right.
  destruct (analyze cfg w (stats s) address depth) as [[w1 st1] result] eqn:Ha.
  cbn [snd].
  destruct result as [res|].
  - destruct (Qgeb (s_risk_score res) (min_risk_score_to_expand cfg)) eqn:Hr;
      cbn [andb] in H.
    + destruct (depth <? max_depth cfg)%Z eqn:Hlt.
      * destruct (connected cfg w1 address) as [w2 [l|]] eqn:Hc;
          injection H as <- <-; simpl; repeat (split; [auto; fail|]).
        -- eexists. split; [reflexivity|]. right.
           exists res, l. repeat split; auto.
           ++ apply Qgeb_ge. exact Hr.
           ++ apply Z.ltb_lt. exact Hlt.
           ++ eapply connected_lowercase. exact Hc.
        -- exists []. rewrite app_nil_r. auto.
      * injection H as <- <-; simpl; repeat (split; [auto; fail|]).
        exists []. rewrite app_nil_r. auto.
    + injection H as <- <-; simpl; repeat (split; [auto; fail|]).
      exists []. rewrite app_nil_r. auto.
  - injection H as <- <-; simpl. rewrite app_nil_r.
    repeat (split; [auto; fail|]).
    exists []. rewrite app_nil_r. auto.
Qed.

Lemma size_visit (address : string) (vis : gset string) :
  address ∉ vis -> size ({[address]} ∪ vis) = S (size vis).
Proof.
  intros H. rewrite size_union by (apply disjoint_singleton_l; exact H).
  rewrite size_singleton. lia.
Qed.

(** The properties every state of a crawl has. *)
Lemma crawl_step_preserves cfg w s w' s' :
  step cfg w s = Some (w', s') ->
  ((Z.of_nat (size (visited s)) <= Z.max 0 (max_addresses cfg))%Z
   /\ NoDup (map fst (analysis_log s))
   /\ (forall a, In a (map fst (analysis_log s)) <-> a ∈ visited s)
   /\ (forall a d, In (a, d) (to_analyze s) ->
         lower a = a /\ (d = 0 \/ 1 <= d <= max_depth cfg)%Z)
   /\ (forall a, a ∈ visited s -> lower a = a)) ->
  ((Z.of_nat (size (visited s')) <= Z.max 0 (max_addresses cfg))%Z
   /\ NoDup (map fst (analysis_log s'))
   /\ (forall a, In a (map fst (analysis_log s')) <-> a ∈ visited s')
   /\ (forall a d, In (a, d) (to_analyze s') ->
         lower a = a /\ (d = 0 \/ 1 <= d <= max_depth cfg)%Z)
   /\ (forall a, a ∈ visited s' -> lower a = a)).
Proof.
  intros Hstep (Hsz & Hnd & Hlog & Hq & Hlow).
  apply crawl_step_cases in Hstep
    as (address & depth & rest & Hqs & Hlt & [Hskip|Hvisit]).
  - destruct Hskip as (_ & Hv & Hq' & Hl & _).
    rewrite Hv, Hq', Hl.
    split; [exact Hsz|]. split; [exact Hnd|]. split; [exact Hlog|].
    split; [|exact Hlow].
    intros a d Hin. apply Hq. rewrite Hqs. right. exact Hin.
  - destruct Hvisit as (Hnv & Hd & Hv & Hl & _ & children & Hq' & Hch).
    assert (Hhead : lower address = address
                    /\ (depth = 0 \/ 1 <= depth <= max_depth cfg)%Z).
    { apply Hq. rewrite Hqs. left. reflexivity. }
    rewrite Hv, Hl, Hq'. rewrite map_app. cbn [map fst].
    split; [rewrite size_visit by exact Hnv; lia|].
    split.
    { apply NoDup_app. repeat split; auto.
      - intros x Hx1 Hx2. apply list_elem_of_In, Hlog in Hx1.
        apply list_elem_of_In in Hx2. destruct Hx2 as [<-|[]]. contradiction.
      - apply NoDup_singleton. }
    split.
    { intros a. rewrite in_app_iff, Hlog. cbn [In].
      rewrite elem_of_union, elem_of_singleton.
      split.
      - intros [Hin|[<-|[]]]; auto.
      - intros [->|Hin]; auto. }
    split.
    { intros a d Hin. apply in_app_iff in Hin as [Hin|Hin].
      - apply Hq. rewrite Hqs. right. exact Hin.
      - destruct Hch as [->|(res & l & _ & _ & Hdl & Hfl & ->)]; [destruct Hin|].
        apply children_of_spec in Hin as (Hd1 & Hin1 & _). simpl in *.
        split.
        + rewrite List.Forall_forall in Hfl. apply Hfl. exact Hin1.
        + destruct Hhead as [_ [->|Hr]]; lia. }
    intros a Ha. apply elem_of_union in Ha as [Ha|Ha].
    + apply elem_of_singleton in Ha. subst a. tauto.
    + apply Hlow. exact Ha.
Qed.

Lemma initial_state_invariant cfg :
  (Z.of_nat (size (visited (initial_state cfg))) <= Z.max 0 (max_addresses cfg))%Z
  /\ NoDup (map fst (analysis_log (initial_state cfg)))
  /\ (forall a, In a (map fst (analysis_log (initial_state cfg)))
                <-> a ∈ visited (initial_state cfg))
  /\ (forall a d, In (a, d) (to_analyze (initial_state cfg)) ->
        lower a = a /\ (d = 0 \/ 1 <= d <= max_depth cfg)%Z)
  /\ (forall a, a ∈ visited (initial_state cfg) -> lower a = a).
Proof.
  unfold initial_state.
  cbn [visited analysis_log to_analyze map].
  split; [rewrite size_empty; lia|].
  split; [apply NoDup_nil_2|].
  split; [intros a; split; [intros []|intros H; apply elem_of_empty in H as []]|].
  split; [|intros a H; apply elem_of_empty in H as []].
  intros a d Hin. apply in_map_iff in Hin as (seed & Heq & _).
  injection Heq as <- <-. split; [apply lower_idempotent|auto].
Qed.

Lemma reaches_invariant cfg x y :
  reach cfg x y ->
  ((Z.of_nat (size (visited (snd x))) <= Z.max 0 (max_addresses cfg))%Z
   /\ NoDup (map fst (analysis_log (snd x)))
   /\ (forall a, In a (map fst (analysis_log (snd x))) <-> a ∈ visited (snd x))
   /\ (forall a d, In (a, d) (to_analyze (snd x)) ->
         lower a = a /\ (d = 0 \/ 1 <= d <= max_depth cfg)%Z)
   /\ (forall a, a ∈ visited (snd x) -> lower a = a)) ->
  ((Z.of_nat (size (visited (snd y))) <= Z.max 0 (max_addresses cfg))%Z
   /\ NoDup (map fst (analysis_log (snd y)))
   /\ (forall a, In a (map fst (analysis_log (snd y))) <-> a ∈ visited (snd y))
   /\ (forall a d, In (a, d) (to_analyze (snd y)) ->
         lower a = a /\ (d = 0 \/ 1 <= d <= max_depth cfg)%Z)
   /\ (forall a, a ∈ visited (snd y) -> lower a = a)).
Proof.
  induction 1 as [x|w s w' s' y Hstep _ IH]; [auto|].
  intros Hinv. apply IH. simpl in *.
  eapply crawl_step_preserves; eauto.
Qed.

(** The loop ends: a visit uses up one of the [max_addresses] slots, a
    skip shortens the worklist. *)
Lemma crawl_loop_terminates cfg (n : nat) :
  forall (k : nat) w s,
    (Z.to_nat (max_addresses cfg - Z.of_nat (size (visited s))) <= n)%nat ->
    (length (to_analyze s) <= k)%nat ->
    exists fuel final,
      loop fuel cfg w s = Some final
      /\ reach cfg (w, s) final
      /\ step cfg (fst final) (snd final) = None.
Proof.
  induction n as [|n IHn].
  - intros k w s Hm _. exists O, (w, s).
    assert (Hnone : step cfg w s = None).
    { unfold crawl_step. destruct (to_analyze s) as [|[a d] r]; [reflexivity|].
      destruct (Z.of_nat (size (visited s)) <? max_addresses cfg)%Z eqn:E;
        [|reflexivity].
      apply Z.ltb_lt in E. lia. }
    simpl. rewrite Hnone. repeat split; auto. constructor.
  - induction k as [|k IHk]; intros w s Hm Hk.
    + exists O, (w, s).
      assert (Hnone : step cfg w s = None).
      { unfold crawl_step. destruct (to_analyze s) as [|[a d] r];
          [reflexivity|simpl in Hk; lia]. }
      simpl. rewrite Hnone. repeat split; auto. constructor.
    + destruct (step cfg w s) as [[w' s']|] eqn:Hstep.
      2:{ exists O, (w, s). simpl. rewrite Hstep. repeat split; auto. constructor. }
      assert (Hnext : exists fuel final,
                 loop fuel cfg w' s' = Some final
                 /\ reach cfg (w', s') final
                 /\ step cfg (fst final) (snd final) = None).
      { pose proof Hstep as Hc.
        apply crawl_step_cases in Hc
          as (address & depth & rest & Hqs & Hlt & [Hskip|Hvisit]).
        - destruct Hskip as (_ & Hv & Hq' & _).
          apply IHk; [rewrite Hv; exact Hm|].
          rewrite Hq'. rewrite Hqs in Hk. simpl in Hk. lia.
        - destruct Hvisit as (Hnv & _ & Hv & _).
          apply (IHn (length (to_analyze s'))); [|lia].
          rewrite Hv, size_visit by exact Hnv. lia. }
      destruct Hnext as (fuel & final & Hloop & Hreach & Hend).
      exists (S fuel), final. simpl. rewrite Hstep.
      repeat split; auto. econstructor; eauto.
Qed.

(** C5, as the code has it. In every state of a crawl: the visited set
    has at most [max(0, max_addresses)] elements ([max_addresses] is any
    integer, and the empty visited set of a crawl that never starts does
    exceed a negative one); the addresses analysed so far are pairwise
    different, lower-cased, and are exactly the visited set; and an
    iteration that appends children to the worklist is the analysis of its
    head [(address, depth)] and gives each child the depth [depth + 1],
    which is at most [max_depth]. The crawl ends, in one of these
    states. *)
Theorem crawl_invariants cfg (w : W) :
  (exists fuel final,
     crawl ingest analytics_tx connected_query sleep fuel cfg w = Some final
     /\ reach cfg (w, initial_state cfg) final)
  /\ forall w' s',
       reach cfg (w, initial_state cfg) (w', s') ->
       (Z.of_nat (size (visited s')) <= Z.max 0 (max_addresses cfg))%Z
       /\ NoDup (map fst (analysis_log s'))
       /\ (forall a, In a (map fst (analysis_log s')) <-> a ∈ visited s')
       /\ (forall a, a ∈ visited s' -> lower a = a)
       /\ (forall w'' s'',
             step cfg w' s' = Some (w'', s'') ->
             exists address depth rest children,
               to_analyze s' = (address, depth) :: rest
               /\ to_analyze s'' = rest ++ children
               /\ (children <> [] ->
                   analysis_log s'' = analysis_log s' ++ [(address, depth)])
               /\ forall c, In c children ->
                    snd c = (depth + 1)%Z /\ (snd c <= max_depth cfg)%Z).
Proof.
  split.
  - destruct (crawl_loop_terminates cfg
                (Z.to_nat (max_addresses cfg
                           - Z.of_nat (size (visited (initial_state cfg)))))
                (length (to_analyze (initial_state cfg))) w (initial_state cfg))
      as (fuel & final & Hloop & Hreach & _); [lia|lia|].
    exists fuel, final. split; [exact Hloop|exact Hreach].
  - intros w' s' Hreach.
    pose proof (reaches_invariant cfg _ _ Hreach (initial_state_invariant cfg))
      as (Hsz & Hnd & Hlog & _ & Hlow).
    simpl in *.
    split; [exact Hsz|]. split; [exact Hnd|]. split; [exact Hlog|].
    split; [exact Hlow|].
    intros w'' s'' Hstep.
    apply crawl_step_cases in Hstep
      as (address & depth & rest & Hqs & _ & [Hskip|Hvisit]).
    + destruct Hskip as (_ & _ & Hq' & _).
      exists address, depth, rest, []. rewrite app_nil_r.
      split; [exact Hqs|]. split; [exact Hq'|].
      split; [congruence|]. intros c [].
    + destruct Hvisit as (_ & _ & _ & Hl & _ & children & Hq' & Hch).
      exists address, depth, rest, children.
      split; [exact Hqs|]. split; [exact Hq'|]. split; [auto|].
      intros c Hin.
      destruct Hch as [->|(res & l & _ & _ & Hdl & _ & ->)]; [destruct Hin|].
      apply children_of_spec in Hin as (Hd1 & _). split; [exact Hd1|lia].
Qed.

(** The record [_analyze_address] returns, when it returns one. *)
Lemma analyze_result cfg w st address depth res :
  snd (analyze cfg w st address depth) = Some res ->
  s_address res = address
  /\ s_depth res = depth
  /\ s_risk_score res = _calculate_quick_risk_score address (s_alerts res)
  /\ 40 <= s_risk_score res
  /\ (s_alerts res = []
      \/ exists w1, snd (analytics_tx w1 address) = Some (s_alerts res)).
Proof.
  unfold _analyze_address.
  destruct (ingest w address _) as [w1 [ingested|]]; [|discriminate].
  destruct (ingested =? 0)%Z; [discriminate|].
  destruct (analytics_tx w1 address) as [w2 r] eqn:Ha.
  assert (Hr : r = snd (analytics_tx w1 address)) by (rewrite Ha; reflexivity).
  destruct r as [an|].
  - destruct (Qgeb (_calculate_quick_risk_score address an) 40) eqn:Hq;
      [|discriminate].
    simpl. intros H. injection H as <-. simpl.
    repeat split; auto.
    + apply Qgeb_ge. exact Hq.
    + right. exists w1. auto.
  - destruct (Qgeb (_calculate_quick_risk_score address []) 40) eqn:Hq;
      [|discriminate].
    simpl. intros H. injection H as <-. simpl.
    repeat split; auto.
    apply Qgeb_ge. exact Hq.
Qed.

Lemma analyze_not_unscored cfg w st address depth res :
  snd (analyze cfg w st address depth) = Some res ->
  ~ only_unscored (s_alerts res).
Proof.
  intros E Hun.
  apply analyze_result in E as (_ & _ & Hscore & Hge & _).
  rewrite Hscore, (quick_score_unscored _ _ Hun) in Hge. lra.
Qed.

(** C10. The quick risk score is a function of the numbers of alerts
    under the five keys structuring, peel_chains, mixer_activity, taint
    and circularity, which with velocity_alert, dormant_reactivation,
    round_amounts, timing_patterns and wash_trading are the keys of every
    pipeline result. A result whose non-empty lists are all under the
    latter five has quick score 0, below the threshold 40. So in a crawl
    no recorded suspicious address has such a result, and an iteration
    records its address or appends children to the worklist only when the
    analysis returned a record whose result is not of that kind. *)
Theorem quick_score_ignores_unscored cfg (w : W) :
  (forall a1 a2 an1 an2,
     same_scored_counts an1 an2 ->
     _calculate_quick_risk_score a1 an1 == _calculate_quick_risk_score a2 an2)
  /\ (forall g time k a k' g' out,
        run_all_analytics g time k a = (k', Some (g', out)) ->
        map fst out = scored_types ++ unscored_types)
  /\ (forall address an,
        only_unscored an ->
        _calculate_quick_risk_score address an == 0
        /\ Qgeb (_calculate_quick_risk_score address an) 40 = false)
  /\ forall w' s',
       reach cfg (w, initial_state cfg) (w', s') ->
       (forall r, In r (suspicious_found s') -> ~ only_unscored (s_alerts r))
       /\ (forall address depth rest w'' s'',
             to_analyze s' = (address, depth) :: rest ->
             step cfg w' s' = Some (w'', s'') ->
             (to_analyze s'' = rest
              /\ suspicious_found s'' = suspicious_found s')
             \/ (exists res,
                   snd (analyze cfg w' (stats s') address depth) = Some res
                   /\ suspicious_found s'' = suspicious_found s' ++ [res]
                   /\ s_address res = address
                   /\ ~ only_unscored (s_alerts res))).
Proof.
  split; [intros; apply quick_score_same; assumption|].
  split; [intros; eapply run_all_analytics_keys; eassumption|].
  split.
  { intros address an Hun.
    pose proof (quick_score_unscored address an Hun) as Hz.
    split; [exact Hz|].
    destruct (Qgeb _ 40) eqn:E; [|reflexivity].
    apply Qgeb_ge in E. rewrite Hz in E. lra. }
  intros w' s' Hreach. split.
  - remember (w, initial_state cfg) as x eqn:Hx.
    remember (w', s') as y eqn:Hy.
    assert (Hinit : forall r, In r (suspicious_found (snd x)) ->
                              ~ only_unscored (s_alerts r))
      by (subst x; simpl; intros r []).
    clear Hx. replace s' with (snd y) by (subst y; reflexivity). clear Hy.
    induction Hreach as [x|w0 s0 w1 s1 y Hstep _ IH]; [exact Hinit|].
    apply IH. simpl in *. intros r Hin.
    apply crawl_step_cases in Hstep
      as (a & d & rest & _ & _ & [Hskip|Hvisit]).
    + destruct Hskip as (_ & _ & _ & _ & Hf). rewrite Hf in Hin. auto.
    + destruct Hvisit as (_ & _ & _ & _ & Hf & _). rewrite Hf in Hin.
      apply in_app_iff in Hin as [Hin|Hin]; [auto|].
      destruct (snd (analyze cfg w0 (stats s0) a d)) as [res|] eqn:E;
        [|destruct Hin].
      destruct Hin as [<-|[]].
      eapply analyze_not_unscored. exact E.
  - intros address depth rest w'' s'' Hq Hstep.
    apply crawl_step_cases in Hstep
      as (a & d & rest' & Hqs & _ & [Hskip|Hvisit]);
      rewrite Hq in Hqs; injection Hqs as <- <- <-.
    + destruct Hskip as (_ & _ & Hq' & _ & Hf). auto.
    + destruct Hvisit as (_ & _ & _ & _ & Hf & children & Hq' & Hch).
      destruct (snd (analyze cfg w' (stats s') address depth)) as [res|] eqn:E.
      * right. exists res. split; [reflexivity|]. split; [exact Hf|].
        split; [apply analyze_result in E; tauto|].
        eapply analyze_not_unscored. exact E.
      * left. rewrite app_nil_r in Hf. split; [|exact Hf].
        destruct Hch as [->|(res & l & Hres & _)]; [|discriminate].
        rewrite Hq'. apply app_nil_r.
Qed.

End Crawl.

End CrawlerFacts.

(** ** Detectors *)

Lemma count_paths_nonneg es k used cur target :
  (0 <= count_paths es k used cur target)%Z.
Proof.
  revert used cur. induction k as [|k IH]; intros used cur; simpl.
  - destruct (String.eqb cur target); lia.
  - assert (H : forall l acc, (0 <= acc)%Z ->
               (0 <= fold_left Z.add
                       (map (fun '(i, e) =>
                          if String.eqb (tr_src e) cur
                             && negb (existsb (Nat.eqb i) used)
                          then count_paths es k (i :: used) (tr_dst e) target
                          else 0%Z) l) acc)%Z).
    { induction l as [|[i e] l IHl]; intros acc Hacc; simpl; [exact Hacc|].
      apply IHl.
      destruct (String.eqb (tr_src e) cur && negb (existsb (Nat.eqb i) used));
        [pose proof (IH (i :: used) (tr_dst e))|]; lia. }
    apply H. lia.
Qed.

Lemma count_cycles_nonneg g address : (0 <= count_cycles g address)%Z.
Proof.
  unfold count_cycles.
  pose proof (count_paths_nonneg (indexed (transfers g)) 2 [] address address).
  pose proof (count_paths_nonneg (indexed (transfers g)) 3 [] address address).
  pose proof (count_paths_nonneg (indexed (transfers g)) 4 [] address address).
  lia.
Qed.

Lemma find_circular_txns_found g time k address node score :
  addresses g !! address = Some node ->
  (1 <= count_cycles g address)%Z ->
  circular_score (count_cycles g address) = score ->
  0 < score ->
  find_circular_txns g time k address
  = (_create_alert g (time k) address "CIRCULARITY" score
       (DCircularity (count_cycles g address)),
     S k, [(address, score)]).
Proof.
  intros Hnode Hc Hs Hpos. unfold find_circular_txns, circular_query.
  rewrite Hnode.
  destruct (count_cycles g address =? 0)%Z eqn:E; [apply Z.eqb_eq in E; lia|].
  rewrite Hs. unfold positive. rewrite filter_cons, filter_nil. cbn [row_score].
  destruct (decide (Qgtb score 0)) as [_|Hn]; [reflexivity|].
  exfalso. apply Hn. apply Is_true_true. unfold Qgtb.
  apply negb_true_iff, Qle_bool_false. exact Hpos.
Qed.

Lemma triangle_cycles (g : Graph) (A B C : string) (r1 r2 r3 : Transfer) :
  transfers g = [r1; r2; r3] ->
  tr_src r1 = A -> tr_dst r1 = B ->
  tr_src r2 = B -> tr_dst r2 = C ->
  tr_src r3 = C -> tr_dst r3 = A ->
  A <> B -> B <> C -> C <> A ->
  count_cycles g A = 1%Z.
Proof.
  intros Ht H1 H2 H3 H4 H5 H6 HAB HBC HCA.
  unfold count_cycles. rewrite Ht. unfold indexed.
  cbn [length seq combine count_paths map fold_left].
  rewrite H1, H2, H3, H4, H5, H6.
  assert (EAB : String.eqb A B = false) by (apply String.eqb_neq; congruence).
  assert (EBA : String.eqb B A = false) by (apply String.eqb_neq; congruence).
  assert (EBC : String.eqb B C = false) by (apply String.eqb_neq; congruence).
  assert (ECB : String.eqb C B = false) by (apply String.eqb_neq; congruence).
  assert (ECA : String.eqb C A = false) by (apply String.eqb_neq; congruence).
  assert (EAC : String.eqb A C = false) by (apply String.eqb_neq; congruence).
  rewrite !String.eqb_refl, ?EAB, ?EBA, ?EBC, ?ECB, ?ECA, ?EAC.
  reflexivity.
Qed.

Lemma merge_alert_In new l : In new (merge_alert new l).
Proof.
  unfold merge_alert.
  destruct (existsb _ l) eqn:E.
  - apply existsb_exists in E as (al & Hin & Hhit).
    apply in_map_iff. exists al. rewrite Hhit. auto.
  - apply in_app_iff. right. left. reflexivity.
Qed.

(** C8, as the code has it. [cycles] is the number of paths of 2 to 4
    transfers that lead from the address back to it and use no transfer
    twice; such a path may pass through the address itself on its way, so
    [cycles] is not the number of directed cycles through the address.
    For an address of the store the Circularity detector emits nothing
    when [cycles] is 0 and otherwise one CIRCULARITY alert carrying
    [cycles], with score 20 when [cycles] is 1, 35 when it is 2 and 50
    when it is 3 or more. When the transfers of the store are A -> B,
    B -> C and C -> A between three different addresses (of equal value),
    [cycles] is 1 and the score 20. *)
Theorem circularity_tiers (g : Graph) (time : Clock) (k : nat) (address : string)
    (node : AddressNode) :
  addresses g !! address = Some node ->
  let cycles := count_cycles g address in
  let emitted score :=
    find_circular_txns g time k address
    = (_create_alert g (time k) address "CIRCULARITY" score
         (DCircularity cycles),
       S k, [(address, score)])
    /\ In (mkAlert "CIRCULARITY" address (millisecond time k) score
             (DCircularity cycles))
         (alerts (fst (fst (find_circular_txns g time k address)))) in
  (0 <= cycles)%Z
  /\ (cycles = 0%Z -> find_circular_txns g time k address = (g, k, []))
  /\ (cycles = 1%Z -> emitted 20)
  /\ (cycles = 2%Z -> emitted 35)
  /\ ((3 <= cycles)%Z -> emitted 50)
  /\ (forall B C r1 r2 r3,
        transfers g = [r1; r2; r3] ->
        tr_src r1 = address -> tr_dst r1 = B ->
        tr_src r2 = B -> tr_dst r2 = C ->
        tr_src r3 = C -> tr_dst r3 = address ->
        address <> B -> B <> C -> C <> address ->
        tr_value_sum r1 == tr_value_sum r2 ->
        tr_value_sum r2 == tr_value_sum r3 ->
        cycles = 1%Z /\ emitted 20).
Proof.
  intros Hnode. cbv zeta.
  assert (Hemit : forall score,
            (1 <= count_cycles g address)%Z ->
            circular_score (count_cycles g address) = score ->
            0 < score ->
            find_circular_txns g time k address
            = (_create_alert g (time k) address "CIRCULARITY" score
                 (DCircularity (count_cycles g address)),
               S k, [(address, score)])
            /\ In (mkAlert "CIRCULARITY" address (millisecond time k) score
                     (DCircularity (count_cycles g address)))
                 (alerts (fst (fst (find_circular_txns g time k address))))).
  { intros score Hc Hs Hpos.
    rewrite (find_circular_txns_found g time k address node score Hnode Hc Hs Hpos).
    split; [reflexivity|]. cbn [fst]. unfold _create_alert. cbn [alerts].
    apply merge_alert_In. }
  split; [apply count_cycles_nonneg|].
  split.
  { intros H0. unfold find_circular_txns, circular_query.
    rewrite Hnode, H0. reflexivity. }
  split.
  { intros H1. apply Hemit; [lia|rewrite H1; reflexivity|reflexivity]. }
  split.
  { intros H2. apply Hemit; [lia|rewrite H2; reflexivity|reflexivity]. }
  split.
  { intros H3. apply Hemit; [lia| |reflexivity].
    unfold circular_score.
    destruct (3 <=? count_cycles g address)%Z eqn:E; [reflexivity|].
    apply Z.leb_gt in E. lia. }
  intros B C r1 r2 r3 Ht S1 D1 S2 D2 S3 D3 HAB HBC HCA _ _.
  pose proof (triangle_cycles g address B C r1 r2 r3 Ht S1 D1 S2 D2 S3 D3 HAB HBC HCA)
    as H1.
  split; [exact H1|].
  apply Hemit; [lia|rewrite H1; reflexivity|reflexivity].
Qed.

Lemma circularity_tiers_witness :
  addresses Examples.triangle !! "0xa"
  = Some (mkAddress (Some 1699990000%Z) (Some 1699990200%Z)
            (Some (0 + inject_Z Examples.eth / inject_Z (10 ^ 18)))
            (Some (0 + inject_Z Examples.eth / inject_Z (10 ^ 18)))
            None None None None None None None None)
  /\ count_cycles Examples.triangle "0xa" = 1%Z
  /\ find_circular_txns Examples.triangle (Deployment.readings_from Examples.t0)
       0 "0xa"
     = (_create_alert Examples.triangle
          (Deployment.readings_from Examples.t0 0%nat) "0xa" "CIRCULARITY" 20
          (DCircularity (count_cycles Examples.triangle "0xa")),
        1%nat, [("0xa", 20)]).
Proof.
  assert (Hnode : addresses Examples.triangle !! "0xa"
            = Some (mkAddress (Some 1699990000%Z) (Some 1699990200%Z)
                      (Some (0 + inject_Z Examples.eth / inject_Z (10 ^ 18)))
                      (Some (0 + inject_Z Examples.eth / inject_Z (10 ^ 18)))
                      None None None None None None None None))
    by (vm_compute; reflexivity).
  assert (Hc : count_cycles Examples.triangle "0xa" = 1%Z)
    by (vm_compute; reflexivity).
  split; [exact Hnode|]. split; [exact Hc|].
  pose proof (circularity_tiers Examples.triangle
                (Deployment.readings_from Examples.t0) 0 "0xa" _ Hnode) as H.
  cbv zeta beta in H. destruct H as (_ & _ & H1 & _).
  exact (proj1 (H1 Hc)).
Defined.

(** C8 fails as stated. Address 0xa sent one ether to 0xb and one to 0xc
    and got one back from each: exactly two directed cycles, 0xa -> 0xb ->
    0xa and 0xa -> 0xc -> 0xa, return to it. The query also matches the
    two paths of four transfers that run through both of them, one after
    the other, so the detector reports [cycles = 4] and the score 50, not
    35. *)
Lemma two_cycles_score_50 :
  map (fun r => (tr_src r, tr_dst r)) (transfers Examples.two_loops)
  = [("0xa", "0xb"); ("0xb", "0xa"); ("0xa", "0xc"); ("0xc", "0xa")]
  /\ spec_directed_cycles Examples.two_loops "0xa" = 2%Z
  /\ count_cycles Examples.two_loops "0xa" = 4%Z
  /\ snd (find_circular_txns Examples.two_loops
            (Deployment.readings_from Examples.t0) 0 "0xa")
     = [("0xa", 50)]
  /\ alerts (fst (fst (find_circular_txns Examples.two_loops
                         (Deployment.readings_from Examples.t0) 0 "0xa")))
     = [mkAlert "CIRCULARITY" "0xa" 1700000000000 50 (DCircularity 4)]
  /\ ~ 50 == 35.
Proof.
  split; [vm_compute; reflexivity|].
  split; [vm_compute; reflexivity|].
  split; [vm_compute; reflexivity|].
  split; [vm_compute; reflexivity|].
  split; [vm_compute; reflexivity|].
  intros H. vm_compute in H. discriminate H.
Qed.

Lemma emit_one alert_type time k r g :
  emit alert_type time k [r] g
  = (_create_alert g (time k) (row_address r) alert_type (row_score r)
       (row_details r),
     S k, [(row_address r, row_score r)]).
Proof. reflexivity. Qed.

(** The score the Structuring query returns for [cnt >= 5] deposits. *)
Lemma structuring_score g time k address node :
  addresses g !! address = Some node ->
  let ts := small_deposits g address (1#2)
              (py_int (time k) - 3 * 24 * 3600)%Z in
  (5 <= zlen ts)%Z ->
  exists score,
    detect_structuring g time k address
    = (_create_alert g (time (S k)) address "STRUCTURING" score (DStructuring 3),
       S (S k), [(address, score)])
    /\ score == 4 * inject_Z (zlen ts)
                + (if Qgtb (Qsum (map tx_value ts)) 1 then 10 else 0).
Proof.
  intros Hnode ts Hcnt. unfold detect_structuring, structuring_query.
  rewrite Hnode. fold ts.
  destruct ts as [|t ts'] eqn:Ets; [unfold zlen in Hcnt; simpl in Hcnt; lia|].
  rewrite <- Ets in *.
  assert ((5 <=? zlen ts)%Z = true) as -> by (apply Z.leb_le; exact Hcnt).
  rewrite emit_one. cbn [row_address row_score row_details].
  eexists. split; [reflexivity|].
  destruct (Qgtb (Qsum (map tx_value ts)) 1); field.
Qed.

(** C2. A store in which address 0xa received 26 deposits of 0.01 ether
    within the last three days: the Structuring detector emits, and
    stores, an alert whose score is 104, above 100. In general the score
    for [cnt >= 5] small deposits is [4 * cnt] plus the bonus, with no
    upper bound, so it exceeds 100 as soon as [cnt > 25]. *)
Theorem structuring_score_exceeds_100 :
  (exists score,
     snd (detect_structuring Examples.deposits
            (Deployment.readings_from Examples.t0) 0 "0xa")
     = [("0xa", score)]
     /\ In (mkAlert "STRUCTURING" "0xa" 1700000000001 score (DStructuring 3))
          (alerts (fst (fst (detect_structuring Examples.deposits
                               (Deployment.readings_from Examples.t0) 0 "0xa"))))
     /\ zlen (small_deposits Examples.deposits "0xa" (1#2)
                (py_int Examples.t0 - 3 * 24 * 3600)%Z) = 26%Z
     /\ score == 104
     /\ ~ score <= 100)
  /\ (forall g time k address node,
        addresses g !! address = Some node ->
        let ts := small_deposits g address (1#2)
                    (py_int (time k) - 3 * 24 * 3600)%Z in
        (25 < zlen ts)%Z ->
        exists score,
          snd (detect_structuring g time k address) = [(address, score)]
          /\ 100 < score).
Proof.
  split.
  - eexists. split; [vm_compute; reflexivity|].
    split; [vm_compute; left; reflexivity|].
    split; [vm_compute; reflexivity|].
    split; [reflexivity|]. intros H. vm_compute in H. apply H. reflexivity.
  - intros g time k address node Hnode ts Hcnt.
    destruct (structuring_score g time k address node Hnode) as (score & Hd & Hs);
      [fold ts; lia|].
    exists score. rewrite Hd. split; [reflexivity|].
    fold ts in Hs. rewrite Hs.
    assert (26 <= inject_Z (zlen ts)).
    { change 26 with (inject_Z 26). rewrite <- Zle_Qle. lia. }
    destruct (Qgtb (Qsum (map tx_value ts)) 1); lra.
Qed.

(** ** Re-running the pipeline *)

Lemma same_features_refl n : same_features n n.
Proof. unfold same_features. tauto. Qed.

Lemma same_features_trans n1 n2 n3 :
  same_features n1 n2 -> same_features n2 n3 -> same_features n1 n3.
Proof. unfold same_features. intuition congruence. Qed.

Lemma same_features_mark now n : same_features n (set_alert_mark now n).
Proof. unfold same_features, set_alert_mark. simpl. tauto. Qed.

Lemma appended_between_refl time k g : appended_between time k k g g.
Proof.
  unfold appended_between. repeat split; auto.
  - exists []. rewrite app_nil_r. split; [reflexivity|constructor].
  - intros x n H. exists n. split; [exact H|apply same_features_refl].
Qed.

Lemma created_between_wider time k k' i i' al :
  (k <= i)%nat -> (i' <= k')%nat ->
  created_between time i i' al -> created_between time k k' al.
Proof. intros H1 H2 (j & Hj & Hn). exists j. split; [lia|exact Hn]. Qed.

Lemma appended_between_later time k i i' g g' :
  (i <= i')%nat ->
  appended_between time k i g g' -> appended_between time k i' g g'.
Proof.
  intros Hle (Htx & Htr & (new & Hal & Hnew) & Hnodes).
  split; [exact Htx|]. split; [exact Htr|]. split; [|exact Hnodes].
  exists new. split; [exact Hal|].
  eapply Forall_impl; [exact Hnew|].
  intros al. apply created_between_wider; lia.
Qed.

Lemma merge_alert_keeps_old (P : Alert -> Prop) (a : Alert) (old new : list Alert) :
  (forall al, In al old -> al_now al <> al_now a) ->
  Forall P new -> P a ->
  exists new',
    merge_alert a (old ++ new) = old ++ new' /\ Forall P new'.
Proof.
  intros Hold Hnew Ha. unfold merge_alert.
  destruct (existsb _ (old ++ new)).
  - exists (map (fun al => if same_alert_id (al_type a) (al_address a) (al_now a) al
                           then a else al) new).
    split.
    + rewrite map_app. f_equal.
      rewrite <- (map_id old) at 2. apply map_ext_in.
      intros al Hin.
      destruct (same_alert_id _ _ _ al) eqn:E; [|reflexivity].
      apply same_alert_id_true in E as (_ & _ & E). apply Hold in Hin. congruence.
    + apply List.Forall_forall. intros al Hin.
      apply in_map_iff in Hin as (al0 & <- & Hin0).
      rewrite List.Forall_forall in Hnew.
      destruct (same_alert_id _ _ _ al0); [exact Ha|auto].
  - exists (new ++ [a]). split; [symmetry; apply app_assoc|].
    apply Forall_app. split; [exact Hnew|]. constructor; [exact Ha|constructor].
Qed.

Lemma create_alert_appended time k i g g' address alert_type score details :
  fresh_from time k g -> (k <= i)%nat ->
  appended_between time k i g g' ->
  appended_between time k (S i) g
    (_create_alert g' (time i) address alert_type score details).
Proof.
  intros Hfresh Hle (Htx & Htr & (new & Hal & Hnew) & Hnodes).
  unfold appended_between, _create_alert.
  cbn [transactions transfers alerts addresses].
  split; [exact Htx|]. split; [exact Htr|]. split.
  - rewrite Hal.
    destruct (merge_alert_keeps_old (created_between time k (S i))
                (mkAlert alert_type address (py_int (time i * 1000)) score details)
                (alerts g) new) as (new' & Hm & Hf).
    + intros al Hin. cbn [al_now]. apply (Hfresh al i Hin Hle).
    + eapply Forall_impl; [exact Hnew|].
      intros al. apply created_between_wider; lia.
    + exists i. split; [lia|reflexivity].
    + exists new'. auto.
  - intros x n Hx. destruct (Hnodes x n Hx) as (n' & Hx' & Hsf).
    destruct (decide (x = address)) as [->|Hne].
    + rewrite lookup_insert_eq. rewrite Hx'. cbn [default].
      eexists. split; [reflexivity|].
      eapply same_features_trans; [exact Hsf|apply same_features_mark].
    + rewrite lookup_insert_ne by congruence. eauto.
Qed.

Lemma merge_alert_keeps_key (a : Alert) (l : list Alert) (x : string) (now : Z) :
  (exists al, In al l /\ al_address al = x /\ al_now al = now) ->
  exists al, In al (merge_alert a l) /\ al_address al = x /\ al_now al = now.
Proof.
  intros (al & Hin & Hx & Hn). unfold merge_alert.
  destruct (existsb _ l).
  - destruct (same_alert_id (al_type a) (al_address a) (al_now a) al) eqn:E.
    + exists a. split.
      * apply in_map_iff. exists al. rewrite E. auto.
      * apply same_alert_id_true in E as (_ & Ea & En). split; congruence.
    + exists al. split; [|auto].
      apply in_map_iff. exists al. rewrite E. auto.
  - exists al. split; [apply in_app_iff; auto|auto].
Qed.

Lemma emit_effect alert_type time rows :
  forall i g, detector_effect time g i (emit alert_type time i rows g).
Proof.
  induction rows as [|r rows IH]; intros i g.
  - cbn [emit]. unfold detector_effect.
    split; [lia|]. split; [auto|]. split; [intros x s []|auto].
  - cbn [emit].
    specialize (IH (S i) (_create_alert g (time i) (row_address r) alert_type
                            (row_score r) (row_details r))).
    destruct (emit alert_type time (S i) rows _) as [[g2 i2] results].
    unfold detector_effect in *.
    destruct IH as (Hle & Happ & Hst & Hkeep).
    split; [lia|]. split; [|split].
    + intros k g0 Hfresh Hk H. apply Happ; [exact Hfresh|lia|].
      apply create_alert_appended; assumption.
    + intros x s [Heq|Hin].
      * injection Heq as <- <-.
        destruct (Hkeep (row_address r) (py_int (time i * 1000))) as (al & H1 & H2 & H3).
        { eexists. split; [unfold _create_alert; cbn [alerts]; apply merge_alert_In|].
          split; reflexivity. }
        exists al. split; [exact H1|]. split; [exact H2|].
        exists i. split; [lia|exact H3].
      * destruct (Hst x s Hin) as (al & H1 & H2 & H3).
        exists al. split; [exact H1|]. split; [exact H2|].
        eapply created_between_wider; [| |exact H3]; lia.
    + intros x now Hx. apply Hkeep. unfold _create_alert. cbn [alerts].
      apply merge_alert_keeps_key. exact Hx.
Qed.

(** A detector that reads the clock once for its time window before it
    emits. *)
Lemma detector_effect_later time g i r :
  detector_effect time g (S i) r -> detector_effect time g i r.
Proof.
  destruct r as [[g2 i2] res]. unfold detector_effect.
  intros (Hle & Happ & Hst & Hkeep).
  split; [lia|]. split; [|split; [|exact Hkeep]].
  - intros k g0 Hfresh Hk H. apply Happ; [exact Hfresh|lia|].
    eapply appended_between_later; [|exact H]. lia.
  - intros x s Hin. destruct (Hst x s Hin) as (al & H1 & H2 & H3).
    exists al. split; [exact H1|]. split; [exact H2|].
    eapply created_between_wider; [| |exact H3]; lia.
Qed.

Lemma detect_structuring_effect time g i address :
  detector_effect time g i (detect_structuring g time i address).
Proof. apply detector_effect_later, emit_effect. Qed.
Lemma detect_peel_chains_effect time g i address :
  detector_effect time g i (detect_peel_chains g time i address).
Proof. apply emit_effect. Qed.
Lemma find_mixer_activity_effect time g i address :
  detector_effect time g i (find_mixer_activity g time i address).
Proof. apply emit_effect. Qed.
Lemma run_taint_analysis_effect time g i address r :
  run_taint_analysis g time i address = Some r -> detector_effect time g i r.
Proof.
  unfold run_taint_analysis. destruct (taint_query g address); [|discriminate].
  intros H. injection H as <-. apply emit_effect.
Qed.
Lemma find_circular_txns_effect time g i address :
  detector_effect time g i (find_circular_txns g time i address).
Proof. apply emit_effect. Qed.
Lemma detect_velocity_alert_effect time g i address :
  detector_effect time g i (detect_velocity_alert g time i address).
Proof. apply detector_effect_later, emit_effect. Qed.
Lemma detect_dormant_reactivation_effect time g i address :
  detector_effect time g i (detect_dormant_reactivation g time i address).
Proof. apply detector_effect_later, emit_effect. Qed.
Lemma detect_round_amounts_effect time g i address :
  detector_effect time g i (detect_round_amounts g time i address).
Proof. apply detector_effect_later, emit_effect. Qed.
Lemma detect_timing_patterns_effect time g i address :
  detector_effect time g i (detect_timing_patterns g time i address).
Proof. apply detector_effect_later, emit_effect. Qed.
Lemma detect_wash_trading_effect time g i address :
  detector_effect time g i (detect_wash_trading g time i address).
Proof. apply detector_effect_later, emit_effect. Qed.

(** The state of a run after some of its detectors: the readings used,
    what was appended, and an alert in the store for every detection
    reported so far. *)
Lemma effect_step time k g0 g i seen g2 i2 res :
  fresh_from time k g0 ->
  ((k <= i)%nat
   /\ appended_between time k i g0 g
   /\ (forall x s, In (x, s) seen ->
         exists al, In al (alerts g) /\ al_address al = x
                    /\ created_between time k i al)) ->
  detector_effect time g i (g2, i2, res) ->
  (k <= i2)%nat
  /\ appended_between time k i2 g0 g2
  /\ (forall x s, In (x, s) (seen ++ res) ->
        exists al, In al (alerts g2) /\ al_address al = x
                   /\ created_between time k i2 al).
Proof.
  intros Hfresh (Hk & Happ & Hseen) (Hle & Happ' & Hst & Hkeep).
  split; [lia|]. split; [apply Happ'; assumption|].
  intros x s Hin. apply in_app_iff in Hin as [Hin|Hin].
  - destruct (Hseen x s Hin) as (al & H1 & H2 & j & Hj & Hn).
    destruct (Hkeep x (al_now al)) as (al' & H1' & H2' & H3'); [eauto|].
    exists al'. split; [exact H1'|]. split; [exact H2'|].
    exists j. split; [lia|congruence].
  - destruct (Hst x s Hin) as (al & H1 & H2 & H3).
    exists al. split; [exact H1|]. split; [exact H2|].
    eapply created_between_wider; [| |exact H3]; lia.
Qed.

Lemma run_all_analytics_effect g time k address k' g' out :
  fresh_from time k g ->
  run_all_analytics g time k address = (k', Some (g', out)) ->
  (k <= k')%nat
  /\ appended_between time k k' g g'
  /\ (forall alert_type detections x s,
        In (alert_type, detections) out -> In (x, s) detections ->
        exists al, In al (alerts g') /\ al_address al = x
                   /\ created_between time k k' al).
Proof.
  intros Hfresh. unfold run_all_analytics.
  pose proof (detect_structuring_effect time g k address) as E1.
  destruct (detect_structuring g time k address) as [[g1 i1] r1].
  pose proof (detect_peel_chains_effect time g1 i1 address) as E2.
  destruct (detect_peel_chains g1 time i1 address) as [[g2 i2] r2].
  pose proof (find_mixer_activity_effect time g2 i2 address) as E3.
  destruct (find_mixer_activity g2 time i2 address) as [[g3 i3] r3].
  destruct (run_taint_analysis g3 time i3 address) as [[[g4 i4] r4]|] eqn:E4;
    [|discriminate].
  apply run_taint_analysis_effect in E4.
  pose proof (find_circular_txns_effect time g4 i4 address) as E5.
  destruct (find_circular_txns g4 time i4 address) as [[g5 i5] r5].
  pose proof (detect_velocity_alert_effect time g5 i5 address) as E6.
  destruct (detect_velocity_alert g5 time i5 address) as [[g6 i6] r6].
  pose proof (detect_dormant_reactivation_effect time g6 i6 address) as E7.
  destruct (detect_dormant_reactivation g6 time i6 address) as [[g7 i7] r7].
  pose proof (detect_round_amounts_effect time g7 i7 address) as E8.
  destruct (detect_round_amounts g7 time i7 address) as [[g8 i8] r8].
  pose proof (detect_timing_patterns_effect time g8 i8 address) as E9.
  destruct (detect_timing_patterns g8 time i8 address) as [[g9 i9] r9].
  pose proof (detect_wash_trading_effect time g9 i9 address) as E10.
  destruct (detect_wash_trading g9 time i9 address) as [[g10 i10] r10].
  intros H. injection H as <- <- <-.
  assert (H0 : (k <= k)%nat
               /\ appended_between time k k g g
               /\ (forall x s, In (x, s) (@nil (string * Q)) ->
                     exists al, In al (alerts g) /\ al_address al = x
                                /\ created_between time k k al)).
  { split; [lia|]. split; [apply appended_between_refl|intros x s []]. }
  pose proof (effect_step _ _ _ _ _ _ _ _ _ Hfresh H0 E1) as H1.
  pose proof (effect_step _ _ _ _ _ _ _ _ _ Hfresh H1 E2) as H2.
  pose proof (effect_step _ _ _ _ _ _ _ _ _ Hfresh H2 E3) as H3.
  pose proof (effect_step _ _ _ _ _ _ _ _ _ Hfresh H3 E4) as H4.
  pose proof (effect_step _ _ _ _ _ _ _ _ _ Hfresh H4 E5) as H5.
  pose proof (effect_step _ _ _ _ _ _ _ _ _ Hfresh H5 E6) as H6.
  pose proof (effect_step _ _ _ _ _ _ _ _ _ Hfresh H6 E7) as H7.
  pose proof (effect_step _ _ _ _ _ _ _ _ _ Hfresh H7 E8) as H8.
  pose proof (effect_step _ _ _ _ _ _ _ _ _ Hfresh H8 E9) as H9.
  pose proof (effect_step _ _ _ _ _ _ _ _ _ Hfresh H9 E10) as (Hk & Happ & Hall).
  split; [exact Hk|]. split; [exact Happ|].
  intros alert_type detections x s Hin Hx.
  apply (Hall x s). cbn [app].
  repeat (destruct Hin as [Hin|Hin];
          [injection Hin as <- <-; rewrite ?in_app_iff; tauto|]).
  destruct Hin.
Qed.

Lemma get_address_risk_score_nonneg g x :
  0 <= snd (get_address_risk_score g x).
Proof.
  unfold get_address_risk_score.
  destruct (addresses g !! x); cbn [snd]; [apply risk_score_of_range|lra].
Qed.

(** C1, as the code has it. Every [_create_alert] reads the clock
    itself. A run of the pipeline that completes, and whose readings fall
    in milliseconds that no alert of the store bears (every later run),
    leaves each already-created alert, every transaction and every
    transfer as they were and appends alerts created at readings of this
    run, one at least for every address it reports - whether or not an
    earlier run already reported the same evidence. For every address the
    alert count can only grow, and the score the Risk Scorer then computes
    is at least what it was before the run. *)
Theorem pipeline_rerun_appends (g : Graph) (time : Clock) (k k' : nat)
    (address : string) (g' : Graph) (out : Analytics) :
  fresh_from time k g ->
  run_all_analytics g time k address = (k', Some (g', out)) ->
  (exists new,
     alerts g' = alerts g ++ new
     /\ Forall (fun al => created_between time k k' al
                          /\ ~ In al (alerts g)) new)
  /\ transactions g' = transactions g
  /\ transfers g' = transfers g
  /\ (forall alert_type detections x s,
        In (alert_type, detections) out ->
        In (x, s) detections ->
        exists al, In al (alerts g') /\ ~ In al (alerts g)
                   /\ al_address al = x /\ created_between time k k' al)
  /\ (forall x,
        (zlen (alerts_for g x) <= zlen (alerts_for g' x))%Z
        /\ snd (get_address_risk_score g x) <= snd (get_address_risk_score g' x)).
Proof.
  intros Hfresh Hrun.
  pose proof (run_all_analytics_effect g time k address k' g' out Hfresh Hrun)
    as (Hk & (Htx & Htr & (new & Hal & Hnew) & Hnodes) & Hstored).
  assert (Hnot : forall al, created_between time k k' al -> ~ In al (alerts g)).
  { intros al (i & Hi & Hn) Hold. apply (Hfresh al i Hold); [lia|exact Hn]. }
  split.
  { exists new. split; [exact Hal|].
    rewrite List.Forall_forall in *. intros al Hin. split; auto. }
  split; [exact Htx|]. split; [exact Htr|]. split.
  { intros alert_type detections x s Hin Hx.
    destruct (Hstored _ _ _ _ Hin Hx) as (al & Hal' & Ha & Hn).
    exists al. repeat split; auto. }
  intros x.
  assert (Hcount : (zlen (alerts_for g x) <= zlen (alerts_for g' x))%Z).
  { unfold zlen, alerts_for. rewrite Hal, filter_app, length_app. lia. }
  split; [exact Hcount|].
  unfold get_address_risk_score at 1.
  destruct (addresses g !! x) as [n|] eqn:Hx.
  - destruct (Hnodes x n Hx) as (n' & Hx' & Hsf).
    unfold get_address_risk_score. rewrite Hx'. cbn [snd].
    destruct Hsf as (_ & _ & _ & _ & -> & -> & -> & -> & -> & _).
    apply risk_score_of_monotone. exact Hcount.
  - cbn [snd]. apply get_address_risk_score_nonneg.
Qed.

Lemma py_int_inject (x : Q) (z : Z) : x == inject_Z z -> py_int x = z.
Proof.
  intros H. unfold py_int.
  destruct (Qle_bool 0 x); rewrite H; [apply Qfloor_Z|apply Qceiling_Z].
Qed.

Lemma millisecond_readings (t : Q) (n : Z) (i : nat) :
  t * 1000 == inject_Z n ->
  millisecond (Deployment.readings_from t) i = (n + Z.of_nat i)%Z.
Proof.
  intros H. unfold millisecond, Deployment.readings_from, Deployment.read_latency.
  apply py_int_inject. rewrite inject_Z_plus, <- H. field.
Qed.

Lemma pipeline_rerun_appends_witness :
  fresh_from (Deployment.readings_from Examples.t1) 0 Examples.fan_in_once
  /\ exists k' g' out,
       run_all_analytics Examples.fan_in_once
         (Deployment.readings_from Examples.t1) 0 "0xa" = (k', Some (g', out))
       /\ transfers g' = transfers Examples.fan_in_once.
Proof.
  assert (H : fresh_from (Deployment.readings_from Examples.t1) 0
                Examples.fan_in_once).
  { intros al i Hin _. vm_compute in Hin. destruct Hin as [<-|[]].
    rewrite (millisecond_readings Examples.t1 1700000000100 i)
      by (vm_compute; reflexivity).
    cbn [al_now]. lia. }
  split; [exact H|].
  destruct (run_all_analytics Examples.fan_in_once
              (Deployment.readings_from Examples.t1) 0 "0xa")
    as [k' [[g' out]|]] eqn:E; [|exfalso; vm_compute in E; discriminate E].
  exists k', g', out. split; [reflexivity|].
  apply (proj1 (proj2 (proj2
           (pipeline_rerun_appends Examples.fan_in_once
              (Deployment.readings_from Examples.t1) 0 k' "0xa" g' out H E)))).
Defined.

(** C1 fails as stated. Address 0xa has ten senders. The pipeline is run
    on it twice, a tenth of a second apart within the same second, so with
    the same time windows and with no transaction or transfer added in
    between: both runs return the same detections, yet the second run
    stores a second MIXER_PATTERN alert for the evidence the first one
    reported, and the Risk Scorer's output moves from 10 to 20. *)
Lemma pipeline_rerun_not_idempotent :
  transactions Examples.fan_in_once = transactions Examples.fan_in
  /\ transfers Examples.fan_in_once = transfers Examples.fan_in
  /\ (exists out,
        option_map snd (snd (run_all_analytics Examples.fan_in
                               (Deployment.readings_from Examples.t0) 0 "0xa"))
        = Some out
        /\ option_map snd (snd (run_all_analytics Examples.fan_in_once
                                  (Deployment.readings_from Examples.t1) 0 "0xa"))
           = Some out)
  /\ alerts Examples.fan_in_once
     = [mkAlert "MIXER_PATTERN" "0xa" 1700000000001 40 (DMixer 10 0)]
  /\ alerts Examples.fan_in_twice
     = [mkAlert "MIXER_PATTERN" "0xa" 1700000000001 40 (DMixer 10 0);
        mkAlert "MIXER_PATTERN" "0xa" 1700000000101 40 (DMixer 10 0)]
  /\ snd (get_address_risk_score Examples.fan_in_once "0xa") == 10
  /\ snd (get_address_risk_score Examples.fan_in_twice "0xa") == 20
  /\ ~ snd (get_address_risk_score Examples.fan_in_twice "0xa")
       == snd (get_address_risk_score Examples.fan_in_once "0xa").
Proof.
  split; [vm_compute; reflexivity|].
  split; [vm_compute; reflexivity|].
  split; [eexists; split; vm_compute; reflexivity|].
  split; [vm_compute; reflexivity|].
  split; [vm_compute; reflexivity|].
  split; [vm_compute; reflexivity|].
  split; [vm_compute; reflexivity|].
  intros H. vm_compute in H. discriminate H.
Qed.

(** ** Auto-expansion *)

Module ExpansionFacts.

Import Expansion.

Lemma expansion_ok_unfold cfg parent parent_depth r :
  expansion_ok cfg parent parent_depth r <->
  (e_parent_address r = parent
   /\ e_depth r = (parent_depth + 1)%Z
   /\ (e_depth r <= expansion_depth cfg)%Z
   /\ a_address (e_analysis r) = e_address r
   /\ a_risk_score (e_analysis r) = _calculate_risk_score (a_alerts (e_analysis r))
   /\ match e_sub_expansions r with
      | None => a_risk_score (e_analysis r) < trigger_risk_score cfg
      | Some sub_expansions =>
          trigger_risk_score cfg <= a_risk_score (e_analysis r)
          /\ Forall (expansion_ok cfg (e_address r) (e_depth r)) sub_expansions
      end).
Proof.
  destruct r as [a p d an [subs|]]; cbn [expansion_ok e_parent_address e_depth
    e_analysis e_address e_sub_expansions]; [|tauto].
  assert (Hall : (fix all (l : list ExpansionResult) : Prop :=
                    match l with
                    | [] => True
                    | x :: l' => expansion_ok cfg a d x /\ all l'
                    end) subs
                 <-> Forall (expansion_ok cfg a d) subs).
  { induction subs as [|x subs IH].
    - split; [constructor|trivial].
    - rewrite Forall_cons, IH. tauto. }
  rewrite Hall. tauto.
Qed.

Section Expand.

Context {W : Type}.
Variable ingest : W -> string -> Z -> W * option Z.
Variable analytics_tx : W -> string -> W * option Analytics.
Variable connected_query :
  W -> string -> Q -> Z -> W * option (list (option string)).

Abbreviation full_analysis := (_full_analysis ingest analytics_tx).
Abbreviation each := (each_connected ingest analytics_tx).
Abbreviation expand := (_expand_from_address ingest analytics_tx connected_query).
Abbreviation run := (analyze_with_expansion ingest analytics_tx connected_query).

Lemma full_analysis_spec w address w' an :
  full_analysis w address = (w', Some an) ->
  a_address an = address
  /\ a_risk_score an = _calculate_risk_score (a_alerts an)
  /\ a_alert_count an = Crawler.count_alerts (a_alerts an).
Proof.
  unfold _full_analysis.
  destruct (ingest w address 500) as [w1 [ingested|]]; [|discriminate].
  destruct (ingested =? 0)%Z; [discriminate|].
  destruct (analytics_tx w1 address) as [w2 [analytics|]]; [|discriminate].
  intros H. injection H as _ <-. simpl. auto.
Qed.

Lemma each_connected_ok recurse cfg address depth :
  (depth + 1 <= expansion_depth cfg)%Z ->
  (forall w s a w' s' res,
     recurse w s a = Some (w', s', Some res) ->
     Forall (expansion_ok cfg a (depth + 1)) res) ->
  forall l w s acc w' s' res,
    Forall (expansion_ok cfg address depth) acc ->
    each recurse cfg address depth l w s acc = Some (w', s', Some res) ->
    Forall (expansion_ok cfg address depth) res.
Proof.
  intros Hd Hrec. induction l as [|conn l IH]; intros w s acc w' s' res Hacc H.
  - simpl in H. injection H as _ _ <-. exact Hacc.
  - cbn [each_connected] in H.
    destruct (bool_decide (conn ∈ expanded_addresses s)); [eauto|].
    destruct (full_analysis w conn) as [w1 [an|]] eqn:Ean; [|eauto].
    apply full_analysis_spec in Ean as (Haddr & Hscore & _).
    destruct (Qgeb (a_risk_score an) (trigger_risk_score cfg)) eqn:Hq.
    + destruct (recurse w1 (note_high_risk (note_analyzed conn s)) conn)
        as [[[w2 s2] [subs|]]|] eqn:Er; try discriminate.
      eapply IH; [|exact H].
      apply Forall_app. split; [exact Hacc|].
      constructor; [|constructor].
      apply expansion_ok_unfold. simpl.
      repeat split; auto.
      * apply Qgeb_ge. exact Hq.
      * eapply Hrec. exact Er.
    + eapply IH; [|exact H].
      apply Forall_app. split; [exact Hacc|].
      constructor; [|constructor].
      apply expansion_ok_unfold. simpl.
      repeat split; auto.
      apply Qle_bool_false. exact Hq.
Qed.

Lemma expand_ok cfg fuel :
  forall w s address depth w' s' res,
    expand fuel cfg w s address depth = Some (w', s', Some res) ->
    Forall (expansion_ok cfg address depth) res.
Proof.
  induction fuel as [|fuel IH]; intros w s address depth w' s' res H.
  - simpl in H. destruct (expansion_depth cfg <=? depth)%Z; [|discriminate].
    injection H as _ _ <-. constructor.
  - cbn [_expand_from_address] in H.
    destruct (expansion_depth cfg <=? depth)%Z eqn:Hg.
    { injection H as _ _ <-. constructor. }
    apply Z.leb_gt in Hg.
    destruct (_get_connected_addresses connected_query cfg w address)
      as [w1 [connected|]]; [|discriminate].
    eapply each_connected_ok; [| |constructor|exact H]; [lia|].
    intros w2 s2 a w3 s3 res' Hr. cbv beta in Hr. eapply IH. exact Hr.
Qed.

Lemma each_connected_total recurse cfg address depth :
  (forall w s a, recurse w s a <> None) ->
  forall l w s acc, each recurse cfg address depth l w s acc <> None.
Proof.
  intros Hrec. induction l as [|conn l IH]; intros w s acc; [discriminate|].
  cbn [each_connected].
  destruct (bool_decide (conn ∈ expanded_addresses s)); [apply IH|].
  destruct (full_analysis w conn) as [w1 [an|]]; [|apply IH].
  destruct (Qgeb (a_risk_score an) (trigger_risk_score cfg)); [|apply IH].
  destruct (recurse w1 (note_high_risk (note_analyzed conn s)) conn)
    as [[[w2 s2] [subs|]]|] eqn:Er; [apply IH|discriminate|].
  exfalso. eapply Hrec. exact Er.
Qed.

Lemma expand_total cfg fuel :
  forall w s address depth,
    (Z.to_nat (expansion_depth cfg - depth) <= fuel)%nat ->
    expand fuel cfg w s address depth <> None.
Proof.
  induction fuel as [|fuel IH]; intros w s address depth Hf.
  - simpl. destruct (expansion_depth cfg <=? depth)%Z eqn:Hg; [discriminate|].
    apply Z.leb_gt in Hg. lia.
  - cbn [_expand_from_address].
    destruct (expansion_depth cfg <=? depth)%Z eqn:Hg; [discriminate|].
    apply Z.leb_gt in Hg.
    destruct (_get_connected_addresses connected_query cfg w address)
      as [w1 [connected|]]; [|discriminate].
    apply each_connected_total. intros. apply IH. lia.
Qed.

(** C3, as the code has it. With fuel for [expansion_depth] levels the
    analysis ends. The score it compares with [trigger_risk_score], at the
    seed and at every node, is [_calculate_risk_score] of the node's
    pipeline result (the weighted alert counts), not the Risk Scorer's
    output. A seed whose score is below the trigger is not expanded; a
    node carries sub-expansions only when its score is at least the
    trigger; and every node is one level below its parent, at a depth of
    at most [expansion_depth]. *)
Theorem expansion_trigger_and_depth (fuel : nat) cfg (w : W)
    (initial_address : string) :
  (Z.to_nat (expansion_depth cfg) <= fuel)%nat ->
  exists w' s outcome,
    run fuel cfg w initial_address = Some (w', s, outcome)
    /\ forall r,
         outcome = Some r ->
         match r_initial_analysis r with
         | None => r_expansions r = [] /\ expansion_map s = ∅
         | Some a =>
             a_risk_score a = _calculate_risk_score (a_alerts a)
             /\ (a_risk_score a < trigger_risk_score cfg ->
                 r_expansions r = [] /\ expansion_map s = ∅)
         end
         /\ Forall (expansion_ok cfg initial_address 0) (r_expansions r).
Proof.
  intros Hfuel. unfold analyze_with_expansion.
  destruct (full_analysis w initial_address) as [w1 [an|]] eqn:Ean.
  - apply full_analysis_spec in Ean as (_ & Hscore & _).
    destruct (Qgeb (a_risk_score an) (trigger_risk_score cfg)) eqn:Hq.
    + match goal with
      | |- context [expand fuel cfg w1 ?s0 initial_address 0%Z] =>
          destruct (expand fuel cfg w1 s0 initial_address 0%Z)
            as [[[w2 s2] [res|]]|] eqn:Ex
      end.
      * do 3 eexists. split; [reflexivity|].
        intros r Hr. injection Hr as <-. simpl.
        split.
        -- split; [exact Hscore|]. intros Hlt. apply Qgeb_ge in Hq. lra.
        -- eapply expand_ok. exact Ex.
      * do 3 eexists. split; [reflexivity|]. intros r Hr. discriminate Hr.
      * exfalso. eapply expand_total; [|exact Ex].
        rewrite Z.sub_0_r. exact Hfuel.
    + do 3 eexists. split; [reflexivity|].
      intros r Hr. injection Hr as <-. simpl.
      split; [|constructor]. split; [exact Hscore|]. auto.
  - do 3 eexists. split; [reflexivity|].
    intros r Hr. injection Hr as <-. simpl.
    split; [|constructor]. auto.
Qed.

End Expand.

End ExpansionFacts.

Lemma expansion_trigger_and_depth_witness :
  (Z.to_nat (Expansion.expansion_depth Examples.default_expansion) <= 2)%nat
  /\ exists w' s outcome,
       Deployment.analyze_with_expansion Examples.hub_chain 2
         Examples.default_expansion Examples.hub_world "0xa"
       = Some (w', s, outcome).
Proof.
  assert (H : (Z.to_nat (Expansion.expansion_depth Examples.default_expansion)
               <= 2)%nat) by (vm_compute; lia).
  split; [exact H|].
  destruct (ExpansionFacts.expansion_trigger_and_depth
              (Deployment.ingest Examples.hub_chain) Deployment.analytics_tx
              Deployment.expansion_connected 2 Examples.default_expansion
              Examples.hub_world "0xa" H) as (w' & s & outcome & Hrun & _).
  exists w', s, outcome. exact Hrun.
Defined.

(** C3 fails as stated. Address 0xa has eleven senders, sent one ether to
    0xb, which is on a sanctions list, and got one back. Its pipeline
    result (one MIXER_PATTERN, one TAINT and one CIRCULARITY alert) gives
    the alert-weight score 75, which reaches the default trigger 70, so
    its eleven counterparties are expanded - while the Risk Scorer's
    output for 0xa, over the structural features and the alert bonus, is
    30, below the trigger. The taint query of this run joins 0xa and 0xb,
    two different nodes: 0xa itself bears no heavy alert.

    The same happens in a store that held no alert at all, with
    [trigger_score = 50]: the pipeline result (one MIXER_PATTERN and one
    CIRCULARITY alert) gives the alert-weight score 50 and the
    counterparties are expanded, while the Risk Scorer's output is 20. *)
Lemma expansion_below_full_risk_score :
  (exists w s r a counterparties,
     Deployment.analyze_with_expansion Examples.hub_chain 2
       Examples.default_expansion Examples.hub_world "0xa"
     = Some (w, s, Some r)
     /\ Expansion.r_initial_analysis r = Some a
     /\ Expansion.a_risk_score a == 75
     /\ Expansion.trigger_risk_score Examples.default_expansion == 70
     /\ Expansion.expansions_triggered (Expansion.stats s) = 1%Z
     /\ Expansion.expansion_map s !! "0xa" = Some counterparties
     /\ length counterparties = 11%nat
     /\ Expansion.total_addresses_analyzed (Expansion.stats s) = 11%Z
     /\ snd (get_address_risk_score (Deployment.graph w) "0xa") == 30
     /\ ~ Expansion.trigger_risk_score Examples.default_expansion
          <= snd (get_address_risk_score (Deployment.graph w) "0xa")
     /\ heavy_alert_addresses (Deployment.graph Examples.hub_world) = ["0xb"]
     /\ heavy_alert_addresses (Deployment.graph w) = ["0xb"]
     /\ Expansion.a_alerts a
        = [("structuring", []); ("peel_chains", []);
           ("mixer_activity", [("0xa", 40)]); ("taint", [("0xa", 50)]);
           ("circularity", [("0xa", 20)]); ("velocity_alert", []);
           ("dormant_reactivation", []); ("round_amounts", []);
           ("timing_patterns", []); ("wash_trading", [])])
  /\ (exists w s r a counterparties,
        Deployment.analyze_with_expansion Examples.hub_chain 2
          Examples.trigger_50 Examples.empty_world "0xa"
        = Some (w, s, Some r)
        /\ Expansion.r_initial_analysis r = Some a
        /\ Expansion.a_risk_score a == 50
        /\ Expansion.trigger_risk_score Examples.trigger_50 == 50
        /\ Expansion.expansions_triggered (Expansion.stats s) = 1%Z
        /\ Expansion.expansion_map s !! "0xa" = Some counterparties
        /\ length counterparties = 11%nat
        /\ snd (get_address_risk_score (Deployment.graph w) "0xa") == 20
        /\ ~ Expansion.trigger_risk_score Examples.trigger_50
             <= snd (get_address_risk_score (Deployment.graph w) "0xa")
        /\ alerts (Deployment.graph Examples.empty_world) = []
        /\ heavy_alert_addresses (Deployment.graph w) = []
        /\ Expansion.a_alerts a
           = [("structuring", []); ("peel_chains", []);
              ("mixer_activity", [("0xa", 40)]); ("taint", []);
              ("circularity", [("0xa", 20)]); ("velocity_alert", []);
              ("dormant_reactivation", []); ("round_amounts", []);
              ("timing_patterns", []); ("wash_trading", [])]).
Proof.
  split.
  - do 5 eexists.
    split; [vm_compute; reflexivity|].
    split; [vm_compute; reflexivity|].
    split; [vm_compute; reflexivity|].
    split; [vm_compute; reflexivity|].
    split; [vm_compute; reflexivity|].
    split; [vm_compute; reflexivity|].
    split; [vm_compute; reflexivity|].
    split; [vm_compute; reflexivity|].
    split; [vm_compute; reflexivity|].
    split; [intros H; vm_compute in H; apply H; reflexivity|].
    split; [vm_compute; reflexivity|].
    split; [vm_compute; reflexivity|].
    vm_compute; reflexivity.
  - do 5 eexists.
    split; [vm_compute; reflexivity|].
    split; [vm_compute; reflexivity|].
    split; [vm_compute; reflexivity|].
    split; [vm_compute; reflexivity|].
    split; [vm_compute; reflexivity|].
    split; [vm_compute; reflexivity|].
    split; [vm_compute; reflexivity|].
    split; [vm_compute; reflexivity|].
    split; [intros H; vm_compute in H; apply H; reflexivity|].
    split; [vm_compute; reflexivity|].
    split; [vm_compute; reflexivity|].
    vm_compute; reflexivity.
Qed.

(** ** The theorems at concrete runs *)

(** C5 fails as stated. [max_addresses] is any integer (the API passes
    on whatever it is given). With [max_addresses = -1] the loop never
    runs: the crawl ends with its seed still in the worklist and an empty
    visited set, whose size 0 exceeds [max_addresses]. *)
Lemma crawl_exceeds_negative_bound :
  let cfg := Crawler.run_crawler_config ["0xA"] 3 1 60 (-1) in
  exists final,
    Deployment.crawl Examples.hub_chain 0 cfg Examples.hub_world = Some final
    /\ Crawler.reaches (Deployment.ingest Examples.hub_chain)
         Deployment.analytics_tx Deployment.crawler_connected
         Deployment.sleep cfg (Examples.hub_world, Crawler.initial_state cfg) final
    /\ Crawler.visited (snd final) = ∅
    /\ Crawler.to_analyze (snd final) = [("0xa", 0%Z)]
    /\ ~ (Z.of_nat (size (Crawler.visited (snd final)))
          <= Crawler.max_addresses cfg)%Z.
Proof.
  cbv zeta. eexists. split; [vm_compute; reflexivity|].
  split; [constructor|].
  split; [reflexivity|]. split; [reflexivity|].
  intros H. vm_compute in H. apply H. reflexivity.
Qed.

Lemma worker_overwrites_cancelled_witness :
  exists c1 c2 w2,
    Automation.cancel_job Examples.demo_started Examples.demo_id = (c1, true)
    /\ Examples.demo_thread 20 c1 Examples.hub_world Examples.demo_id
         Examples.demo_params = Some (c2, w2)
    /\ exists job,
         Automation.get_job_status c2 Examples.demo_id = Some job
         /\ (Automation.status job = Automation.completed
             \/ Automation.status job = Automation.failed).
Proof.
  pose (c1 := fst (Automation.cancel_job Examples.demo_started Examples.demo_id)).
  assert (Hc : Automation.cancel_job Examples.demo_started Examples.demo_id
               = (c1, true)) by (vm_compute; reflexivity).
  destruct (Examples.demo_thread 20 c1 Examples.hub_world Examples.demo_id
              Examples.demo_params) as [[c2 w2]|] eqn:Ht;
    [|exfalso; vm_compute in Ht; discriminate Ht].
  exists c1, c2, w2. split; [exact Hc|]. split; [exact Ht|].
  exact (proj1 (proj2 (AutomationFacts.worker_overwrites_cancelled
                         (Deployment.ingest Examples.hub_chain)
                         Deployment.analytics_tx Deployment.crawler_connected
                         Deployment.expansion_connected Deployment.sleep
                         Examples.idle_monitor Examples.stamp "session failed"
                         20 Examples.demo_started c1 c2 Examples.hub_world w2
                         Examples.demo_id Examples.demo_params Hc Ht))).
Defined.

(** ** An address without history *)

Lemma no_path_without_transfers m txs als a b :
  a <> b ->
  shortest_path_length (mkGraph m txs [] als) a b = Some None.
Proof.
  intros Hne. unfold shortest_path_length.
  destruct (String.eqb a b) eqn:E; [apply String.eqb_eq in E; contradiction|].
  reflexivity.
Qed.

Lemma no_paths_without_transfers m txs als a bads :
  ~ In a bads ->
  shortest_paths (mkGraph m txs [] als) a bads = Some [].
Proof.
  induction bads as [|b bads IH]; intros Hn; [reflexivity|].
  cbn [shortest_paths].
  rewrite no_path_without_transfers by (intros ->; apply Hn; left; reflexivity).
  rewrite IH by (intros Hin; apply Hn; right; exact Hin).
  reflexivity.
Qed.

Lemma taint_without_transfers m txs als time k address :
  ~ In address (heavy_alert_addresses (mkGraph m txs [] als)) ->
  run_taint_analysis (mkGraph m txs [] als) time k address
  = Some (mkGraph m txs [] als, k, []).
Proof.
  intros Hn. unfold run_taint_analysis, taint_query. cbn [addresses].
  destruct (m !! address); [|reflexivity].
  rewrite no_paths_without_transfers by exact Hn. reflexivity.
Qed.

(** With no transaction and no transfer in the store, and no heavy alert
    on the address itself, no detector of the pipeline raises or emits:
    every list of the result is empty and the store is left as it was. *)
Lemma run_all_analytics_empty_history m als time k address :
  ~ In address (heavy_alert_addresses (mkGraph m [] [] als)) ->
  run_all_analytics (mkGraph m [] [] als) time k address
  = ((6 + k)%nat,
     Some (mkGraph m [] [] als,
           map (fun key => (key, []))
             (Crawler.scored_types ++ Crawler.unscored_types))).
Proof.
  intros Hn. unfold run_all_analytics.
  assert (E1 : forall i, detect_structuring (mkGraph m [] [] als) time i address
               = (mkGraph m [] [] als, S i, [])).
  { intros i. unfold detect_structuring, structuring_query. cbn [addresses].
    destruct (m !! address); reflexivity. }
  assert (E3 : forall i, find_mixer_activity (mkGraph m [] [] als) time i address
               = (mkGraph m [] [] als, i, [])).
  { intros i. unfold find_mixer_activity, mixer_query. cbn [addresses].
    destruct (m !! address); reflexivity. }
  assert (E5 : forall i, find_circular_txns (mkGraph m [] [] als) time i address
               = (mkGraph m [] [] als, i, [])).
  { intros i. unfold find_circular_txns, circular_query. cbn [addresses].
    destruct (m !! address); reflexivity. }
  assert (E7 : forall i,
               detect_dormant_reactivation (mkGraph m [] [] als) time i address
               = (mkGraph m [] [] als, S i, [])).
  { intros i. unfold detect_dormant_reactivation, dormant_query. cbn [addresses].
    destruct (m !! address) as [a|]; [|reflexivity].
    destruct (first_seen a), (last_seen a); try reflexivity.
    destruct (_ <? _)%Z; reflexivity. }
  rewrite E1. cbv beta iota.
  change (detect_peel_chains (mkGraph m [] [] als) time (S k) address)
    with (mkGraph m [] [] als, S k, @nil (string * Q)). cbv beta iota.
  rewrite E3. cbv beta iota.
  rewrite taint_without_transfers by exact Hn. cbv beta iota.
  rewrite E5. cbv beta iota.
  change (detect_velocity_alert (mkGraph m [] [] als) time (S k) address)
    with (mkGraph m [] [] als, S (S k), @nil (string * Q)). cbv beta iota.
  rewrite E7. reflexivity.
Qed.

(** * Further properties of the code *)

(** ** Normalisation and the Risk Scorer *)

(** [_normalize] over arbitrary bounds: degenerate bounds give 0;
    otherwise the result lies in [0, 1], is 0 up to [lo], 1 from [hi] on,
    and is non-decreasing in [x]. *)
Theorem normalize_properties (x y lo hi : Q) :
  (hi <= lo -> _normalize x lo hi = 0)
  /\ (lo < hi ->
      0 <= _normalize x lo hi <= 1
      /\ (x <= lo -> _normalize x lo hi == 0)
      /\ (hi <= x -> _normalize x lo hi == 1)
      /\ (x <= y -> _normalize x lo hi <= _normalize y lo hi)).
Proof.
  split.
  - intros H. unfold _normalize.
    apply Qle_bool_iff in H. rewrite H. reflexivity.
  - intros Hlt. unfold _normalize.
    assert (Qle_bool hi lo = false) as -> by (apply Qle_bool_false; exact Hlt).
    assert (Hd : 0 < hi - lo) by lra.
    assert (Hinv : 0 <= / (hi - lo)) by (apply Qinv_le_0_compat; lra).
    split; [split|split; [|split]].
    + apply Qle_shift_div_l; [exact Hd|]. qminmax; lra.
    + apply Qle_shift_div_r; [exact Hd|]. qminmax; lra.
    + intros Hx. assert (Qmax lo (Qmin hi x) == lo) as -> by (qminmax; lra).
      field. lra.
    + intros Hx. assert (Qmax lo (Qmin hi x) == hi) as -> by (qminmax; lra).
      field. lra.
    + intros Hxy. unfold Qdiv. apply Qmult_le_compat_r; [|exact Hinv].
      qminmax; lra.
Qed.

Lemma alerts_for_set_score g m x : alerts_for (with_addresses g m) x = alerts_for g x.
Proof. reflexivity. Qed.

Lemma get_address_risk_score_present g address n :
  addresses g !! address = Some n ->
  get_address_risk_score g address
  = (with_addresses g
       (<[address := set_risk_score
            (risk_score_of (coalesce (pagerank n) 0) (coalesce (degree n) 0)
               (coalesce (inDegree n) 0) (coalesce (outDegree n) 0)
               (coalesce (triangles n) 0) (zlen (alerts_for g address))) n]>
          (addresses g)),
     risk_score_of (coalesce (pagerank n) 0) (coalesce (degree n) 0)
       (coalesce (inDegree n) 0) (coalesce (outDegree n) 0)
       (coalesce (triangles n) 0) (zlen (alerts_for g address))).
Proof. intros H. unfold get_address_risk_score. rewrite H. reflexivity. Qed.

Lemma get_address_risk_score_absent g address :
  addresses g !! address = None -> get_address_risk_score g address = (g, 0).
Proof. intros H. unfold get_address_risk_score. rewrite H. reflexivity. Qed.

(** Scoring is a fixed point: the write-back of [risk_score] is not an
    input of the score, so scoring an address a second time returns the
    same score and leaves the store exactly as the first call left it; and
    scoring one address does not change the score of any other. *)
Theorem risk_scorer_idempotent (g : Graph) (address other : string) :
  let g1 := fst (get_address_risk_score g address) in
  let s1 := snd (get_address_risk_score g address) in
  get_address_risk_score g1 address = (g1, s1)
  /\ (other <> address ->
      snd (get_address_risk_score g1 other)
      = snd (get_address_risk_score g other)).
Proof.
  cbv zeta.
  destruct (addresses g !! address) as [n|] eqn:Ha.
  - rewrite (get_address_risk_score_present g address n Ha). cbn [fst snd].
    split.
    + erewrite get_address_risk_score_present
        by (cbn [addresses with_addresses]; apply lookup_insert_eq).
      rewrite alerts_for_set_score.
      unfold with_addresses. cbn [transactions transfers alerts addresses].
      rewrite insert_insert_eq. reflexivity.
    + intros Hne.
      destruct (addresses g !! other) as [n'|] eqn:Ho.
      * erewrite (get_address_risk_score_present _ other n')
          by (cbn [addresses with_addresses];
              rewrite lookup_insert_ne by congruence; exact Ho).
        rewrite (get_address_risk_score_present g other n' Ho). cbn [snd].
        rewrite alerts_for_set_score. reflexivity.
      * rewrite get_address_risk_score_absent
          by (cbn [addresses with_addresses];
              rewrite lookup_insert_ne by congruence; exact Ho).
        rewrite (get_address_risk_score_absent g other Ho). reflexivity.
  - rewrite (get_address_risk_score_absent g address Ha). cbn [fst snd].
    split; [apply get_address_risk_score_absent; exact Ha|reflexivity].
Qed.

(** The structural weights add up to 80 and the alert bonus to at most
    40: the score is at most [80 + 10 * alerts], so it cannot reach 100
    with fewer than two alerts; an address none of whose structural
    features is set scores exactly [min(40, 10 * alerts)]; and from four
    alerts on, further alerts no longer change the score. *)
Theorem risk_score_budget (pr dg ind outd tri : Q) (n m : Z) :
  (0 <= n)%Z ->
  risk_score_of pr dg ind outd tri n <= 80 + 10 * inject_Z n
  /\ risk_score_of pr dg ind outd tri n <= 80 + 40
  /\ risk_score_of 0 0 0 0 0 n == Qmin 40 (10 * inject_Z n)
  /\ ((4 <= n)%Z -> (4 <= m)%Z ->
      risk_score_of pr dg ind outd tri n == risk_score_of pr dg ind outd tri m).
Proof.
  intros Hn.
  assert (Hq : 0 <= inject_Z n) by (change 0 with (inject_Z 0); rewrite <- Zle_Qle; lia).
  unfold risk_score_of. cbv zeta.
  pose proof (proj2 (normalize_properties pr pr 0 (1#100)) ltac:(lra)) as (Hpr & _).
  pose proof (proj2 (normalize_properties dg dg 0 100) ltac:(lra)) as (Hdg & _).
  pose proof (proj2 (normalize_properties ind ind 0 60) ltac:(lra)) as (Hin & _).
  pose proof (proj2 (normalize_properties outd outd 0 60) ltac:(lra)) as (Hout & _).
  pose proof (proj2 (normalize_properties tri tri 0 50) ltac:(lra)) as (Htr & _).
  split; [|split; [|split]].
  - set (a := _normalize pr 0 (1#100)) in *. set (b := _normalize dg 0 100) in *.
    set (c := _normalize ind 0 60) in *. set (d := _normalize outd 0 60) in *.
    set (e := _normalize tri 0 50) in *. clearbody a b c d e.
    qminmax; lra.
  - set (a := _normalize pr 0 (1#100)) in *. set (b := _normalize dg 0 100) in *.
    set (c := _normalize ind 0 60) in *. set (d := _normalize outd 0 60) in *.
    set (e := _normalize tri 0 50) in *. clearbody a b c d e.
    qminmax; lra.
  - assert (E : forall hi, 0 < hi -> _normalize 0 0 hi == 0).
    { intros hi Hhi.
      apply (proj2 (normalize_properties 0 0 0 hi) Hhi). lra. }
    rewrite !E by lra. qminmax; lra.
  - intros H4 H4'.
    assert (4 <= inject_Z n) by (change 4 with (inject_Z 4); rewrite <- Zle_Qle; lia).
    assert (4 <= inject_Z m) by (change 4 with (inject_Z 4); rewrite <- Zle_Qle; lia).
    set (a := _normalize pr 0 (1#100)) in *. set (b := _normalize dg 0 100) in *.
    set (c := _normalize ind 0 60) in *. set (d := _normalize outd 0 60) in *.
    set (e := _normalize tri 0 50) in *. clearbody a b c d e.
    qminmax; lra.
Qed.

Lemma risk_score_budget_witness :
  (0 <= 3)%Z /\ risk_score_of 0 0 0 0 0 3 == Qmin 40 (10 * inject_Z 3).
Proof.
  split; [lia|].
  apply (proj1 (proj2 (proj2 (risk_score_budget 0 0 0 0 0 3 3 ltac:(lia))))).
Defined.

(** ** Alerts keyed by type, address and millisecond *)

Lemma same_alert_id_self alert_type address now score details :
  same_alert_id alert_type address now
    (mkAlert alert_type address now score details) = true.
Proof.
  unfold same_alert_id. simpl.
  rewrite !String.eqb_refl, Z.eqb_refl. reflexivity.
Qed.

Lemma merge_alert_overwrite t a now s d s' d' (l : list Alert) :
  merge_alert (mkAlert t a now s' d') (merge_alert (mkAlert t a now s d) l)
  = merge_alert (mkAlert t a now s' d') l.
Proof.
  unfold merge_alert. cbn [al_type al_address al_now].
  destruct (existsb (same_alert_id t a now) l) eqn:E.
  - assert (E' : existsb (same_alert_id t a now)
                   (map (fun al => if same_alert_id t a now al
                                   then mkAlert t a now s d else al) l) = true).
    { apply existsb_exists in E as (al & Hin & Hhit).
      apply existsb_exists. exists (mkAlert t a now s d). split.
      - apply in_map_iff. exists al. rewrite Hhit. auto.
      - apply same_alert_id_self. }
    rewrite E'. rewrite map_map. apply map_ext. intros al.
    destruct (same_alert_id t a now al) eqn:Hal.
    + rewrite same_alert_id_self. reflexivity.
    + rewrite Hal. reflexivity.
  - rewrite existsb_app. cbn [existsb]. rewrite same_alert_id_self.
    rewrite orb_true_r.
    rewrite map_app. cbn [map]. rewrite same_alert_id_self. f_equal.
    rewrite <- (map_id l) at 2. apply map_ext_in. intros al Hin.
    destruct (same_alert_id t a now al) eqn:Hal; [|reflexivity].
    exfalso. assert (existsb (same_alert_id t a now) l = true)
      by (apply existsb_exists; eauto). congruence.
Qed.

(** Within one millisecond the alert id is the same, so [MERGE] finds
    the node again: creating an alert of the same type for the same
    address a second time overwrites score and details in place (the last
    write wins), creating it with the same values changes nothing, and in
    neither case does the number of alerts grow. *)
Theorem create_alert_same_millisecond (g : Graph) (clock : Q)
    (address alert_type : string) (s s' : Q) (d d' : Details) :
  let once := _create_alert g clock address alert_type s d in
  _create_alert once clock address alert_type s' d'
  = _create_alert g clock address alert_type s' d'
  /\ _create_alert once clock address alert_type s d = once
  /\ length (alerts (_create_alert once clock address alert_type s' d'))
     = length (alerts once)
  /\ In (mkAlert alert_type address (py_int (clock * 1000)) s' d')
       (alerts (_create_alert once clock address alert_type s' d')).
Proof.
  cbv zeta.
  assert (E : forall s2 d2,
            _create_alert (_create_alert g clock address alert_type s d) clock
              address alert_type s2 d2
            = _create_alert g clock address alert_type s2 d2).
  { intros s2 d2. unfold _create_alert.
    cbn [addresses transactions transfers alerts].
    rewrite lookup_insert_eq. cbn [default].
    rewrite merge_alert_overwrite, insert_insert_eq.
    destruct (addresses g !! address); reflexivity. }
  split; [apply E|]. split; [apply E|]. split.
  - rewrite E. unfold _create_alert. cbn [alerts]. unfold merge_alert.
    cbn [al_type al_address al_now].
    destruct (existsb _ (alerts g)); rewrite ?length_map, ?length_app; reflexivity.
  - unfold _create_alert at 1. cbn [alerts]. apply merge_alert_In.
Qed.

(** ** What the detectors can return *)

Lemma emit_results alert_type time rows :
  forall k g,
    snd (emit alert_type time k rows g)
    = map (fun r => (row_address r, row_score r)) rows.
Proof.
  induction rows as [|r rows IH]; intros k g; [reflexivity|].
  cbn [emit].
  specialize (IH (S k) (_create_alert g (time k) (row_address r) alert_type
                          (row_score r) (row_details r))).
  destruct (emit alert_type time (S k) rows _) as [[g2 k2] results].
  cbn [snd] in *. rewrite IH. reflexivity.
Qed.

Lemma in_positive r rows :
  In r (positive rows) <-> In r rows /\ 0 < row_score r.
Proof.
  unfold positive.
  rewrite <- !list_elem_of_In, list_elem_of_filter.
  unfold Qgtb. rewrite Is_true_true, negb_true_iff, Qle_bool_false. tauto.
Qed.

Lemma shortest_path_length_range g a b n :
  shortest_path_length g a b = Some (Some n) ->
  n = 1%Z \/ n = 2%Z \/ n = 3%Z.
Proof.
  unfold shortest_path_length.
  destruct (String.eqb a b); [discriminate|].
  repeat match goal with
  | |- context [if ?c then _ else _] => destruct c
  end; intros H; inversion H; auto.
Qed.

Lemma shortest_paths_range g a bads :
  forall ps n,
    shortest_paths g a bads = Some ps -> In n ps ->
    n = 1%Z \/ n = 2%Z \/ n = 3%Z.
Proof.
  induction bads as [|b bads IH]; intros ps n; cbn [shortest_paths].
  - intros H. injection H as <-. intros [].
  - destruct (shortest_path_length g a b) as [p|] eqn:E; [|discriminate].
    destruct (shortest_paths g a bads) as [ps'|]; [|discriminate].
    intros H. injection H as <-. intros Hin.
    apply in_app_iff in Hin as [Hin|Hin]; [|eauto].
    destruct p as [m|]; [|destruct Hin]. destruct Hin as [<-|[]].
    eapply shortest_path_length_range. exact E.
Qed.

Lemma fold_add_ge_1 (l : list Z) :
  l <> [] -> (forall v, In v l -> (1 <= v)%Z) ->
  (1 <= fold_left Z.add l 0)%Z.
Proof.
  assert (H : forall l acc, (forall v, In v l -> (1 <= v)%Z) ->
                (acc + Z.of_nat (length l) <= fold_left Z.add l acc)%Z).
  { clear l. induction l as [|v l IH]; intros acc Hl; simpl; [lia|].
    specialize (IH (acc + v)%Z (fun u Hu => Hl u (or_intror Hu))).
    specialize (Hl v (or_introl eq_refl)). lia. }
  intros Hne Hl. specialize (H l 0%Z Hl).
  destruct l; [congruence|]. simpl length in H. lia.
Qed.

Lemma structuring_detections g time k address x s :
  In (x, s) (snd (detect_structuring g time k address)) ->
  x = address /\ 20 <= s.
Proof.
  unfold detect_structuring. rewrite emit_results.
  unfold structuring_query.
  destruct (addresses g !! address); [|intros []].
  destruct (small_deposits g address _ _) as [|t ts] eqn:E; [intros []|].
  rewrite <- E.
  destruct (5 <=? zlen (small_deposits g address _ _))%Z eqn:Hc; [|intros []].
  apply Z.leb_le in Hc.
  intros [H|[]]. injection H as <- <-. split; [reflexivity|].
  assert (5 <= inject_Z (zlen (small_deposits g address (1 # 2)
                                 (py_int (time k) - 3 * 24 * 3600)))).
  { change 5 with (inject_Z 5). rewrite <- Zle_Qle. exact Hc. }
  set (c := inject_Z (zlen _)) in *. clearbody c.
  assert (Ed : c / inject_Z 5 * 20 == 4 * c) by field.
  rewrite Ed.
  destruct (Qgtb _ 1); lra.
Qed.

Lemma peel_detections g time k address x s :
  In (x, s) (snd (detect_peel_chains g time k address)) ->
  x = address /\ 50 <= s.
Proof.
  unfold detect_peel_chains. rewrite emit_results. unfold peel_query.
  cbv zeta.
  match goal with
  | |- context [match ?h with [] => [] | _ :: _ => _ end] =>
      remember h as hops eqn:Eh
  end.
  match goal with
  | |- context [fold_left Z.add ?r 0%Z] =>
      remember (fold_left Z.add r 0%Z) as depth eqn:Ed
  end.
  destruct hops as [|h hops']; [intros []|].
  assert (Hd : (1 <= depth)%Z).
  { rewrite Ed. apply fold_add_ge_1; [discriminate|].
    intros v Hv. apply in_map_iff in Hv as ([r1 r2] & <- & _). lia. }
  clear Ed.
  intros [H|[]]. injection H as <- <-. split; [reflexivity|].
  assert ((1 <=? depth)%Z = true) as -> by (apply Z.leb_le; exact Hd).
  change 50 with (inject_Z 50). rewrite <- Zle_Qle. lia.
Qed.

(** Closes a goal about the only record of a tiered detector once the
    conditions of its [CASE] have been split. *)
Ltac tier_cases :=
  repeat match goal with
  | |- context [if ?c then _ else _] => destruct c
  end;
  cbn [map row_address row_score In];
  try (intros [H|[]]; injection H as <- <-; split; [reflexivity|simpl; tauto]);
  try (intros []).

Lemma mixer_detections g time k address x s :
  In (x, s) (snd (find_mixer_activity g time k address)) ->
  x = address /\ In s [40; 60].
Proof.
  unfold find_mixer_activity. rewrite emit_results.
  intros H. apply in_map_iff in H as (r & Hr & Hin). injection Hr as <- <-.
  apply in_positive in Hin as [Hin Hpos]. revert Hin Hpos.
  unfold mixer_query. destruct (addresses g !! address); [|intros []].
  cbv zeta.
  repeat match goal with
  | |- context [if ?c then _ else _] => destruct c
  end; intros [<-|[]]; cbn [row_address row_score]; intros Hpos;
    (split; [reflexivity|]); simpl; auto.
  exfalso. revert Hpos. apply Qlt_irrefl.
Qed.

Lemma taint_detections g time k address r x s :
  run_taint_analysis g time k address = Some r ->
  In (x, s) (snd r) ->
  x = address /\ In s [30; 40; 50].
Proof.
  unfold run_taint_analysis.
  destruct (taint_query g address) as [records|] eqn:Eq; [|discriminate].
  intros Hr. injection Hr as <-. rewrite emit_results.
  intros H. apply in_map_iff in H as (r & Hr & Hin). injection Hr as <- <-.
  apply in_positive in Hin as [Hin Hpos].
  apply in_map_iff in Hin as (r0 & <- & Hin). cbn [row_address row_score] in *.
  revert Eq Hin Hpos. unfold taint_query.
  destruct (addresses g !! address).
  2:{ intros Eq. injection Eq as <-. intros []. }
  destruct (shortest_paths g address _) as [[|p ps]|] eqn:E; [| |discriminate].
  - intros Eq. injection Eq as <-. intros [<-|[]]. cbn [row_score].
    intros Hpos. exfalso. revert Hpos. apply Qlt_irrefl.
  - intros Eq. injection Eq as <-. intros Hin _.
    assert (Hlen : exists len,
              r0 = mkRow address (inject_Z (50 - 10 * (len - 1))) (DTaint 3)
              /\ In len (p :: ps)).
    { destruct Hin as [<-|Hin];
        [eexists; split; [reflexivity|left; reflexivity]|].
      apply in_map_iff in Hin as (len & <- & Hl).
      eexists; split; [reflexivity|right; exact Hl]. }
    destruct Hlen as (len & -> & Hlen).
    cbn [row_address row_score]. split; [reflexivity|].
    destruct (shortest_paths_range _ _ _ _ _ E Hlen) as [-> | [-> | ->]];
      simpl; auto.
Qed.

Lemma circular_detections g time k address x s :
  In (x, s) (snd (find_circular_txns g time k address)) ->
  x = address /\ In s [20; 35; 50].
Proof.
  unfold find_circular_txns. rewrite emit_results.
  intros H. apply in_map_iff in H as (r & Hr & Hin). injection Hr as <- <-.
  apply in_positive in Hin as [Hin Hpos]. revert Hin Hpos.
  unfold circular_query, circular_score.
  destruct (addresses g !! address); [|intros []].
  cbv zeta.
  destruct (count_cycles g address =? 0)%Z; [intros []|].
  intros [<-|[]]. cbn [row_address row_score].
  destruct (3 <=? count_cycles g address)%Z; [simpl; auto|].
  destruct (count_cycles g address =? 2)%Z; [simpl; auto|].
  destruct (count_cycles g address =? 1)%Z; [simpl; auto|].
  intros Hpos. exfalso. revert Hpos. apply Qlt_irrefl.
Qed.

Lemma velocity_detections g time k address x s :
  In (x, s) (snd (detect_velocity_alert g time k address)) ->
  x = address /\ In s [40; 55; 70].
Proof.
  unfold detect_velocity_alert. rewrite emit_results.
  unfold velocity_query, velocity_score.
  destruct (filter _ (transactions g)) as [|t ts]; [intros []|].
  cbv zeta.
  destruct (10 <=? _)%Z; [|intros []].
  set (rate := if (0 <? _)%Z then _ else _). clearbody rate.
  destruct (Qgeb rate 10) eqn:E10; [|intros []].
  destruct (Qgeb rate 50); [|destruct (Qgeb rate 30)];
    intros [H|[]]; injection H as <- <-; (split; [reflexivity|simpl; auto]).
Qed.

Lemma dormant_detections g time k address x s :
  In (x, s) (snd (detect_dormant_reactivation g time k address)) ->
  x = address /\ In s [35; 50; 65].
Proof.
  unfold detect_dormant_reactivation. rewrite emit_results.
  unfold dormant_query, dormant_score.
  destruct (addresses g !! address) as [a|]; [|intros []].
  destruct (first_seen a), (last_seen a); try (intros []).
  destruct (_ <? _)%Z; [|intros []].
  destruct (filter _ (transactions g)) as [|t ts]; [intros []|].
  cbv zeta. tier_cases.
Qed.

Lemma round_detections g time k address x s :
  In (x, s) (snd (detect_round_amounts g time k address)) ->
  x = address /\ In s [25; 35; 50].
Proof.
  unfold detect_round_amounts. rewrite emit_results.
  unfold round_query, round_score.
  destruct (filter _ (transactions g)) as [|t ts]; [intros []|].
  cbv zeta. tier_cases.
Qed.

Lemma timing_detections g time k address x s :
  In (x, s) (snd (detect_timing_patterns g time k address)) ->
  x = address /\ In s [35; 45; 55].
Proof.
  unfold detect_timing_patterns. rewrite emit_results.
  unfold timing_query, timing_score.
  destruct (filter _ (transactions g)) as [|t ts]; [intros []|].
  cbv zeta. tier_cases.
Qed.

Lemma wash_detections g time k address x s :
  In (x, s) (snd (detect_wash_trading g time k address)) ->
  x = address /\ In s [40; 55; 70].
Proof.
  unfold detect_wash_trading. rewrite emit_results.
  unfold wash_query, wash_score.
  destruct (flat_map _ (transfers g)) as [|p ps]; [intros []|].
  cbv zeta. tier_cases.
Qed.

(** ** A heavy alert on the analysed address *)

Lemma heavy_alert_addresses_spec (g : Graph) (x : string) :
  In x (heavy_alert_addresses g) <->
  exists al, In al (alerts g) /\ al_address al = x
             /\ mem (al_type al) ["SANCTION"; "MIXER_PATTERN"; "PEEL_CHAIN"] = true
             /\ 50 <= al_score al.
Proof.
  unfold heavy_alert_addresses, distinct.
  rewrite <- list_elem_of_In, elem_of_remove_dups, list_elem_of_In, in_map_iff.
  split.
  - intros (al & Hx & Hin).
    apply list_elem_of_In, list_elem_of_filter in Hin as [Hh Hin].
    apply Is_true_true, andb_true_iff in Hh as [Ht Hs].
    exists al. split; [apply list_elem_of_In; exact Hin|].
    split; [exact Hx|]. split; [exact Ht|]. apply Qgeb_ge. exact Hs.
  - intros (al & Hin & Hx & Ht & Hs). exists al. split; [exact Hx|].
    apply list_elem_of_In, list_elem_of_filter. split.
    + apply Is_true_true, andb_true_iff. split; [exact Ht|].
      apply Qgeb_ge. exact Hs.
    + apply list_elem_of_In. exact Hin.
Qed.

Lemma shortest_paths_same_node g a bads :
  In a bads -> shortest_paths g a bads = None.
Proof.
  induction bads as [|b bads IH]; intros Hin; [destruct Hin|].
  cbn [shortest_paths]. destruct Hin as [->|Hin].
  - unfold shortest_path_length. rewrite String.eqb_refl. reflexivity.
  - rewrite (IH Hin). destruct (shortest_path_length g a b); reflexivity.
Qed.

(** The taint query raises for an address of the store that bears a heavy
    alert itself: its shortest path would start and end at that node. *)
Lemma taint_raises g time k address :
  is_Some (addresses g !! address) ->
  In address (heavy_alert_addresses g) ->
  run_taint_analysis g time k address = None.
Proof.
  intros [n Hn] Hin. unfold run_taint_analysis, taint_query.
  rewrite Hn, (shortest_paths_same_node _ _ _ Hin). reflexivity.
Qed.

Lemma merge_alert_other (new al : Alert) (l : list Alert) :
  In al l ->
  same_alert_id (al_type new) (al_address new) (al_now new) al = false ->
  In al (merge_alert new l).
Proof.
  intros Hin Hid. unfold merge_alert.
  destruct (existsb _ l).
  - apply in_map_iff. exists al. rewrite Hid. auto.
  - apply in_app_iff. left. exact Hin.
Qed.

Lemma emit_keeps_alert alert_type time rows :
  forall k g al,
    In al (alerts g) ->
    (al_type al <> alert_type
     \/ forall i, (k <= i)%nat -> al_now al <> millisecond time i) ->
    In al (alerts (fst (fst (emit alert_type time k rows g)))).
Proof.
  induction rows as [|r rows IH]; intros k g al Hin Hother; [exact Hin|].
  cbn [emit].
  specialize (IH (S k) (_create_alert g (time k) (row_address r) alert_type
                          (row_score r) (row_details r)) al).
  destruct (emit alert_type time (S k) rows _) as [[g2 k2] results].
  cbn [fst] in *. apply IH.
  - unfold _create_alert. cbn [alerts]. apply merge_alert_other; [exact Hin|].
    cbn [al_type al_address al_now]. unfold same_alert_id.
    destruct Hother as [Ht|Hn].
    + destruct (String.eqb (al_type al) alert_type) eqn:E;
        [apply String.eqb_eq in E; contradiction|reflexivity].
    + destruct (Z.eqb (al_now al) (py_int (time k * 1000))) eqn:E.
      * apply Z.eqb_eq in E. exfalso. apply (Hn k); [lia|exact E].
      * rewrite andb_false_r. reflexivity.
  - destruct Hother as [Ht|Hn]; [left; exact Ht|].
    right. intros i Hi. apply Hn. lia.
Qed.

Lemma emit_keeps_node alert_type time rows :
  forall k g x,
    is_Some (addresses g !! x) ->
    is_Some (addresses (fst (fst (emit alert_type time k rows g))) !! x).
Proof.
  induction rows as [|r rows IH]; intros k g x Hx; [exact Hx|].
  cbn [emit].
  specialize (IH (S k) (_create_alert g (time k) (row_address r) alert_type
                          (row_score r) (row_details r)) x).
  destruct (emit alert_type time (S k) rows _) as [[g2 k2] results].
  cbn [fst] in *. apply IH. unfold _create_alert. cbn [addresses].
  destruct (decide (x = row_address r)) as [->|Hne].
  - rewrite lookup_insert_eq. eauto.
  - rewrite lookup_insert_ne by congruence. exact Hx.
Qed.

(** A detector that emits one record stores its alert and the node. *)
Lemma emit_one_stored alert_type time k r g :
  In (mkAlert alert_type (row_address r) (millisecond time k) (row_score r)
        (row_details r))
    (alerts (fst (fst (emit alert_type time k [r] g))))
  /\ is_Some (addresses (fst (fst (emit alert_type time k [r] g)))
              !! row_address r).
Proof.
  cbn [emit fst]. unfold _create_alert. cbn [alerts addresses]. split.
  - apply merge_alert_In.
  - rewrite lookup_insert_eq. eauto.
Qed.

Lemma peel_query_rows g address :
  peel_query g address (7#10) = []
  \/ exists r, peel_query g address (7#10) = [r]
               /\ row_address r = address /\ 50 <= row_score r.
Proof.
  pose proof (peel_detections g (fun _ => 0) 0 address) as H.
  unfold detect_peel_chains in H. rewrite emit_results in H.
  unfold peel_query in *. cbv zeta in *.
  match goal with
  | |- context [match ?h with [] => [] | _ :: _ => _ end] => destruct h
  end; [left; reflexivity|].
  right. eexists. split; [reflexivity|].
  cbn [row_address row_score]. split; [reflexivity|].
  apply (H address). left. reflexivity.
Qed.

Lemma mixer_query_rows g address :
  positive (mixer_query g address) = []
  \/ exists r, positive (mixer_query g address) = [r]
               /\ row_address r = address
               /\ (row_score r = 40 \/ row_score r = 60).
Proof.
  pose proof (mixer_detections g (fun _ => 0) 0 address) as H.
  unfold find_mixer_activity in H. rewrite emit_results in H.
  unfold mixer_query in *.
  destruct (addresses g !! address); [|left; reflexivity].
  cbv zeta in *. unfold positive in *.
  rewrite filter_cons, filter_nil in *.
  match goal with
  | |- context [decide ?P] => destruct (decide P)
  end; [|left; reflexivity].
  right. eexists. split; [reflexivity|].
  cbn [row_address]. split; [reflexivity|].
  match goal with
  | H : forall x s, In (x, s) (map _ [?r]) -> _ |- _ =>
      destruct (H address (row_score r)) as [_ Hs]; [left; reflexivity|]
  end.
  simpl in Hs. cbn [row_score] in *.
  destruct Hs as [Hs|[Hs|[]]]; rewrite <- Hs; auto.
Qed.

Lemma emit_keeps_ledger alert_type time rows :
  forall k g,
    transfers (fst (fst (emit alert_type time k rows g))) = transfers g
    /\ transactions (fst (fst (emit alert_type time k rows g))) = transactions g
    /\ (k <= snd (fst (emit alert_type time k rows g)))%nat.
Proof.
  induction rows as [|r rows IH]; intros k g; [cbn; auto|].
  cbn [emit].
  specialize (IH (S k) (_create_alert g (time k) (row_address r) alert_type
                          (row_score r) (row_details r))).
  destruct (emit alert_type time (S k) rows _) as [[g2 k2] results].
  cbn [fst snd] in *. destruct IH as (H1 & H2 & H3).
  rewrite H1, H2. repeat split; [lia].
Qed.

Lemma peel_query_transfers g g' address ratio :
  transfers g' = transfers g ->
  peel_query g' address ratio = peel_query g address ratio.
Proof. unfold peel_query. intros ->. reflexivity. Qed.

Lemma mixer_query_transfers g g' address :
  transfers g' = transfers g ->
  is_Some (addresses g !! address) -> is_Some (addresses g' !! address) ->
  mixer_query g' address = mixer_query g address.
Proof.
  unfold mixer_query. intros -> [n ->] [n' ->]. reflexivity.
Qed.

(** When one of these holds, the analysed address is a node that bears
    a heavy alert by the time the taint query runs. *)
Lemma heavy_alert_reaches_taint (g : Graph) (time : Clock) (k : nat)
    (address : string) g1 k1 r1 g2 k2 r2 g3 k3 r3 :
  detect_structuring g time k address = (g1, k1, r1) ->
  detect_peel_chains g1 time k1 address = (g2, k2, r2) ->
  find_mixer_activity g2 time k2 address = (g3, k3, r3) ->
  (is_Some (addresses g !! address)
   /\ In address (heavy_alert_addresses g)
   /\ fresh_from time k g)
  \/ peel_query g address (7#10) <> []
  \/ (exists r, In r (mixer_query g address) /\ row_score r = 60)
  \/ r2 <> []
  \/ (exists x, In (x, 60) r3) ->
  is_Some (addresses g3 !! address) /\ In address (heavy_alert_addresses g3).
Proof.
  unfold detect_structuring, detect_peel_chains, find_mixer_activity.
  set (rows1 := structuring_query g address _ _ _).
  intros E1 E2 E3 Hcause.
  pose proof (emit_keeps_alert "STRUCTURING" time rows1 (S k) g) as K1.
  pose proof (emit_keeps_node "STRUCTURING" time rows1 (S k) g) as N1.
  pose proof (emit_keeps_ledger "STRUCTURING" time rows1 (S k) g) as (T1 & _ & L1).
  rewrite E1 in K1, N1, T1, L1. cbn [fst snd] in K1, N1, T1, L1.
  pose proof (emit_keeps_alert "PEEL_CHAIN" time (peel_query g1 address (7#10))
                k1 g1) as K2.
  pose proof (emit_keeps_node "PEEL_CHAIN" time (peel_query g1 address (7#10))
                k1 g1) as N2.
  pose proof (emit_keeps_ledger "PEEL_CHAIN" time (peel_query g1 address (7#10))
                k1 g1) as (T2 & _ & L2).
  pose proof (emit_results "PEEL_CHAIN" time (peel_query g1 address (7#10))
                k1 g1) as R2.
  rewrite E2 in K2, N2, T2, L2, R2. cbn [fst snd] in K2, N2, T2, L2, R2.
  pose proof (emit_keeps_alert "MIXER_PATTERN" time
                (positive (mixer_query g2 address)) k2 g2) as K3.
  pose proof (emit_keeps_node "MIXER_PATTERN" time
                (positive (mixer_query g2 address)) k2 g2) as N3.
  pose proof (emit_results "MIXER_PATTERN" time
                (positive (mixer_query g2 address)) k2 g2) as R3.
  rewrite E3 in K3, N3, R3. cbn [fst snd] in K3, N3, R3.
  (* the peel-chain detector fired *)
  assert (Hpeel : peel_query g1 address (7#10) <> [] ->
            is_Some (addresses g3 !! address)
            /\ In address (heavy_alert_addresses g3)).
  { intros Hp.
    destruct (peel_query_rows g1 address) as [P|(r & P & Ha & Hsc)];
      [contradiction|].
    rewrite P in E2.
    pose proof (emit_one_stored "PEEL_CHAIN" time k1 r g1) as [S2 S2n].
    rewrite E2 in S2, S2n. cbn [fst] in S2, S2n. rewrite Ha in S2, S2n.
    split; [apply N3; exact S2n|].
    apply heavy_alert_addresses_spec.
    eexists. split; [apply K3; [exact S2|left; discriminate]|].
    cbn [al_address al_type al_score]. auto. }
  (* the mixer detector reported 60 *)
  assert (Hmixer : (exists r, In r (positive (mixer_query g2 address))
                              /\ row_score r = 60) ->
            is_Some (addresses g3 !! address)
            /\ In address (heavy_alert_addresses g3)).
  { intros (r & Hr & Hs).
    destruct (mixer_query_rows g2 address) as [P|(r' & P & Ha & _)];
      [rewrite P in Hr; destruct Hr|].
    rewrite P in Hr, E3. destruct Hr as [->|[]].
    pose proof (emit_one_stored "MIXER_PATTERN" time k2 r g2) as [S3 S3n].
    rewrite E3 in S3, S3n. cbn [fst] in S3, S3n. rewrite Ha in S3, S3n.
    split; [exact S3n|].
    apply heavy_alert_addresses_spec.
    eexists. split; [exact S3|]. cbn [al_address al_type al_score].
    rewrite Hs. split; [reflexivity|]. split; [reflexivity|lra]. }
  destruct Hcause as [(Hn & Hh & Hf)|[Hp|[(r & Hr & Hs)|[Hr2|(x & Hx)]]]].
  - split; [auto|].
    apply heavy_alert_addresses_spec.
    apply heavy_alert_addresses_spec in Hh as (al & Hin & Hx & Ht & Hsc).
    exists al. split; [|auto].
    assert (Hlater : forall j, (k <= j)%nat ->
              forall i, (j <= i)%nat -> al_now al <> millisecond time i).
    { intros j Hj i Hi. apply (Hf al i Hin). lia. }
    apply K3; [|right; apply Hlater; lia].
    apply K2; [|right; apply Hlater; lia].
    apply K1; [exact Hin|right; apply Hlater; lia].
  - apply Hpeel. rewrite (peel_query_transfers g g1 address _ T1). exact Hp.
  - apply Hmixer.
    assert (Hnode : is_Some (addresses g !! address)).
    { unfold mixer_query in Hr.
      destruct (addresses g !! address); [eauto|destruct Hr]. }
    rewrite (mixer_query_transfers g g2 address); [|congruence|exact Hnode|auto].
    exists r. split; [|exact Hs]. apply in_positive. split; [exact Hr|].
    rewrite Hs. reflexivity.
  - apply Hpeel. intros Hp. rewrite Hp in R2. apply Hr2. exact R2.
  - apply Hmixer. rewrite R3 in Hx.
    apply in_map_iff in Hx as (r & Hr & Hin). injection Hr as _ Hs.
    exists r. auto.
Qed.

(** What makes a run of the pipeline raise: a heavy alert on the analysed
    address when the taint query runs. This is the case when the store
    already holds one (created at a millisecond that no reading of the run
    falls in), when the peel-chain detector fires (its score is at least
    50), and when the mixer detector reports 60. *)
Theorem pipeline_raises_on_heavy_alert (g : Graph) (time : Clock) (k : nat)
    (address : string) :
  (is_Some (addresses g !! address)
   /\ In address (heavy_alert_addresses g)
   /\ fresh_from time k g)
  \/ peel_query g address (7#10) <> []
  \/ (exists r, In r (mixer_query g address) /\ row_score r = 60) ->
  snd (run_all_analytics g time k address) = None.
Proof.
  intros Hcause. unfold run_all_analytics.
  destruct (detect_structuring g time k address) as [[g1 k1] r1] eqn:E1.
  destruct (detect_peel_chains g1 time k1 address) as [[g2 k2] r2] eqn:E2.
  destruct (find_mixer_activity g2 time k2 address) as [[g3 k3] r3] eqn:E3.
  destruct (heavy_alert_reaches_taint g time k address _ _ _ _ _ _ _ _ _
              E1 E2 E3) as [Hn Hh]; [tauto|].
  rewrite (taint_raises g3 time k3 address Hn Hh). reflexivity.
Qed.

Lemma pipeline_raises_on_heavy_alert_witness :
  peel_query Examples.drain "0xa" (7#10) <> []
  /\ snd (run_all_analytics Examples.drain
            (Deployment.readings_from Examples.t0) 0 "0xa") = None.
Proof.
  assert (H : peel_query Examples.drain "0xa" (7#10) <> [])
    by (vm_compute; discriminate).
  split; [exact H|].
  apply pipeline_raises_on_heavy_alert. right. left. exact H.
Defined.

(** Every detection of a run of the pipeline that completes is for the
    analysed address and has a score of at least 20. None is a peel
    chain, and a mixer detection has the score 40: the peel-chain score
    and the mixer score 60 would have put a heavy alert on the address
    and made the taint query raise. Under the keys other than structuring
    the score is one of the tiers of the detector, hence at most 70; the
    score 30 of the velocity [CASE] cannot occur, its [WHERE] clause
    having required a rate of at least 10. *)
Theorem pipeline_detections (g : Graph) (time : Clock) (k k' : nat)
    (address key x : string) (g' : Graph) (out : Analytics)
    (detections : list (string * Q)) (s : Q) :
  run_all_analytics g time k address = (k', Some (g', out)) ->
  In (key, detections) out ->
  In (x, s) detections ->
  x = address
  /\ 20 <= s
  /\ key <> "peel_chains"
  /\ (key = "mixer_activity" -> s = 40)
  /\ match tiers_of key with
     | Some tiers => In s tiers /\ s <= 70
     | None => key = "structuring"
     end.
Proof.
  unfold run_all_analytics.
  pose proof (structuring_detections g time k address x s) as L1.
  destruct (detect_structuring g time k address) as [[g1 i1] r1] eqn:E1.
  pose proof (peel_detections g1 time i1 address x s) as L2.
  destruct (detect_peel_chains g1 time i1 address) as [[g2 i2] r2] eqn:E2.
  pose proof (mixer_detections g2 time i2 address x s) as L3.
  destruct (find_mixer_activity g2 time i2 address) as [[g3 i3] r3] eqn:E3.
  pose proof (heavy_alert_reaches_taint g time k address _ _ _ _ _ _ _ _ _
                E1 E2 E3) as Hheavy.
  destruct (run_taint_analysis g3 time i3 address) as [[[g4 i4] r4]|] eqn:E4;
    [|discriminate].
  pose proof (taint_detections g3 time i3 address _ x s E4) as L4.
  assert (Hlight : r2 = [] /\ ~ exists y, In (y, 60) r3).
  { split.
    - destruct r2 as [|d r2]; [reflexivity|]. exfalso.
      destruct Hheavy as [Hn Hh]; [right; right; right; left; discriminate|].
      rewrite (taint_raises g3 time i3 address Hn Hh) in E4. discriminate E4.
    - intros Hy.
      destruct Hheavy as [Hn Hh]; [right; right; right; right; exact Hy|].
      rewrite (taint_raises g3 time i3 address Hn Hh) in E4. discriminate E4. }
  destruct Hlight as [-> Hno60].
  pose proof (circular_detections g4 time i4 address x s) as L5.
  destruct (find_circular_txns g4 time i4 address) as [[g5 i5] r5].
  pose proof (velocity_detections g5 time i5 address x s) as L6.
  destruct (detect_velocity_alert g5 time i5 address) as [[g6 i6] r6].
  pose proof (dormant_detections g6 time i6 address x s) as L7.
  destruct (detect_dormant_reactivation g6 time i6 address) as [[g7 i7] r7].
  pose proof (round_detections g7 time i7 address x s) as L8.
  destruct (detect_round_amounts g7 time i7 address) as [[g8 i8] r8].
  pose proof (timing_detections g8 time i8 address x s) as L9.
  destruct (detect_timing_patterns g8 time i8 address) as [[g9 i9] r9].
  pose proof (wash_detections g9 time i9 address x s) as L10.
  destruct (detect_wash_trading g9 time i9 address) as [[g10 i10] r10].
  cbn [snd] in *.
  intros H. injection H as _ _ <-. intros Hin Hx.
  repeat (destruct Hin as [Hin|Hin]; [injection Hin as <- <-|]);
    [..|destruct Hin].
  - destruct (L1 Hx) as [-> H]. simpl.
    repeat split; auto; discriminate.
  - destruct Hx.
  - destruct (L3 Hx) as [-> H]. simpl in H.
    assert (Hs : s = 40).
    { destruct H as [H|[H|[]]]; [congruence|]. exfalso. apply Hno60.
      exists address. rewrite H. exact Hx. }
    subst s. simpl. repeat split; auto; try discriminate; lra.
  - destruct (L4 Hx) as [-> H]. simpl in *.
    intuition (subst; auto; try discriminate; lra).
  - destruct (L5 Hx) as [-> H]. simpl in *.
    intuition (subst; auto; try discriminate; lra).
  - destruct (L6 Hx) as [-> H]. simpl in *.
    intuition (subst; auto; try discriminate; lra).
  - destruct (L7 Hx) as [-> H]. simpl in *.
    intuition (subst; auto; try discriminate; lra).
  - destruct (L8 Hx) as [-> H]. simpl in *.
    intuition (subst; auto; try discriminate; lra).
  - destruct (L9 Hx) as [-> H]. simpl in *.
    intuition (subst; auto; try discriminate; lra).
  - destruct (L10 Hx) as [-> H]. simpl in *.
    intuition (subst; auto; try discriminate; lra).
Qed.

Lemma pipeline_detections_witness :
  exists k' g' out,
    run_all_analytics Examples.fan_in (Deployment.readings_from Examples.t0)
      0 "0xa" = (k', Some (g', out))
    /\ In ("mixer_activity", [("0xa", 40)]) out
    /\ 20 <= 40.
Proof.
  destruct (run_all_analytics Examples.fan_in
              (Deployment.readings_from Examples.t0) 0 "0xa")
    as [k' [[g' out]|]] eqn:E; [|exfalso; vm_compute in E; discriminate E].
  assert (H1 : In ("mixer_activity", [("0xa", 40)]) out).
  { assert (Ho : option_map snd
                   (snd (run_all_analytics Examples.fan_in
                           (Deployment.readings_from Examples.t0) 0 "0xa"))
                 = Some out) by (rewrite E; reflexivity).
    vm_compute in Ho. injection Ho as <-. simpl. tauto. }
  exists k', g', out. split; [reflexivity|]. split; [exact H1|].
  exact (proj1 (proj2 (pipeline_detections Examples.fan_in
                         (Deployment.readings_from Examples.t0) 0 k' "0xa"
                         "mixer_activity" "0xa" g' out [("0xa", 40)] 40
                         E H1 (or_introl eq_refl)))).
Defined.

(** ** The alert-count scores of the crawler and of the auto-expansion *)

Lemma contribution_order (alert_type : string) (n : Z) :
  (1 <= n)%Z ->
  0 <= Crawler.quick_contribution alert_type n
  /\ Crawler.quick_contribution alert_type n
     <= match Expansion.weight_of alert_type with
        | Some w => inject_Z (Z.min (w * 2) (n * w))
        | None => 0
        end
  /\ 0 <= match Expansion.weight_of alert_type with
          | Some w => inject_Z (Z.min (w * 2) (n * w))
          | None => 0
          end.
Proof.
  intros Hn. unfold Crawler.quick_contribution.
  repeat match goal with
  | |- context [String.eqb alert_type ?k] =>
      let E := fresh "E" in
      destruct (String.eqb alert_type k) eqn:E;
        [apply String.eqb_eq in E; subst alert_type;
         cbn [Expansion.weight_of Expansion.weights find option_map fst snd
              String.eqb Ascii.eqb Bool.eqb];
         change 0 with (inject_Z 0); rewrite <- !Zle_Qle; lia|]
  end.
  unfold Expansion.weight_of, Expansion.weights. cbn [find fst snd].
  rewrite String.eqb_sym, E, String.eqb_sym, E0, String.eqb_sym, E1,
    String.eqb_sym, E2, String.eqb_sym, E3.
  cbn [option_map]. lra.
Qed.

Lemma score_folds_ordered (an : Analytics) :
  forall acc1 acc2 : Q,
    0 <= acc1 -> acc1 <= acc2 ->
    0 <= fold_left (fun score '(alert_type, alerts) =>
           match alerts with
           | [] => score
           | _ :: _ => score + Crawler.quick_contribution alert_type (zlen alerts)
           end) an acc1
    /\ fold_left (fun score '(alert_type, alerts) =>
           match alerts with
           | [] => score
           | _ :: _ => score + Crawler.quick_contribution alert_type (zlen alerts)
           end) an acc1
       <= fold_left (fun score '(alert_type, alerts) =>
           match alerts, Expansion.weight_of alert_type with
           | _ :: _, Some w => score + inject_Z (Z.min (w * 2) (zlen alerts * w))
           | _, _ => score
           end) an acc2.
Proof.
  induction an as [|[k l] an IH]; intros acc1 acc2 H0 Hle; cbn [fold_left].
  - split; assumption.
  - destruct l as [|a l]; [apply IH; assumption|].
    assert (Hn : (1 <= zlen (a :: l))%Z) by (unfold zlen; simpl length; lia).
    destruct (contribution_order k (zlen (a :: l)) Hn) as (Hc0 & Hc & He).
    destruct (Expansion.weight_of k) as [w|]; apply IH; lra.
Qed.

(** Both alert-count scores lie in [0, 100], and on every pipeline
    result the auto-expansion's score is at least the crawler's quick
    score: an address the crawler records as suspicious (quick score of 40
    or more) has an auto-expansion score of 40 or more as well. *)
Theorem alert_count_scores (address : string) (an : Analytics) :
  0 <= Crawler._calculate_quick_risk_score address an <= 100
  /\ 0 <= Expansion._calculate_risk_score an <= 100
  /\ Crawler._calculate_quick_risk_score address an
     <= Expansion._calculate_risk_score an
  /\ (40 <= Crawler._calculate_quick_risk_score address an ->
      40 <= Expansion._calculate_risk_score an).
Proof.
  unfold Crawler._calculate_quick_risk_score, Expansion._calculate_risk_score.
  destruct (score_folds_ordered an 0 0) as [H0 Hle]; [lra|lra|].
  set (q := fold_left _ an 0) in *.
  set (e := fold_left _ an 0) in *. clearbody q e.
  repeat split; try (qminmax; lra).
Qed.

(** ** Ingestion *)

Lemma Qsum_snoc (l : list Q) (v : Q) : Qsum (l ++ [v]) = Qsum l + v.
Proof. unfold Qsum. rewrite fold_left_app. reflexivity. Qed.

Lemma merge_transaction_fresh g t :
  stored_hash g t = false ->
  merge_transaction t (transactions g) = transactions g ++ [t].
Proof. unfold stored_hash, merge_transaction. intros ->. reflexivity. Qed.

Lemma merge_transaction_stored g t :
  stored_hash g t = true ->
  merge_transaction t (transactions g) = transactions g.
Proof. unfold stored_hash, merge_transaction. intros ->. reflexivity. Qed.

Lemma pair_transactions_snoc g txs t a b :
  transactions g = txs ++ [t] ->
  pair_transactions g a b
  = List.filter (fun u => String.eqb (tx_from u) a && String.eqb (tx_to u) b) txs
    ++ (if String.eqb (tx_from t) a && String.eqb (tx_to t) b then [t] else []).
Proof.
  intros H. unfold pair_transactions. rewrite H, List.filter_app. reflexivity.
Qed.

Lemma merge_transfer_pairs t l :
  map (fun r => (tr_src r, tr_dst r)) (merge_transfer t l)
  = map (fun r => (tr_src r, tr_dst r)) l
    ++ (if existsb (fun r => String.eqb (tr_src r) (tx_from t)
                             && String.eqb (tr_dst r) (tx_to t)) l
        then [] else [(tx_from t, tx_to t)]).
Proof.
  unfold merge_transfer.
  destruct (existsb _ l).
  - rewrite app_nil_r, map_map. apply map_ext. intros r.
    destruct (_ && _); reflexivity.
  - rewrite map_app. reflexivity.
Qed.

Lemma pair_hit_iff r a b :
  String.eqb (tr_src r) a && String.eqb (tr_dst r) b = true
  <-> (tr_src r, tr_dst r) = (a, b).
Proof.
  rewrite andb_true_iff, !String.eqb_eq. split.
  - intros [-> ->]. reflexivity.
  - intros H. injection H as -> ->. auto.
Qed.

(** Merging a transaction whose hash is not yet stored keeps the
    aggregated transfers in agreement with the transactions. *)
Lemma merge_row_agrees g t :
  aggregates_agree g ->
  stored_hash g t = false ->
  aggregates_agree (merge_row g t).
Proof.
  intros (Hnd & Hagg & Hcov) Hfresh.
  assert (Htx : transactions (merge_row g t) = transactions g ++ [t]).
  { unfold merge_row. cbn [transactions]. apply merge_transaction_fresh, Hfresh. }
  set (hit := fun r => String.eqb (tr_src r) (tx_from t)
                       && String.eqb (tr_dst r) (tx_to t)).
  assert (Hold : forall a b, (a, b) <> (tx_from t, tx_to t) ->
            pair_transactions (merge_row g t) a b = pair_transactions g a b).
  { intros a b Hne. rewrite (pair_transactions_snoc _ _ _ a b Htx).
    destruct (String.eqb (tx_from t) a && String.eqb (tx_to t) b) eqn:E.
    - exfalso. apply Hne. apply andb_true_iff in E as [E1 E2].
      apply String.eqb_eq in E1, E2. congruence.
    - apply app_nil_r. }
  assert (Hnew : pair_transactions (merge_row g t) (tx_from t) (tx_to t)
                 = pair_transactions g (tx_from t) (tx_to t) ++ [t]).
  { rewrite (pair_transactions_snoc _ _ _ _ _ Htx), !String.eqb_refl.
    reflexivity. }
  split; [|split].
  - unfold merge_row. cbn [transfers]. rewrite merge_transfer_pairs.
    fold hit. destruct (existsb hit (transfers g)) eqn:E.
    + rewrite app_nil_r. exact Hnd.
    + apply NoDup_app. split; [exact Hnd|]. split; [|apply NoDup_singleton].
      intros p Hp Hp'. apply list_elem_of_In in Hp, Hp'.
      destruct Hp' as [<-|[]].
      apply in_map_iff in Hp as (r & Hr & Hin).
      assert (existsb hit (transfers g) = true); [|congruence].
      apply existsb_exists. exists r. split; [exact Hin|].
      unfold hit. apply pair_hit_iff. exact Hr.
  - intros r' Hr'. unfold merge_row in Hr'. cbn [transfers] in Hr'.
    unfold merge_transfer in Hr'. fold hit in Hr'.
    destruct (existsb hit (transfers g)) eqn:E.
    + apply in_map_iff in Hr' as (r & <- & Hin).
      destruct (Hagg r Hin) as [Hc Hv].
      change (String.eqb (tr_src r) (tx_from t) && String.eqb (tr_dst r) (tx_to t))
        with (hit r).
      destruct (hit r) eqn:Hh.
      * unfold hit in Hh. apply pair_hit_iff in Hh. injection Hh as Hs Hd.
        cbn [tr_src tr_dst tr_count tr_value_sum]. rewrite Hs, Hd in *.
        rewrite Hnew. split.
        -- unfold zlen in *. rewrite length_app. simpl length. lia.
        -- rewrite map_app. cbn [map]. rewrite Qsum_snoc, Hv. reflexivity.
      * rewrite Hold; [auto|].
        intros Heq. apply pair_hit_iff in Heq. unfold hit in Hh. congruence.
    + apply in_app_iff in Hr' as [Hin|[<-|[]]].
      * destruct (Hagg r' Hin) as [Hc Hv].
        rewrite Hold; [auto|].
        intros Heq. apply pair_hit_iff in Heq.
        assert (existsb hit (transfers g) = true); [|congruence].
        apply existsb_exists. exists r'. auto.
      * cbn [tr_src tr_dst tr_count tr_value_sum]. rewrite Hnew.
        assert (Hnone : pair_transactions g (tx_from t) (tx_to t) = []).
        { destruct (pair_transactions g (tx_from t) (tx_to t)) as [|u us] eqn:Eu;
            [reflexivity|exfalso].
          assert (Hu : In u (pair_transactions g (tx_from t) (tx_to t)))
            by (rewrite Eu; left; reflexivity).
          unfold pair_transactions in Hu. apply List.filter_In in Hu as [Hu Hp].
          apply andb_true_iff in Hp as [Hp1 Hp2].
          apply String.eqb_eq in Hp1, Hp2.
          destruct (Hcov u Hu) as (r & Hin & Hs & Hd).
          assert (existsb hit (transfers g) = true); [|congruence].
          apply existsb_exists. exists r. split; [exact Hin|].
          unfold hit. apply pair_hit_iff. congruence. }
        rewrite Hnone. split; [reflexivity|]. simpl. unfold Qsum. simpl. reflexivity.
  - intros u Hu. rewrite Htx in Hu.
    assert (Hpairs : forall a b,
              In (a, b) (map (fun r => (tr_src r, tr_dst r)) (transfers g)
                         ++ (if existsb hit (transfers g) then []
                             else [(tx_from t, tx_to t)])) ->
              exists r, In r (transfers (merge_row g t))
                        /\ tr_src r = a /\ tr_dst r = b).
    { intros a b Hab. unfold hit in Hab. rewrite <- merge_transfer_pairs in Hab.
      apply in_map_iff in Hab as (r & Hr & Hin). injection Hr as <- <-.
      exists r. auto. }
    apply in_app_iff in Hu as [Hu|[<-|[]]].
    + destruct (Hcov u Hu) as (r & Hin & Hs & Hd).
      apply Hpairs. apply in_app_iff. left.
      apply in_map_iff. exists r. split; [congruence|exact Hin].
    + apply Hpairs. apply in_app_iff.
      destruct (existsb hit (transfers g)) eqn:E.
      * left. apply existsb_exists in E as (r & Hin & Hh).
        apply in_map_iff. exists r. split; [|exact Hin].
        unfold hit in Hh. apply pair_hit_iff in Hh. exact Hh.
      * right. left. reflexivity.
Qed.

Lemma aggregates_agree_empty : aggregates_agree empty_graph.
Proof.
  unfold aggregates_agree, empty_graph. simpl.
  split; [apply NoDup_nil_2|]. split; intros ? [].
Qed.

Lemma stored_hash_merge_row g t u :
  stored_hash g t = false ->
  stored_hash (merge_row g t) u
  = stored_hash g u || String.eqb (tx_hash t) (tx_hash u).
Proof.
  intros Hf. unfold stored_hash at 1. unfold merge_row. cbn [transactions].
  rewrite (merge_transaction_fresh g t Hf), existsb_app. cbn [existsb].
  rewrite orb_false_r. reflexivity.
Qed.

Lemma merge_rows_agree (rows : list Transaction) :
  forall g,
    aggregates_agree g ->
    NoDup (map tx_hash rows) ->
    (forall t, In t rows -> stored_hash g t = false) ->
    aggregates_agree (fold_left merge_row rows g).
Proof.
  induction rows as [|t rows IH]; intros g Hg Hnd Hfresh; [exact Hg|].
  cbn [fold_left]. cbn [map] in Hnd. apply NoDup_cons in Hnd as [Hnot Hnd].
  assert (Ht : stored_hash g t = false) by (apply Hfresh; left; reflexivity).
  apply IH; [apply merge_row_agrees; assumption|exact Hnd|].
  intros u Hu. rewrite stored_hash_merge_row by exact Ht.
  rewrite (Hfresh u (or_intror Hu)). cbn [orb].
  apply String.eqb_neq. intros Heq. apply Hnot.
  apply list_elem_of_In, in_map_iff. exists u. auto.
Qed.

Lemma prepare_rows_hashes raw t :
  In t (_prepare_tx_rows raw) -> In (tx_hash t) (map raw_hash raw).
Proof.
  unfold _prepare_tx_rows. intros H.
  apply in_flat_map in H as (r & Hr & Ht).
  destruct (String.eqb (raw_to r) ""); [destruct Ht|].
  destruct Ht as [<-|[]]. cbn [tx_hash]. apply in_map. exact Hr.
Qed.

Lemma prepare_rows_nodup raw :
  NoDup (map raw_hash raw) -> NoDup (map tx_hash (_prepare_tx_rows raw)).
Proof.
  induction raw as [|r raw IH]; intros Hnd; [apply NoDup_nil_2|].
  cbn [map] in Hnd. apply NoDup_cons in Hnd as [Hnot Hnd].
  unfold _prepare_tx_rows. cbn [flat_map].
  destruct (String.eqb (raw_to r) ""); [apply IH, Hnd|].
  cbn [app map tx_hash]. apply NoDup_cons. split; [|apply IH, Hnd].
  intros Hin. apply Hnot. apply list_elem_of_In in Hin.
  apply in_map_iff in Hin as (t & Ht & Hin). rewrite <- Ht.
  apply list_elem_of_In. apply prepare_rows_hashes. exact Hin.
Qed.

Lemma py_take_sublist {A} (n : Z) (l : list A) : sublist (py_take n l) l.
Proof.
  unfold py_take. destruct (n <? 0)%Z; apply sublist_take.
Qed.

(** Ingesting a transaction list whose hashes are pairwise different and
    new to the store keeps every aggregated transfer equal to the count
    and the total value of the stored transactions of its pair. *)
Theorem ingest_address_agreement (chain : Chain) (g : Graph) (address : string)
    (limit : Z) (raw : list RawTx) :
  chain address = Some raw ->
  NoDup (map raw_hash raw) ->
  (forall u, In u (transactions g) -> ~ In (tx_hash u) (map raw_hash raw)) ->
  aggregates_agree g ->
  aggregates_agree (fst (ingest_address chain g address limit)).
Proof.
  intros Hc Hnd Hnew Hg. unfold ingest_address. rewrite Hc.
  set (raw' := if (limit =? 0)%Z then raw else py_take limit raw).
  assert (Hsub : sublist raw' raw).
  { subst raw'. destruct (limit =? 0)%Z; [reflexivity|apply py_take_sublist]. }
  assert (Hnd' : NoDup (map raw_hash raw')).
  { eapply sublist_NoDup; [exact Hnd|]. apply fmap_sublist. exact Hsub. }
  destruct (_prepare_tx_rows raw') as [|t rows] eqn:E; [exact Hg|].
  cbn [fst]. rewrite <- E. apply merge_rows_agree; [exact Hg| |].
  - apply prepare_rows_nodup. exact Hnd'.
  - intros u Hu. unfold stored_hash.
    destruct (existsb _ (transactions g)) eqn:Ex; [|reflexivity].
    exfalso. apply existsb_exists in Ex as (v & Hv & Heq).
    apply String.eqb_eq in Heq. apply (Hnew v Hv). rewrite Heq.
    apply prepare_rows_hashes in Hu.
    apply list_elem_of_In. apply list_elem_of_In in Hu.
    eapply elem_of_sublist; [exact Hu|]. apply fmap_sublist. exact Hsub.
Qed.

Lemma ingest_address_agreement_witness :
  Examples.triangle_chain "0xa"
  = Some [Examples.raw "h1" "0xa" "0xb" Examples.eth 1699990000;
          Examples.raw "h2" "0xb" "0xc" Examples.eth 1699990100;
          Examples.raw "h3" "0xc" "0xa" Examples.eth 1699990200]
  /\ aggregates_agree Examples.triangle.
Proof.
  split; [reflexivity|].
  apply (ingest_address_agreement Examples.triangle_chain empty_graph "0xa" 0
           _ eq_refl).
  - repeat (apply NoDup_cons; split;
            [intros H; apply list_elem_of_In in H; simpl in H;
             intuition discriminate|]).
    apply NoDup_nil_2.
  - intros u [].
  - exact aggregates_agree_empty.
Defined.

Lemma pair_transactions_stored g t a b :
  stored_hash g t = true ->
  pair_transactions (merge_row g t) a b = pair_transactions g a b.
Proof.
  intros H. unfold pair_transactions, merge_row. cbn [transactions].
  rewrite (merge_transaction_stored g t H). reflexivity.
Qed.

Lemma merge_transfer_hit t l r :
  In r l -> tr_src r = tx_from t -> tr_dst r = tx_to t ->
  In (mkTransfer (tr_src r) (tr_dst r) (tr_count r + 1)%Z
        (tr_value_sum r + tx_value t) (tx_time t)) (merge_transfer t l).
Proof.
  intros Hin Hs Hd. unfold merge_transfer. cbv zeta.
  destruct (existsb _ l) eqn:E.
  - apply in_map_iff. exists r. split; [|exact Hin].
    rewrite Hs, Hd, !String.eqb_refl. cbn [andb]. rewrite <- Hs, <- Hd. reflexivity.
  - exfalso. apply Bool.not_true_iff_false in E. apply E.
    apply existsb_exists. exists r. split; [exact Hin|].
    rewrite Hs, Hd, !String.eqb_refl. reflexivity.
Qed.

(** Ingesting again a transaction the store already holds leaves the
    Transaction nodes as they are ([MERGE] on the hash finds the node)
    but counts the transaction once more on the TRANSFER of its pair:
    [count] and [value_sum] then exceed the count and the total value of
    the pair's stored transactions by this transaction. *)
Theorem reingest_double_counts (g : Graph) (t u : Transaction) :
  aggregates_agree g ->
  In u (transactions g) ->
  tx_hash u = tx_hash t -> tx_from u = tx_from t -> tx_to u = tx_to t ->
  transactions (merge_row g t) = transactions g
  /\ (exists r,
        In r (transfers (merge_row g t))
        /\ tr_src r = tx_from t /\ tr_dst r = tx_to t
        /\ tr_count r
           = (zlen (pair_transactions (merge_row g t) (tx_from t) (tx_to t)) + 1)%Z
        /\ tr_value_sum r
           == Qsum (map tx_value
                      (pair_transactions (merge_row g t) (tx_from t) (tx_to t)))
              + tx_value t)
  /\ ~ aggregates_agree (merge_row g t).
Proof.
  intros Hg Hu Hh Hf Ht.
  assert (Hst : stored_hash g t = true).
  { unfold stored_hash. apply existsb_exists. exists u. split; [exact Hu|].
    apply String.eqb_eq. exact Hh. }
  destruct Hg as (Hnd & Hagg & Hcov).
  destruct (Hcov u Hu) as (r & Hr & Hs & Hd).
  rewrite Hf in Hs. rewrite Ht in Hd.
  destruct (Hagg r Hr) as (Hc & Hv). rewrite Hs, Hd in Hc, Hv.
  pose proof (merge_transfer_hit t (transfers g) r Hr Hs Hd) as Hin.
  assert (Hex : exists r',
        In r' (transfers (merge_row g t))
        /\ tr_src r' = tx_from t /\ tr_dst r' = tx_to t
        /\ tr_count r'
           = (zlen (pair_transactions (merge_row g t) (tx_from t) (tx_to t)) + 1)%Z
        /\ tr_value_sum r'
           == Qsum (map tx_value
                      (pair_transactions (merge_row g t) (tx_from t) (tx_to t)))
              + tx_value t).
  { eexists. split; [exact Hin|]. cbn [tr_src tr_dst tr_count tr_value_sum].
    rewrite (pair_transactions_stored g t _ _ Hst).
    split; [exact Hs|]. split; [exact Hd|]. split; [rewrite Hc; reflexivity|].
    rewrite Hv. reflexivity. }
  split.
  { unfold merge_row. cbn [transactions]. apply merge_transaction_stored, Hst. }
  split; [exact Hex|].
  intros (_ & Hagg' & _).
  destruct Hex as (r' & Hr' & Hs' & Hd' & Hc' & _).
  destruct (Hagg' r' Hr') as (Hc'' & _). rewrite Hs', Hd' in Hc''. lia.
Qed.

Lemma reingest_double_counts_witness :
  let t := mkTransaction "h1" "0xa" "0xb"
             (inject_Z Examples.eth / inject_Z (10 ^ 18)) 1699990000 1 0 in
  In t (transactions Examples.triangle)
  /\ ~ aggregates_agree (merge_row Examples.triangle t).
Proof.
  intros t.
  assert (Hin : In t (transactions Examples.triangle)).
  { vm_compute. left. reflexivity. }
  split; [exact Hin|].
  refine (proj2 (proj2 (reingest_double_counts Examples.triangle t t _ Hin
                          eq_refl eq_refl eq_refl))).
  split; [|split].
  - vm_compute.
    repeat (apply NoDup_cons; split;
            [intros H; apply list_elem_of_In in H; simpl in H;
             intuition discriminate|]).
    apply NoDup_nil_2.
  - intros r Hr. vm_compute in Hr.
    destruct Hr as [<-|[<-|[<-|[]]]]; vm_compute; split; reflexivity.
  - intros u Hu. vm_compute in Hu.
    destruct Hu as [<-|[<-|[<-|[]]]];
      solve [ eexists; split; [vm_compute; left; reflexivity|split; reflexivity]
            | eexists; split; [vm_compute; right; left; reflexivity
                              |split; reflexivity]
            | eexists; split; [vm_compute; right; right; left; reflexivity
                              |split; reflexivity] ].
Defined.

(** The number [ingest_address] reports. *)
Lemma prepare_rows_length raw :
  (length (_prepare_tx_rows raw) <= length raw)%nat.
Proof.
  unfold _prepare_tx_rows. induction raw as [|r raw IH]; [reflexivity|].
  cbn [flat_map]. destruct (String.eqb (raw_to r) ""); cbn [app length]; lia.
Qed.

Lemma py_take_length {A} (n : Z) (l : list A) :
  zlen (py_take n l)
  = if (n <? 0)%Z then Z.max 0 (zlen l + n) else Z.min n (zlen l).
Proof.
  unfold py_take, zlen. destruct (n <? 0)%Z eqn:E.
  - apply Z.ltb_lt in E. rewrite length_take. lia.
  - apply Z.ltb_ge in E. rewrite length_take. lia.
Qed.

(** What [ingest_address] reports as [ingested]: the number of rows
    with a recipient among the transactions kept by [raw[:limit]] (all of
    them when [limit] is 0 or absent, all but the last [-limit] when it is
    negative); when that number is 0 nothing is written. *)
Theorem ingest_address_count (chain : Chain) (g : Graph) (address : string)
    (limit : Z) (raw : list RawTx) :
  chain address = Some raw ->
  exists n,
    snd (ingest_address chain g address limit) = Some n
    /\ n = zlen (List.filter (fun t => negb (String.eqb (raw_to t) ""))
                   (if (limit =? 0)%Z then raw else py_take limit raw))
    /\ (0 <= n <= zlen raw)%Z
    /\ ((0 < limit)%Z -> (n <= limit)%Z)
    /\ ((limit < 0)%Z -> (n <= Z.max 0 (zlen raw + limit))%Z)
    /\ (n = 0%Z -> fst (ingest_address chain g address limit) = g).
Proof.
  intros Hc. unfold ingest_address. rewrite Hc.
  set (raw' := if (limit =? 0)%Z then raw else py_take limit raw).
  assert (Hlen : zlen (_prepare_tx_rows raw')
                  = zlen (List.filter (fun t => negb (String.eqb (raw_to t) "")) raw')).
  { unfold zlen. f_equal. unfold _prepare_tx_rows.
    induction raw' as [|r l IH]; [reflexivity|].
    cbn [flat_map List.filter].
    destruct (String.eqb (raw_to r) ""); cbn [negb app length]; congruence. }
  assert (Hle : (zlen (_prepare_tx_rows raw') <= zlen raw')%Z).
  { unfold zlen. pose proof (prepare_rows_length raw'). lia. }
  assert (Hraw' : (zlen raw' <= zlen raw)%Z
                  /\ ((0 < limit)%Z -> (zlen raw' <= limit)%Z)
                  /\ ((limit < 0)%Z -> (zlen raw' <= Z.max 0 (zlen raw + limit))%Z)).
  { subst raw'. destruct (limit =? 0)%Z eqn:E.
    - apply Z.eqb_eq in E. lia.
    - rewrite py_take_length. destruct (limit <? 0)%Z eqn:E'.
      + apply Z.ltb_lt in E'. unfold zlen. lia.
      + apply Z.ltb_ge in E'. lia. }
  exists (zlen (_prepare_tx_rows raw')).
  split.
  { destruct (_prepare_tx_rows raw'); reflexivity. }
  split; [exact Hlen|].
  split; [unfold zlen in *; lia|].
  split; [lia|]. split; [lia|].
  intros H0. destruct (_prepare_tx_rows raw'); [reflexivity|].
  unfold zlen in H0. cbn [length] in H0. lia.
Qed.

Lemma ingest_address_count_witness :
  exists n,
    snd (ingest_address Examples.triangle_chain empty_graph "0xa" 2) = Some n
    /\ (n <= 2)%Z.
Proof.
  destruct (ingest_address_count Examples.triangle_chain empty_graph "0xa" 2 _ eq_refl)
    as (n & Hn & _ & _ & Hl & _).
  exists n. split; [exact Hn|]. apply Hl. lia.
Defined.

Module CrawlerFindings.

Import Crawler.

Lemma fold_add_from (l : list Z) :
  Forall (fun n => (0 <= n)%Z) l ->
  forall acc : Z, (acc <= fold_left Z.add l acc)%Z.
Proof.
  induction 1 as [|n l Hn _ IH]; intros acc; [reflexivity|].
  cbn [fold_left]. specialize (IH (acc + n)%Z). lia.
Qed.

Lemma count_alerts_nonneg (an : Analytics) : (0 <= count_alerts an)%Z.
Proof.
  unfold count_alerts. apply fold_add_from.
  apply List.Forall_forall. intros n Hn.
  apply in_map_iff in Hn as (kv & <- & _). unfold zlen. lia.
Qed.

Section Crawl.

Context {W : Type}.
Variable ingest : W -> string -> Z -> W * option Z.
Variable analytics_tx : W -> string -> W * option Analytics.
Variable connected_query : W -> string -> Q -> W * option (list (option string)).
Variable sleep : W -> Q -> W.

Abbreviation step := (crawl_step ingest analytics_tx connected_query sleep).
Abbreviation analyze := (_analyze_address ingest analytics_tx).
Abbreviation reach := (reaches ingest analytics_tx connected_query sleep).

(** What [_analyze_address] returns and what it does to the counters. *)
Lemma analyze_address_result cfg w st address depth w' st' result :
  analyze cfg w st address depth = (w', st', result) ->
  addresses_analyzed st' = addresses_analyzed st
  /\ suspicious_count st' = suspicious_count st
  /\ (total_alerts st <= total_alerts st')%Z
  /\ forall res, result = Some res ->
       s_address res = address /\ s_depth res = depth
       /\ s_risk_score res = _calculate_quick_risk_score address (s_alerts res)
       /\ 40 <= s_risk_score res <= 100.
Proof.
  unfold _analyze_address.
  destruct (ingest w address _) as [w1 [ingested|]].
  2:{ intros H. injection H as <- <- <-.
      split; [reflexivity|]. split; [reflexivity|]. split; [lia|].
      intros res Hres. discriminate Hres. }
  destruct (ingested =? 0)%Z.
  { intros H. injection H as <- <- <-.
    split; [reflexivity|]. split; [reflexivity|]. split; [lia|].
    intros res Hres. discriminate Hres. }
  destruct (analytics_tx w1 address) as [w2 [an|]].
  - destruct (Qgeb (_calculate_quick_risk_score address an) 40) eqn:Hq;
      intros H; injection H as <- <- <-; cbn [addresses_analyzed suspicious_count
        total_alerts]; pose proof (count_alerts_nonneg an);
      (split; [reflexivity|]); (split; [reflexivity|]); (split; [lia|]);
      intros res Hres; [|discriminate].
    injection Hres as <-. cbn [s_address s_depth s_risk_score s_alerts].
    split; [reflexivity|]. split; [reflexivity|]. split; [reflexivity|].
    split; [apply Qle_bool_iff; exact Hq|].
    unfold _calculate_quick_risk_score. apply Q.le_min_l.
  - destruct (Qgeb (_calculate_quick_risk_score address []) 40) eqn:Hq;
      intros H; injection H as <- <- <-;
      (split; [reflexivity|]); (split; [reflexivity|]); (split; [lia|]);
      intros res Hres; [|discriminate].
    exfalso. vm_compute in Hq. discriminate Hq.
Qed.

(** What one iteration does to the counters and to the findings. *)
Lemma crawl_step_findings cfg w s w' s' :
  step cfg w s = Some (w', s') ->
  (stats s' = stats s /\ suspicious_found s' = suspicious_found s
   /\ analysis_log s' = analysis_log s /\ visited s' = visited s
   /\ exists head, to_analyze s = head :: to_analyze s')
  \/ exists address depth rest w1 st1 result children,
       to_analyze s = (address, depth) :: rest
       /\ (address ∉ visited s)
       /\ (depth <= max_depth cfg)%Z
       /\ analyze cfg w (stats s) address depth = (w1, st1, result)
       /\ visited s' = {[address]} ∪ visited s
       /\ analysis_log s' = analysis_log s ++ [(address, depth)]
       /\ suspicious_found s' = suspicious_found s ++ option_list result
       /\ suspicious_count (stats s')
          = (suspicious_count st1 + zlen (option_list result))%Z
       /\ (addresses_analyzed st1 <= addresses_analyzed (stats s')
           <= addresses_analyzed st1 + 1)%Z
       /\ total_alerts (stats s') = total_alerts st1
       /\ to_analyze s' = rest ++ children
       /\ (children = []
           \/ exists res, result = Some res
                /\ min_risk_score_to_expand cfg <= s_risk_score res
                /\ (depth < max_depth cfg)%Z
                /\ Forall (fun c => snd c = (depth + 1)%Z) children).
Proof.
  unfold crawl_step.
  destruct (to_analyze s) as [|[address depth] rest] eqn:Hq; [discriminate|].
  destruct (Z.of_nat (size (visited s)) <? max_addresses cfg)%Z; [|discriminate].
  cbn [negb].
  destruct (bool_decide (address ∈ visited s)) eqn:Hv.
  { intros H. injection H as <- <-. left. simpl. eauto 10. }
  apply bool_decide_eq_false in Hv.
  destruct (max_depth cfg <? depth)%Z eqn:Hd.
  { intros H. injection H as <- <-. left. simpl. eauto 10. }
  apply Z.ltb_ge in Hd. cbn [orb]. intros H. right.
  destruct (analyze cfg w (stats s) address depth) as [[w1 st1] result] eqn:Ha.
  exists address, depth, rest, w1, st1, result.
  destruct result as [res|].
  - destruct (Qgeb (s_risk_score res) (min_risk_score_to_expand cfg)) eqn:Hr;
      cbn [andb] in H.
    + destruct (depth <? max_depth cfg)%Z eqn:Hlt.
      * destruct (_get_connected_addresses connected_query cfg w1 address)
          as [w2 [l|]] eqn:Hc; injection H as <- <-.
        -- exists (children_of ({[address]} ∪ visited s) l depth).
           simpl. repeat (split; [auto; lia|]).
           right. exists res. split; [reflexivity|].
           split; [apply Qle_bool_iff; exact Hr|].
           split; [apply Z.ltb_lt; exact Hlt|].
           apply List.Forall_forall. intros c Hin.
           unfold children_of in Hin. apply in_map_iff in Hin as (x & <- & _).
           reflexivity.
        -- exists []. simpl. rewrite app_nil_r.
           repeat (split; [auto; lia|]). left. reflexivity.
      * injection H as <- <-. exists []. simpl. rewrite app_nil_r.
        repeat (split; [auto; lia|]). left. reflexivity.
    + injection H as <- <-. exists []. simpl. rewrite app_nil_r.
      repeat (split; [auto; lia|]). left. reflexivity.
  - injection H as <- <-. exists []. unfold zlen. simpl. rewrite !app_nil_r.
    repeat (split; [auto; lia|]). left. reflexivity.
Qed.


Lemma reaches_preserved cfg (I : State -> Prop) :
  (forall w s w' s', step cfg w s = Some (w', s') -> I s -> I s') ->
  forall x y, reach cfg x y -> I (snd x) -> I (snd y).
Proof.
  intros Hstep x y H. induction H as [x|w s w' s' y Hs _ IH]; [auto|].
  intros Hi. apply IH. simpl in *. eapply Hstep; eauto.
Qed.

(** The seed or the finding an entry [(a, d)] of the worklist comes from. *)
Lemma findings_preserved cfg w s w' s' :
  step cfg w s = Some (w', s') ->
  ((forall a, In a (map fst (analysis_log s)) -> a ∈ visited s)
   /\ suspicious_count (stats s) = zlen (suspicious_found s)
   /\ NoDup (map s_address (suspicious_found s))
   /\ (forall r, In r (suspicious_found s) ->
         In (s_address r, s_depth r) (analysis_log s)
         /\ s_risk_score r = _calculate_quick_risk_score (s_address r) (s_alerts r)
         /\ 40 <= s_risk_score r <= 100)
   /\ (0 <= addresses_analyzed (stats s) <= zlen (analysis_log s))%Z
   /\ (0 <= total_alerts (stats s))%Z) ->
  ((forall a, In a (map fst (analysis_log s')) -> a ∈ visited s')
   /\ suspicious_count (stats s') = zlen (suspicious_found s')
   /\ NoDup (map s_address (suspicious_found s'))
   /\ (forall r, In r (suspicious_found s') ->
         In (s_address r, s_depth r) (analysis_log s')
         /\ s_risk_score r = _calculate_quick_risk_score (s_address r) (s_alerts r)
         /\ 40 <= s_risk_score r <= 100)
   /\ (0 <= addresses_analyzed (stats s') <= zlen (analysis_log s'))%Z
   /\ (0 <= total_alerts (stats s'))%Z).
Proof.
  intros Hstep Hinv.
  apply crawl_step_findings in Hstep
    as [(-> & -> & -> & -> & _)
       |(address & depth & rest & w1 & st1 & result & children & Hq & Hnv & Hd
         & Ha & Hv & Hl & Hf & Hsc & Han & Htot & _)];
    [exact Hinv|].
  destruct Hinv as (Hlog & Hcnt & Hnd & Hrec & Haa & Hta).
  apply analyze_address_result in Ha as (Ha1 & Ha2 & Ha3 & Hres).
  rewrite Hv, Hl, Hf, Hsc, Htot.
  split.
  { intros a Hin. rewrite map_app in Hin. apply in_app_iff in Hin as [Hin|[<-|[]]].
    - apply elem_of_union. right. auto.
    - apply elem_of_union. left. apply elem_of_singleton. reflexivity. }
  split.
  { unfold zlen in *. rewrite length_app. lia. }
  split.
  { rewrite map_app. apply NoDup_app. split; [exact Hnd|].
    split.
    - intros x Hx1 Hx2. destruct result as [res|]; [|inversion Hx2].
      destruct (Hres res eq_refl) as (Hadr & _).
      cbn [option_list map] in Hx2. apply list_elem_of_In in Hx2 as [<-|[]].
      apply list_elem_of_In, in_map_iff in Hx1 as (r & Hr & Hin).
      apply Hnv, Hlog. apply in_map_iff. exists (s_address r, s_depth r).
      split; [cbn [fst]; congruence|]. apply Hrec. exact Hin.
    - destruct result; [apply NoDup_singleton|apply NoDup_nil_2]. }
  split.
  { intros r Hin. apply in_app_iff in Hin as [Hin|Hin].
    - destruct (Hrec r Hin) as (H1 & H2). split; [|exact H2].
      apply in_app_iff. left. exact H1.
    - destruct result as [res|]; [|destruct Hin].
      destruct Hin as [<-|[]].
      destruct (Hres res eq_refl) as (Hadr & Hdep & Hsc' & Hrange).
      split; [apply in_app_iff; right; left; congruence|].
      split; [congruence|exact Hrange]. }
  split.
  { unfold zlen in *. rewrite length_app. cbn [length]. lia. }
  lia.
Qed.



(** The findings of a crawl, in every state the loop reaches:
    [suspicious_count] is the number of recorded findings, no address is
    recorded twice, every finding was analysed at its depth and bears the
    quick score of its alerts, which is at least 40; and the counters are
    not negative, the analysed count not above the number of addresses
    the loop took from its worklist. *)
Theorem crawl_findings cfg (w w' : W) (s' : State) :
  reach cfg (w, initial_state cfg) (w', s') ->
  suspicious_count (stats s') = zlen (suspicious_found s')
  /\ NoDup (map s_address (suspicious_found s'))
  /\ (forall r, In r (suspicious_found s') ->
        In (s_address r, s_depth r) (analysis_log s')
        /\ s_risk_score r = _calculate_quick_risk_score (s_address r) (s_alerts r)
        /\ 40 <= s_risk_score r <= 100)
  /\ (0 <= addresses_analyzed (stats s') <= zlen (analysis_log s'))%Z
  /\ (0 <= total_alerts (stats s'))%Z.
Proof.
  intros Hreach.
  apply (reaches_preserved cfg _ (findings_preserved cfg)) in Hreach.
  - cbn [snd] in Hreach. tauto.
  - unfold initial_state. cbn. unfold zlen. cbn.
    repeat split; try lia; try (intros ? []); apply NoDup_nil_2.
Qed.



Lemma crawl_loop_reaches cfg fuel :
  forall w s final,
    crawl_loop ingest analytics_tx connected_query sleep fuel cfg w s = Some final ->
    reach cfg (w, s) final.
Proof.
  induction fuel as [|fuel IH]; intros w s final H; cbn [crawl_loop] in H.
  - destruct (step cfg w s) as [[w1 s1]|]; [discriminate|].
    injection H as <-. constructor.
  - destruct (step cfg w s) as [[w1 s1]|] eqn:E.
    + econstructor; [exact E|]. apply IH. exact H.
    + injection H as <-. constructor.
Qed.

End Crawl.
End CrawlerFindings.

Lemma crawl_findings_witness :
  exists final,
    Deployment.crawl Examples.hub_chain 20 Examples.crawl_config Examples.hub_world
    = Some final
    /\ Crawler.suspicious_count (Crawler.stats (snd final))
       = zlen (Crawler.suspicious_found (snd final))
    /\ NoDup (map Crawler.s_address (Crawler.suspicious_found (snd final))).
Proof.
  destruct (Deployment.crawl Examples.hub_chain 20 Examples.crawl_config
              Examples.hub_world) as [[w' s']|] eqn:E;
    [|exfalso; vm_compute in E; discriminate E].
  exists (w', s'). split; [reflexivity|].
  pose proof (CrawlerFindings.crawl_findings _ _ _ _ _ _ _ _
                (CrawlerFindings.crawl_loop_reaches _ _ _ _ _ _ _ _ _ E)) as H.
  cbn [snd]. split; [apply H|apply H].
Defined.


Module ExpansionBooks.
Import Expansion ExpansionDefs.

Lemma tree_addresses_unfold r :
  tree_addresses r
  = e_address r :: match e_sub_expansions r with
                   | None => []
                   | Some sub_expansions => flat_map tree_addresses sub_expansions
                   end.
Proof.
  destruct r as [a p d an [subs|]]; reflexivity.
Qed.

Lemma flat_map_snoc {A B} (f : A -> list B) l x :
  flat_map f (l ++ [x]) = flat_map f l ++ f x.
Proof. rewrite flat_map_app. cbn [flat_map]. rewrite app_nil_r. reflexivity. Qed.

Section Expand.

Context {W : Type}.
Variable ingest : W -> string -> Z -> W * option Z.
Variable analytics_tx : W -> string -> W * option Analytics.
Variable connected_query :
  W -> string -> Q -> Z -> W * option (list (option string)).

Abbreviation full_analysis := (_full_analysis ingest analytics_tx).
Abbreviation each := (each_connected ingest analytics_tx).
Abbreviation expand := (_expand_from_address ingest analytics_tx connected_query).
Abbreviation run := (analyze_with_expansion ingest analytics_tx connected_query).

Lemma expansion_connected_lowercase cfg w address w' l :
  _get_connected_addresses connected_query cfg w address = (w', Some l) ->
  Forall (fun c => lower c = c) l.
Proof.
  unfold _get_connected_addresses.
  destruct (connected_query w address _ _) as [w1 [records|]]; simpl;
    [|discriminate].
  intros H. injection H as _ <-.
  apply List.Forall_forall. intros c Hc.
  apply in_flat_map in Hc as ([a|] & _ & Ha); [|destruct Ha].
  destruct (String.eqb a ""); [destruct Ha|].
  destruct Ha as [<-|[]]. apply lower_idempotent.
Qed.

Lemma ledger_analyzed s0 s l conn :
  conn ∉ expanded_addresses s ->
  expansion_ledger 0 s0 s l ->
  expansion_ledger 0 s0 (note_analyzed conn s) l.
Proof.
  intros Hn (Hsub & Hnd & Hmem & Hsz & Hlen & Hhigh & Htrig & Hini).
  unfold expansion_ledger, note_analyzed.
  cbn [expanded_addresses stats total_addresses_analyzed high_risk_found
       expansions_triggered initial_addresses].
  rewrite size_union by (apply disjoint_singleton_l; exact Hn).
  rewrite size_singleton.
  split; [intros x Hx; apply elem_of_union; right; apply Hsub, Hx|].
  split; [exact Hnd|].
  split.
  { intros a Ha. destruct (Hmem a Ha) as (H1 & H2 & H3).
    split; [exact H1|]. split; [apply elem_of_union; right; exact H2|exact H3]. }
  repeat split; lia.
Qed.

Lemma ledger_result s0 s l conn :
  conn ∉ expanded_addresses s ->
  lower conn = conn ->
  expansion_ledger 0 s0 s l ->
  expansion_ledger 0 s0 (note_analyzed conn s) (l ++ [conn]).
Proof.
  intros Hn Hlow (Hsub & Hnd & Hmem & Hsz & Hlen & Hhigh & Htrig & Hini).
  unfold expansion_ledger, note_analyzed.
  cbn [expanded_addresses stats total_addresses_analyzed high_risk_found
       expansions_triggered initial_addresses].
  rewrite size_union by (apply disjoint_singleton_l; exact Hn).
  rewrite size_singleton.
  split; [intros x Hx; apply elem_of_union; right; apply Hsub, Hx|].
  split.
  { apply NoDup_app. split; [exact Hnd|]. split; [|apply NoDup_singleton].
    intros x Hx1 Hx2. apply list_elem_of_In in Hx1, Hx2.
    destruct Hx2 as [<-|[]]. apply Hn. apply (Hmem conn Hx1). }
  split.
  { intros a Ha. apply in_app_iff in Ha as [Ha|[<-|[]]].
    - destruct (Hmem a Ha) as (H1 & H2 & H3).
      split; [exact H1|]. split; [apply elem_of_union; right; exact H2|exact H3].
    - split; [intros Hin; apply Hn, Hsub, Hin|].
      split; [apply elem_of_union; left; apply elem_of_singleton; reflexivity|].
      exact Hlow. }
  unfold zlen in *. rewrite length_app. cbn [length].
  repeat split; lia.
Qed.

Lemma ledger_sub_expansions s0 s s2 l conn subs :
  conn ∉ expanded_addresses s ->
  lower conn = conn ->
  expansion_ledger 0 s0 s l ->
  expansion_ledger 1 (note_high_risk (note_analyzed conn s)) s2 subs ->
  expansion_ledger 0 s0 s2 (l ++ conn :: subs).
Proof.
  intros Hn Hlow (Hsub & Hnd & Hmem & Hsz & Hlen & Hhigh & Htrig & Hini)
    (Hsub' & Hnd' & Hmem' & Hsz' & Hlen' & Hhigh' & Htrig' & Hini').
  unfold note_high_risk, note_analyzed in *.
  cbn [expanded_addresses stats total_addresses_analyzed high_risk_found
       expansions_triggered initial_addresses] in *.
  rewrite size_union in Hsz' by (apply disjoint_singleton_l; exact Hn).
  rewrite size_singleton in Hsz'.
  assert (Hs2 : forall x, x ∈ expanded_addresses s -> x ∈ expanded_addresses s2).
  { intros x Hx. apply Hsub'. apply elem_of_union. right. exact Hx. }
  assert (Hc2 : conn ∈ expanded_addresses s2).
  { apply Hsub'. apply elem_of_union. left. apply elem_of_singleton. reflexivity. }
  assert (Hsubs : forall a, In a subs ->
            a <> conn /\ (a ∉ expanded_addresses s)).
  { intros a Ha. destruct (Hmem' a Ha) as (H1 & _).
    split.
    - intros ->. apply H1. apply elem_of_union. left.
      apply elem_of_singleton. reflexivity.
    - intros Hin. apply H1. apply elem_of_union. right. exact Hin. }
  unfold expansion_ledger.
  split; [intros x Hx; apply Hs2, Hsub, Hx|].
  split.
  { apply NoDup_app. split; [exact Hnd|]. split.
    - intros x Hx1 Hx2. apply list_elem_of_In in Hx1, Hx2.
      destruct (Hmem x Hx1) as (_ & Hx & _).
      destruct Hx2 as [<-|Hx2]; [contradiction|].
      destruct (Hsubs x Hx2) as [_ Hns]. apply Hns. exact Hx.
    - apply NoDup_cons. split; [|exact Hnd'].
      intros Hin. apply list_elem_of_In in Hin.
      destruct (Hsubs conn Hin) as [Hne _]. apply Hne. reflexivity. }
  split.
  { intros a Ha. apply in_app_iff in Ha as [Ha|[<-|Ha]].
    - destruct (Hmem a Ha) as (H1 & H2 & H3). auto.
    - split; [intros Hin; apply Hn, Hsub, Hin|]. auto.
    - destruct (Hmem' a Ha) as (H1 & H2 & H3).
      split; [|auto]. intros Hin.
      destruct (Hsubs a Ha) as [_ Hns]. apply Hns, Hsub, Hin. }
  unfold zlen in *. rewrite length_app. cbn [length].
  repeat split; lia.
Qed.

Lemma each_connected_ledger recurse cfg address depth :
  (forall w s a w' s' res,
     recurse w s a = Some (w', s', Some res) ->
     expansion_ledger 1 s s' (flat_map tree_addresses res)) ->
  forall l w s acc w' s' res s0,
    Forall (fun c => lower c = c) l ->
    expansion_ledger 0 s0 s (flat_map tree_addresses acc) ->
    each recurse cfg address depth l w s acc = Some (w', s', Some res) ->
    expansion_ledger 0 s0 s' (flat_map tree_addresses res).
Proof.
  intros Hrec. induction l as [|conn l IH]; intros w s acc w' s' res s0 Hlow Hacc H.
  - simpl in H. injection H as _ <- <-. exact Hacc.
  - apply Forall_cons in Hlow as [Hc Hlow].
    cbn [each_connected] in H.
    destruct (bool_decide (conn ∈ expanded_addresses s)) eqn:Hv; [eauto|].
    apply bool_decide_eq_false in Hv.
    destruct (full_analysis w conn) as [w1 [an|]] eqn:Ean.
    2:{ eapply IH; [exact Hlow| |exact H]. apply ledger_analyzed; assumption. }
    destruct (Qgeb (a_risk_score an) (trigger_risk_score cfg)) eqn:Hq.
    + destruct (recurse w1 (note_high_risk (note_analyzed conn s)) conn)
        as [[[w2 s2] [subs|]]|] eqn:Er; try discriminate.
      eapply IH; [exact Hlow| |exact H].
      rewrite flat_map_snoc, tree_addresses_unfold.
      cbn [e_address e_sub_expansions].
      eapply ledger_sub_expansions; eauto.
    + eapply IH; [exact Hlow| |exact H].
      rewrite flat_map_snoc, tree_addresses_unfold.
      cbn [e_address e_sub_expansions].
      apply ledger_result; assumption.
Qed.

Lemma ledger_refl k s : (0 <= k)%Z -> expansion_ledger k s s [].
Proof.
  intros Hk. unfold expansion_ledger, zlen. cbn [length].
  split; [reflexivity|]. split; [apply NoDup_nil_2|].
  split; [intros a []|]. repeat split; lia.
Qed.

Lemma expand_ledger cfg fuel :
  forall w s address depth w' s' res,
    expand fuel cfg w s address depth = Some (w', s', Some res) ->
    expansion_ledger 1 s s' (flat_map tree_addresses res).
Proof.
  induction fuel as [|fuel IH]; intros w s address depth w' s' res H.
  - simpl in H. destruct (expansion_depth cfg <=? depth)%Z; [|discriminate].
    injection H as _ <- <-. apply ledger_refl. lia.
  - cbn [_expand_from_address] in H.
    destruct (expansion_depth cfg <=? depth)%Z eqn:Hg.
    { injection H as _ <- <-. apply ledger_refl. lia. }
    destruct (_get_connected_addresses connected_query cfg w address)
      as [w1 [connected|]] eqn:Hc; [|discriminate].
    apply expansion_connected_lowercase in Hc.
    eapply each_connected_ledger with (s0 := note_expansion address connected s)
      in H; [| |exact Hc|apply ledger_refl; lia].
    2:{ intros w2 s2 a w3 s3 res' Hr. cbv beta in Hr. eapply IH. exact Hr. }
    destruct H as (Hsub & Hnd & Hmem & Hsz & Hlen & Hhigh & Htrig & Hini).
    unfold note_expansion in *.
    cbn [expanded_addresses stats total_addresses_analyzed high_risk_found
         expansions_triggered initial_addresses] in *.
    unfold expansion_ledger. repeat split; auto; try lia; apply Hmem; auto.
Qed.

(** The bookkeeping of a whole auto-expansion. The addresses of the
    expansion tree are pairwise different, lower-cased, different from
    the initial address and all in [expanded_addresses], which holds one
    address more than [total_addresses_analyzed] counts; the tree has at
    least [high_risk_found] and at most [total_addresses_analyzed]
    addresses; expansions were triggered at most once more than
    high-risk counterparties were found; and the statistics returned are
    those of the final state. *)
Theorem expansion_bookkeeping (fuel : nat) cfg (w w' : W) (s : State)
    (initial_address : string) (r : Results) :
  run fuel cfg w initial_address = Some (w', s, Some r) ->
  let l := flat_map tree_addresses (r_expansions r) in
  NoDup l
  /\ ~ In (lower initial_address) l
  /\ (forall a, In a l -> (a ∈ expanded_addresses s) /\ lower a = a)
  /\ (lower initial_address ∈ expanded_addresses s)
  /\ Z.of_nat (size (expanded_addresses s))
     = (1 + total_addresses_analyzed (stats s))%Z
  /\ (high_risk_found (stats s) <= zlen l
      <= total_addresses_analyzed (stats s))%Z
  /\ (0 <= expansions_triggered (stats s) <= 1 + high_risk_found (stats s))%Z
  /\ initial_addresses (stats s) = 1%Z
  /\ r_stats r = stats s.
Proof.
  unfold analyze_with_expansion.
  destruct (full_analysis w initial_address) as [w1 [an|]] eqn:Ean.
  - destruct (Qgeb (a_risk_score an) (trigger_risk_score cfg)) eqn:Hq.
    + match goal with
      | |- context [expand fuel cfg w1 ?s0 initial_address 0%Z] =>
          destruct (expand fuel cfg w1 s0 initial_address 0%Z)
            as [[[w2 s2] [res|]]|] eqn:Ex
      end; try discriminate.
      intros H. injection H as <- <- <-. cbn [r_expansions r_stats].
      apply expand_ledger in Ex
        as (Hsub & Hnd & Hmem & Hsz & Hlen & Hhigh & Htrig & Hini).
      cbn [expanded_addresses stats total_addresses_analyzed high_risk_found
           expansions_triggered initial_addresses initial_state] in *.
      rewrite union_empty_r_L, size_singleton in Hsz.
      cbv zeta.
      split; [exact Hnd|].
      split.
      { intros Hin. apply (Hmem _ Hin). apply elem_of_union. left.
        apply elem_of_singleton. reflexivity. }
      split; [intros a Ha; destruct (Hmem a Ha) as (_ & H2 & H3); auto|].
      split.
      { apply Hsub. apply elem_of_union. left. apply elem_of_singleton. reflexivity. }
      repeat split; lia.
    + intros H. injection H as <- <- <-.
      cbn. rewrite union_empty_r_L, size_singleton. unfold zlen. cbn.
      split; [apply NoDup_nil_2|]. split; [intros []|].
      split; [intros a []|].
      split; [apply elem_of_singleton; reflexivity|].
      repeat split; lia.
  - intros H. injection H as <- <- <-.
    cbn. rewrite union_empty_r_L, size_singleton. unfold zlen. cbn.
    split; [apply NoDup_nil_2|]. split; [intros []|].
    split; [intros a []|].
    split; [apply elem_of_singleton; reflexivity|].
    repeat split; lia.
Qed.

End Expand.
End ExpansionBooks.

Lemma expansion_bookkeeping_witness :
  exists w' s r,
    Expansion.analyze_with_expansion (Deployment.ingest Examples.hub_chain)
      Deployment.analytics_tx Deployment.expansion_connected 2
      Examples.default_expansion Examples.hub_world "0xa"
    = Some (w', s, Some r)
    /\ NoDup (flat_map ExpansionDefs.tree_addresses (Expansion.r_expansions r))
    /\ Z.of_nat (size (Expansion.expanded_addresses s))
       = (1 + Expansion.total_addresses_analyzed (Expansion.stats s))%Z.
Proof.
  destruct (Expansion.analyze_with_expansion (Deployment.ingest Examples.hub_chain)
              Deployment.analytics_tx Deployment.expansion_connected 2
              Examples.default_expansion Examples.hub_world "0xa")
    as [[[w' s] [r|]]|] eqn:E;
    [|exfalso; vm_compute in E; discriminate E..].
  exists w', s, r. split; [reflexivity|].
  pose proof (ExpansionBooks.expansion_bookkeeping
                (Deployment.ingest Examples.hub_chain) Deployment.analytics_tx
                Deployment.expansion_connected 2 Examples.default_expansion
                Examples.hub_world w' s "0xa" r E) as H.
  cbv zeta in H. split; [apply H|apply H].
Defined.

Module JobIds.
Import Automation AutomationDefs.

Lemma append_cons c a b : (String c a +:+ b = String c (a +:+ b))%string.
Proof. reflexivity. Qed.

Lemma append_assoc a b c : ((a +:+ b) +:+ c = a +:+ (b +:+ c))%string.
Proof.
  induction a as [|x a IH]; [reflexivity|].
  rewrite !append_cons, IH. reflexivity.
Qed.

Lemma pretty_N_go_no_underscore (x : N) :
  forall s,
    (forall a b, s <> (a +:+ String "_" b)%string) ->
    forall a b, pretty_N_go x s <> (a +:+ String "_" b)%string.
Proof.
  induction (N.lt_wf_0 x) as [x _ IH]; intros s Hs.
  assert (x = 0 \/ 0 < x)%N as [->|Hx] by lia.
  - rewrite pretty_N_go_0. exact Hs.
  - rewrite pretty_N_go_step by exact Hx. apply IH.
    { apply N.div_lt; [exact Hx|reflexivity]. }
    intros a b Heq. destruct a as [|c a].
    + injection Heq as Hc _. revert Hc. unfold pretty_N_char.
      repeat case_match; discriminate.
    + rewrite append_cons in Heq. injection Heq as _ Heq. exact (Hs a b Heq).
Qed.

Lemma decimal_digits (n : Z) :
  forall a b, decimal n <> (a +:+ String "_" b)%string.
Proof.
  assert (Hpos : forall p a b,
            pretty (N.pos p) <> (a +:+ String "_" b)%string).
  { intros p. unfold pretty, pretty_N.
    destruct (decide (N.pos p = 0%N)); [discriminate|].
    apply pretty_N_go_no_underscore. intros [|c x] y; discriminate. }
  intros a b. unfold decimal, pretty, pretty_Z.
  destruct n as [|p|p].
  - destruct a as [|c [|c' a]]; discriminate.
  - apply Hpos.
  - destruct a as [|c a]; [discriminate|].
    change ("-" +:+ pretty p)%string with (String "-" (pretty (N.pos p))).
    rewrite append_cons. intros Heq. injection Heq as _ Heq.
    exact (Hpos p a b Heq).
Qed.

(** The text after the last underscore of an id. *)
Lemma last_segment (p1 : string) :
  forall p2 d1 d2,
    (forall a b, d1 <> (a +:+ String "_" b)%string) ->
    (forall a b, d2 <> (a +:+ String "_" b)%string) ->
    (p1 +:+ String "_" d1 = p2 +:+ String "_" d2)%string ->
    d1 = d2.
Proof.
  induction p1 as [|c p1 IH]; intros [|c2 p2] d1 d2 H1 H2 Heq.
  - injection Heq as ->. reflexivity.
  - rewrite append_cons in Heq. injection Heq as _ Heq.
    exfalso. exact (H1 _ _ Heq).
  - rewrite append_cons in Heq. injection Heq as _ Heq.
    exfalso. symmetry in Heq. exact (H2 _ _ Heq).
  - rewrite !append_cons in Heq. injection Heq as _ Heq. eauto.
Qed.

Section Ids.

Context {W MonitorStats : Type}.
Variable utcnow_isoformat : W -> string.
Variable utcnow_stamp : W -> string.

Abbreviation Controller := (@Controller MonitorStats).
Abbreviation generate := (@_generate_job_id W MonitorStats utcnow_stamp).
Abbreviation start := (@start_job_async W MonitorStats utcnow_isoformat utcnow_stamp).

Lemma generated_id (c : Controller) (w : W) (kind : string) :
  snd (generate c w kind)
  = ((kind +:+ "_" +:+ utcnow_stamp w) +:+ "_" +:+ decimal (job_counter c + 1))%string
  /\ job_counter (fst (generate c w kind)) = (job_counter c + 1)%Z
  /\ active_jobs (fst (generate c w kind)) = active_jobs c
  /\ threads (fst (generate c w kind)) = threads c.
Proof.
  unfold _generate_job_id. cbn [fst snd job_counter active_jobs threads].
  split; [|auto]. rewrite !append_assoc. reflexivity.
Qed.

Lemma issued_differs (front front' : string) (n m : Z) :
  n <> m ->
  (front +:+ "_" +:+ decimal n <> front' +:+ "_" +:+ decimal m)%string.
Proof.
  intros Hne Heq.
  apply last_segment in Heq; [|apply decimal_digits..].
  apply Hne. unfold decimal in Heq. apply (inj pretty) in Heq. exact Heq.
Qed.

(** Ids generated at different values of [job_counter] differ, whatever
    the job type and the clock. *)
Theorem job_ids_differ (c1 c2 : Controller) (w1 w2 : W) (kind1 kind2 : string) :
  job_counter c1 <> job_counter c2 ->
  snd (generate c1 w1 kind1) <> snd (generate c2 w2 kind2).
Proof.
  intros Hne.
  rewrite (proj1 (generated_id c1 w1 kind1)), (proj1 (generated_id c2 w2 kind2)).
  apply issued_differs. lia.
Qed.

Lemma ids_issued_same_keys (c c' : Controller) :
  (forall id, is_Some (active_jobs c' !! id) -> is_Some (active_jobs c !! id)) ->
  (job_counter c <= job_counter c')%Z ->
  ids_issued c -> ids_issued c'.
Proof.
  intros Hkeys Hle Hc id Hid.
  destruct (Hc id (Hkeys id Hid)) as (front & n & -> & Hn).
  exists front, n. split; [reflexivity|lia].
Qed.

(** A new job never takes the id of a registered one. *)
Theorem start_job_fresh_id (c : Controller) (w : W) (kind : string) (p : Params) :
  ids_issued c ->
  let c' := fst (start c w kind p) in
  let job := snd (start c w kind p) in
  get_job_status c (job_id job) = None
  /\ get_job_status c' (job_id job) = Some job
  /\ status job = started /\ result job = None /\ params job = p
  /\ threads c' !! job_id job = Some p
  /\ (forall other, other <> job_id job ->
        get_job_status c' other = get_job_status c other)
  /\ job_counter c' = (job_counter c + 1)%Z
  /\ ids_issued c'
  /\ (forall id, ids_issued (fst (cancel_job c' id)))
  /\ (forall w' id o, ids_issued (finish_job utcnow_isoformat c' w' id o)).
Proof.
  intros Hc. cbv zeta. unfold start_job_async.
  destruct (generate c w kind) as [c0 id] eqn:Eg.
  pose proof (generated_id c w kind) as (Hid & Hcnt & Hjobs & Hthr).
  rewrite Eg in Hid, Hcnt, Hjobs, Hthr. cbn [fst snd] in Hid, Hcnt, Hjobs, Hthr.
  cbn [fst snd job_id status result params active_jobs threads job_counter].
  unfold get_job_status. cbn [active_jobs].
  assert (Hfresh : active_jobs c !! id = None).
  { destruct (active_jobs c !! id) as [j|] eqn:E; [|reflexivity].
    destruct (Hc id (ex_intro _ j E)) as (front & n & Heq & Hn).
    exfalso. rewrite Hid in Heq. revert Heq. apply issued_differs. lia. }
  assert (Hnew : ids_issued
            (mkController (<[id := mkJob id kind started p (utcnow_isoformat w)
                                     None None None]> (active_jobs c0))
               (job_counter c0) (<[id := p]> (threads c0)))).
  { intros id' Hid'. cbn [active_jobs job_counter] in *.
    destruct (decide (id' = id)) as [->|Hne].
    - eexists _, _. split; [exact Hid|]. lia.
    - rewrite lookup_insert_ne in Hid' by congruence. rewrite Hjobs in Hid'.
      destruct (Hc id' Hid') as (front & n & -> & Hn).
      exists front, n. split; [reflexivity|lia]. }
  split; [exact Hfresh|].
  split; [apply lookup_insert_eq|].
  split; [reflexivity|]. split; [reflexivity|]. split; [reflexivity|].
  split; [apply lookup_insert_eq|].
  split; [intros other Hne; rewrite lookup_insert_ne by congruence;
          rewrite Hjobs; reflexivity|].
  split; [exact Hcnt|].
  split; [exact Hnew|].
  split.
  - intros id'. eapply ids_issued_same_keys; [| |exact Hnew].
    + intros x. unfold cancel_job.
      destruct (active_jobs _ !! id') as [j|] eqn:E; [|auto].
      destruct (status j); cbn [fst active_jobs]; auto.
      destruct (decide (x = id')) as [->|Hne].
      * intros _. exists j. exact E.
      * rewrite lookup_insert_ne by congruence. auto.
    + unfold cancel_job.
      destruct (active_jobs _ !! id') as [j|]; [|reflexivity].
      destruct (status j); reflexivity.
  - intros w' id' o. eapply ids_issued_same_keys; [| |exact Hnew].
    + intros x. unfold finish_job.
      destruct (active_jobs _ !! id') as [j|] eqn:E; [|auto].
      cbn [active_jobs].
      destruct (decide (x = id')) as [->|Hne].
      * intros _. exists j. exact E.
      * rewrite lookup_insert_ne by congruence. auto.
    + unfold finish_job.
      destruct (active_jobs _ !! id') as [j|]; reflexivity.
Qed.

End Ids.
End JobIds.

Lemma job_ids_differ_witness :
  snd (Automation._generate_job_id (MonitorStats := unit) Examples.stamp
         Automation.new_controller Examples.hub_world "crawler")
  <> snd (Automation._generate_job_id Examples.stamp Examples.demo_started
            Examples.hub_world "crawler").
Proof.
  apply (JobIds.job_ids_differ Examples.stamp).
  vm_compute. discriminate.
Defined.

Lemma start_job_fresh_id_witness :
  let started :=
    Automation.start_job_async (MonitorStats := unit) Examples.stamp Examples.stamp
      Automation.new_controller Examples.hub_world "crawler"
      Examples.demo_params in
  Automation.get_job_status (MonitorStats := unit) Automation.new_controller
    (Automation.job_id (snd started)) = None
  /\ Automation.get_job_status (fst started) (Automation.job_id (snd started))
     = Some (snd started).
Proof.
  cbv zeta.
  assert (H0 : AutomationDefs.ids_issued (MonitorStats := unit)
                 Automation.new_controller).
  { intros id [j Hj]. cbn in Hj. rewrite lookup_empty in Hj. discriminate Hj. }
  pose proof (JobIds.start_job_fresh_id Examples.stamp Examples.stamp
                Automation.new_controller Examples.hub_world "crawler"
                Examples.demo_params H0) as H.
  cbv zeta in H. split; [apply H|apply H].
Defined.

Module SyncJobs.
Import Automation.

Section Workers.

Context {W MonitorStats : Type}.
Variable ingest : W -> string -> Z -> W * option Z.
Variable analytics_tx : W -> string -> W * option Analytics.
Variable crawler_connected : W -> string -> Q -> W * option (list (option string)).
Variable expansion_connected :
  W -> string -> Q -> Z -> W * option (list (option string)).
Variable sleep : W -> Q -> W.
Variable start_monitor : W -> Q -> Z -> option Z -> W * (MonitorStats + string).
Variable utcnow_isoformat : W -> string.
Variable utcnow_stamp : W -> string.
Variable session_error : string.

Abbreviation target :=
  (run_target ingest analytics_tx crawler_connected expansion_connected sleep
     start_monitor session_error).
Abbreviation start_sync :=
  (start_job_sync ingest analytics_tx crawler_connected expansion_connected
     sleep start_monitor utcnow_isoformat utcnow_stamp session_error).

(** A job run inline ([run_async=False]). When its target returns, the
    job is registered as [completed] with the target's output and can no
    longer be cancelled. When its target raises, nothing catches the
    exception: the job stays registered as [started] with no result and
    no completion time, and [cancel_job] on it still succeeds. No thread
    is recorded in either case. *)
Theorem sync_job_outcome (fuel : nat) (c c' : @Controller MonitorStats)
    (w w' : W) (kind : string) (p : Params) (outcome : option Job) :
  start_sync fuel c w kind p = Some (c', w', outcome) ->
  let id := snd (_generate_job_id utcnow_stamp c w kind) in
  threads c' = threads c
  /\ job_counter c' = (job_counter c + 1)%Z
  /\ match outcome with
     | Some job =>
         get_job_status c' id = Some job
         /\ job_id job = id /\ status job = completed
         /\ (exists output,
               target fuel w p = Some (w', Returned output)
               /\ result job = Some (RunResult output))
         /\ completed_at job = Some (utcnow_isoformat w')
         /\ cancel_job c' id = (c', false)
     | None =>
         exists e job,
           target fuel w p = Some (w', Threw e)
           /\ get_job_status c' id = Some job
           /\ status job = started /\ result job = None
           /\ completed_at job = None /\ error job = None
           /\ snd (cancel_job c' id) = true
     end.
Proof.
  unfold start_job_sync, _generate_job_id. cbn [snd].
  set (id := (kind +:+ "_" +:+ utcnow_stamp w +:+ "_"
              +:+ decimal (job_counter c + 1))%string).
  destruct (target fuel w p) as [[w1 [output|e]]|] eqn:Et; [| |discriminate].
  - intros H. injection H as <- <- <-. cbv zeta.
    cbn [threads job_counter active_jobs].
    split; [reflexivity|]. split; [reflexivity|].
    unfold get_job_status, cancel_job. cbn [active_jobs].
    rewrite lookup_insert_eq. cbn [job_id status result completed_at].
    repeat split; eauto.
  - intros H. injection H as <- <- <-. cbv zeta.
    cbn [threads job_counter active_jobs].
    split; [reflexivity|]. split; [reflexivity|].
    eexists e, _. split; [reflexivity|].
    unfold get_job_status, cancel_job. cbn [active_jobs].
    rewrite lookup_insert_eq. cbn [job_id status result completed_at error snd].
    repeat split; reflexivity.
Qed.

End Workers.
End SyncJobs.

Lemma sync_job_outcome_witness :
  exists c' w' job,
    Automation.start_job_sync (Deployment.ingest Examples.hub_chain)
      Deployment.analytics_tx Deployment.crawler_connected
      Deployment.expansion_connected Deployment.sleep Examples.idle_monitor
      Examples.stamp Examples.stamp "session failed" 20
      Automation.new_controller Examples.hub_world "crawler" Examples.demo_params
    = Some (c', w', Some job)
    /\ Automation.status job = Automation.completed
    /\ Automation.cancel_job c' (Automation.job_id job) = (c', false).
Proof.
  destruct (Automation.start_job_sync (Deployment.ingest Examples.hub_chain)
      Deployment.analytics_tx Deployment.crawler_connected
      Deployment.expansion_connected Deployment.sleep Examples.idle_monitor
      Examples.stamp Examples.stamp "session failed" 20
      Automation.new_controller Examples.hub_world "crawler" Examples.demo_params)
    as [[[c' w'] [job|]]|] eqn:E;
    [|exfalso; vm_compute in E; discriminate E..].
  exists c', w', job. split; [reflexivity|].
  destruct (SyncJobs.sync_job_outcome _ _ _ _ _ _ _ _ _ _ _ _ _ _ _ _ _ E)
    as (_ & _ & _ & Hid & Hst & _ & _ & Hc).
  split; [exact Hst|]. rewrite Hid. exact Hc.
Defined.
